(** * DeFi yield bot: the yield and trading pipelines, their cache and risk score

    A shallow embedding of [src/utils/helpers.py], [src/services/yield_service.py]
    and [src/services/trading_service.py].

    Conventions of the embedding.
    - The values the upstream payloads carry are JSON scalars as Python
      reads them: [pyval].  A payload has the shape its endpoint documents;
      any of its keys may be missing ([None] of an [option]) and may hold
      any scalar.
    - Python floats are idealised as exact rationals ([Q]): no rounding, no
      overflow, no NaN, no infinities.  Python ints are [Z].
    - Code inside a [try] block runs in the exception monad [exc]; the
      [except] clause is the [match] that closes it.
    - The module-level dict [_cache] is a [gmap string entry] threaded
      through every operation.  An operation takes what it observes of the
      outside, its [world]: the readings of [time.time()] and the answer
      of the upstream.
    - Dict literals with fixed keys are records; the dicts and lists the
      services hand out or keep in the cache live in one type, [cached].
    - [str.lower] and [str.upper] act on ASCII letters.
    - A [string] is the sequence of its characters, code points below
      256; [len] is [String.length]. *)

From Stdlib Require Import ZArith QArith Qround Qminmax Qabs Lqa.
From Stdlib Require Import String Ascii List Bool Lia Sorted Permutation.
From Stdlib Require Import DecimalString DecimalZ DecimalFacts.
From stdpp Require Import base option gmap strings.

Import ListNotations.
Local Open Scope string_scope.
Local Open Scope Z_scope.

(* ================================================================== *)
(** * Python values and exceptions *)
(* ================================================================== *)

Module Py.

(** The exception classes the modelled code can raise. *)
Inductive exn : Type :=
| TypeError
| ValueError
| AttributeError
| KeyError
| ZeroDivisionError
| ClientError        (* aiohttp transport failure *)
| JSONDecodeError.   (* response.json() on a malformed body *)

(** A computation inside a [try] block. *)
Inductive exc (A : Type) : Type :=
| Raise (e : exn)
| Ret (a : A).
Arguments Raise {A} e.
Arguments Ret {A} a.

#[global] Instance exc_ret : MRet exc := fun _ a => Ret a.
#[global] Instance exc_bind : MBind exc := fun _ _ f m =>
  match m with
  | Raise e => Raise e
  | Ret a => f a
  end.

(** JSON scalars as Python sees them. *)
Inductive pyval : Type :=
| PNone
| PBool (b : bool)
| PInt (z : Z)
| PFloat (q : Q)
| PStr (s : string).

(** [dict.get(key, default)] on a field that may be missing. *)
Definition get_or (field : option pyval) (default : pyval) : pyval :=
  match field with
  | Some v => v
  | None => default
  end.

(** Numeric value of an int, a bool (an int subclass) or a float. *)
Definition num_of (v : pyval) : option Q :=
  match v with
  | PBool b => Some (if b then 1%Q else 0%Q)
  | PInt z => Some (inject_Z z)
  | PFloat q => Some q
  | PNone | PStr _ => None
  end.

(** Integer value of an int or a bool. *)
Definition int_of (v : pyval) : option Z :=
  match v with
  | PBool b => Some (if b then 1 else 0)
  | PInt z => Some z
  | _ => None
  end.

Definition is_numeric (v : pyval) : bool :=
  match num_of v with Some _ => true | None => false end.

Definition Qltb (x y : Q) : bool :=
  (Qnum x * QDen y <? Qnum y * QDen x)%Z.

(** [s * n] on a string: repetition, empty for [n <= 0]. *)
Fixpoint repeat_string (n : nat) (s : string) : string :=
  match n with
  | O => ""
  | S k => (s ++ repeat_string k s)%string
  end.

(** [a * b]. *)
Definition py_mul (a b : pyval) : exc pyval :=
  match a, b with
  | PStr s, (PInt _ | PBool _) =>
      Ret (PStr (repeat_string (Z.to_nat (default 0 (int_of b))) s))
  | (PInt _ | PBool _), PStr s =>
      Ret (PStr (repeat_string (Z.to_nat (default 0 (int_of a))) s))
  | _, _ =>
      match int_of a, int_of b with
      | Some x, Some y => Ret (PInt (x * y))
      | _, _ =>
          match num_of a, num_of b with
          | Some x, Some y => Ret (PFloat (x * y))
          | _, _ => Raise TypeError
          end
      end
  end.

(** [a + b]. *)
Definition py_add (a b : pyval) : exc pyval :=
  match a, b with
  | PStr s, PStr t => Ret (PStr (s ++ t)%string)
  | _, _ =>
      match int_of a, int_of b with
      | Some x, Some y => Ret (PInt (x + y))
      | _, _ =>
          match num_of a, num_of b with
          | Some x, Some y => Ret (PFloat (x + y))
          | _, _ => Raise TypeError
          end
      end
  end.

(** [a - b]. *)
Definition py_sub (a b : pyval) : exc pyval :=
  match int_of a, int_of b with
  | Some x, Some y => Ret (PInt (x - y))
  | _, _ =>
      match num_of a, num_of b with
      | Some x, Some y => Ret (PFloat (x - y))
      | _, _ => Raise TypeError
      end
  end.

(** [a / b]: true division, always a float. *)
Definition py_truediv (a b : pyval) : exc pyval :=
  match num_of a, num_of b with
  | Some x, Some y =>
      if Qeq_bool y 0 then Raise ZeroDivisionError else Ret (PFloat (x / y))
  | _, _ => Raise TypeError
  end.

(** [a < b]: numbers compare by value, strings lexicographically; every
    other pairing is a [TypeError]. *)
Definition py_lt (a b : pyval) : exc bool :=
  match a, b with
  | PStr s, PStr t => Ret (String.ltb s t)
  | _, _ =>
      match num_of a, num_of b with
      | Some x, Some y => Ret (Qltb x y)
      | _, _ => Raise TypeError
      end
  end.

(** [a > b] is [b < a] on the builtin types. *)
Definition py_gt (a b : pyval) : exc bool := py_lt b a.

(** [a == b] / [a != b] never raise. *)
Definition py_eq (a b : pyval) : bool :=
  match a, b with
  | PNone, PNone => true
  | PStr s, PStr t => String.eqb s t
  | _, _ =>
      match num_of a, num_of b with
      | Some x, Some y => Qeq_bool x y
      | _, _ => false
      end
  end.

(** [min(a, b)]: the first argument unless the second is smaller. *)
Definition py_min (a b : pyval) : exc pyval :=
  lt ← py_lt b a; mret (if lt : bool then b else a).

(** [max(a, b)]: the first argument unless the second is larger. *)
Definition py_max (a b : pyval) : exc pyval :=
  gt ← py_gt b a; mret (if gt : bool then b else a).

(** Truthiness of a scalar. *)
Definition truthy (v : pyval) : bool :=
  match v with
  | PNone => false
  | PBool b => b
  | PInt z => negb (z =? 0)
  | PFloat q => negb (Qeq_bool q 0)
  | PStr s => negb (String.eqb s "")
  end.

(** [numval r q]: [r] is a number whose value is [q]. *)
Definition numval (r : pyval) (q : Q) : Prop :=
  exists z, num_of r = Some z /\ (z == q)%Q.

End Py.
Import Py.

(* ================================================================== *)
(** * helpers.py *)
(* ================================================================== *)

Module Helpers.

(** ** Number formatting: the format specs [.Nf] and [,.Nf] *)

Definition pow10 (d : nat) : Z := 10 ^ Z.of_nat d.

(** Rounding to the nearest integer, ties to the even one, as the
    correctly rounded [f] presentation type does. *)
Definition round_half_even (x : Q) : Z :=
  let fl := Qfloor x in
  match (x - inject_Z fl ?= 1 # 2)%Q with
  | Lt => fl
  | Gt => fl + 1
  | Eq => if Z.even fl then fl else fl + 1
  end.

(** Decimal digits of a natural number. *)
Definition digits (n : Z) : string :=
  NilZero.string_of_uint (N.to_uint (Z.to_N n)).

(** The [d] digits after the point: [f] zero-padded on the left. *)
Definition frac_digits (d : nat) (f : Z) : string :=
  match digits (pow10 d + f) with
  | String _ rest => rest
  | EmptyString => ""
  end.

(** The [,] option: groups of three digits, counted from the right. *)
Fixpoint commas_rev (l : list ascii) (k : nat) : list ascii :=
  match l with
  | [] => []
  | a :: l' =>
      match k with
      | 3%nat => ","%char :: a :: commas_rev l' 1
      | _ => a :: commas_rev l' (S k)
      end
  end.

Definition group_thousands (s : string) : string :=
  string_of_list_ascii (rev (commas_rev (rev (list_ascii_of_string s)) 0)).

(** [f"{q:.df}"] or, with [commas], [f"{q:,.df}"]. *)
Definition format_fixed (commas : bool) (d : nat) (q : Q) : string :=
  let m := round_half_even (Qabs q * inject_Z (pow10 d)) in
  let ip := digits (m / pow10 d) in
  ((if Qltb q 0 then "-" else "")
   ++ (if commas then group_thousands ip else ip)
   ++ (match d with O => "" | _ => "." ++ frac_digits d (m mod pow10 d) end))%string.

(** The same format spec applied to any value: a string raises
    [ValueError], [None] raises [TypeError]. *)
Definition format_spec_f (commas : bool) (d : nat) (v : pyval) : exc string :=
  match v with
  | PNone => Raise TypeError
  | PStr _ => Raise ValueError
  | _ => Ret (format_fixed commas d (default 0%Q (num_of v)))
  end.

(** [str(value)] of a value the format spec rejected. *)
Definition str_fallback (v : pyval) : string :=
  match v with
  | PStr s => s
  | _ => "None"
  end.

(** [format_currency(amount, decimals=2)]. *)
Definition format_currency (amount : pyval) : string :=
  match amount with
  | PNone => "N/A"
  | _ =>
      match format_spec_f true 2 amount with
      | Ret s => ("$" ++ s)%string
      | Raise _ => str_fallback amount
      end
  end.

(** [format_percentage(value, decimals=2)]. *)
Definition format_percentage (value : pyval) : string :=
  match value with
  | PNone => "N/A"
  | _ =>
      match format_spec_f false 2 value with
      | Ret s => (s ++ "%")%string
      | Raise _ => str_fallback value
      end
  end.

(** ** [float(s.replace('%', ''))] *)

(** [s.replace(c, '')] for a one-character [c]. *)
Fixpoint remove_char (c : ascii) (s : string) : string :=
  match s with
  | EmptyString => EmptyString
  | String a r =>
      if Ascii.eqb a c then remove_char c r else String a (remove_char c r)
  end.

(** Cuts at the first point. *)
Fixpoint split_dot (s : string) : string * option string :=
  match s with
  | EmptyString => (EmptyString, None)
  | String a r =>
      if Ascii.eqb a "."%char then (EmptyString, Some r)
      else let '(i, f) := split_dot r in (String a i, f)
  end.

Definition parse_unsigned (s : string) : option Q :=
  match split_dot s with
  | (ip, None) =>
      u ← NilZero.uint_of_string ip; Some (inject_Z (Z.of_uint u))
  | (ip, Some fp) =>
      match ip, fp with
      | EmptyString, EmptyString => None
      | _, _ =>
          a ← NilEmpty.uint_of_string ip;
          b ← NilEmpty.uint_of_string fp;
          Some (Qplus (inject_Z (Z.of_uint a))
                  (Qmake (Z.of_uint b) (Z.to_pos (pow10 (String.length fp)))))
      end
  end.

(** [float(s)] on a plain signed decimal numeral, the only spelling the
    formatted percentages of this program use.  (Python also reads
    exponents, [inf], [nan], underscores and surrounding blanks; here
    they are a [ValueError].) *)
Definition py_float (s : string) : exc Q :=
  let '(neg, body) :=
    match s with
    | String "-"%char r => (true, r)
    | String "+"%char r => (false, r)
    | _ => (false, s)
    end in
  match parse_unsigned body with
  | Some q => Ret (if neg then (- q)%Q else q)
  | None => Raise ValueError
  end.

(** [float(text.replace('%', ''))]. *)
Definition float_of_percentage (text : string) : exc Q :=
  py_float (remove_char "%"%char text).

(** ** [str.lower()] and [str.upper()] on ASCII letters *)

Definition lower_ascii (a : ascii) : ascii :=
  let n := nat_of_ascii a in
  if ((65 <=? n) && (n <=? 90))%nat then ascii_of_nat (n + 32) else a.

Definition upper_ascii (a : ascii) : ascii :=
  let n := nat_of_ascii a in
  if ((97 <=? n) && (n <=? 122))%nat then ascii_of_nat (n - 32) else a.

Fixpoint map_string (f : ascii -> ascii) (s : string) : string :=
  match s with
  | EmptyString => EmptyString
  | String a r => String (f a) (map_string f r)
  end.

Definition lower (s : string) : string := map_string lower_ascii s.
Definition upper (s : string) : string := map_string upper_ascii s.

(** [v.lower()] / [v.upper()] on a JSON value: only strings have them. *)
Definition py_lower (v : pyval) : exc string :=
  match v with
  | PStr s => Ret (lower s)
  | _ => Raise AttributeError
  end.

Definition py_upper (v : pyval) : exc string :=
  match v with
  | PStr s => Ret (upper s)
  | _ => Raise AttributeError
  end.

(** [str(z)] of an int, as an f-string interpolates it. *)
Definition str_int (z : Z) : string := NilZero.string_of_int (Z.to_int z).

(** ** [[:n]] and [[-n:]] *)

(** [l[:n]]: a negative [n] counts from the end. *)
Definition slice_to {A} (n : Z) (l : list A) : list A :=
  if 0 <=? n then firstn (Z.to_nat n) l
  else firstn (length l - Z.to_nat (- n)) l.

(** [l[-n:]] for a positive literal [n]. *)
Definition slice_last {A} (n : nat) (l : list A) : list A :=
  skipn (length l - n) l.

(** ** [sorted(l, key=key, reverse=True)]

    A stable sort by descending key that uses [<] only; it raises where a
    comparison it makes raises. *)
Section Sorted.
Context {A : Type} (key : A -> pyval).

Fixpoint insert_desc (x : A) (l : list A) : exc (list A) :=
  match l with
  | [] => Ret [x]
  | y :: l' =>
      lt ← py_lt (key x) (key y);
      if lt : bool then r ← insert_desc x l'; mret (y :: r)
      else mret (x :: y :: l')
  end.

Fixpoint sorted_desc (l : list A) : exc (list A) :=
  match l with
  | [] => Ret []
  | x :: l' => r ← sorted_desc l'; insert_desc x r
  end.
End Sorted.

(** ** [calculate_risk_score(volatility, liquidity, protocol_age)] *)

Definition risk_score_body (volatility liquidity protocol_age : pyval)
  : exc pyval :=
  v10 ← py_mul volatility (PInt 10);
  vol_score ← py_min (PInt 10) v10;
  lq ← py_truediv liquidity (PInt 1000000);
  ld ← py_sub (PInt 10) lq;
  liq_score ← py_max (PInt 0) ld;
  aq ← py_truediv protocol_age (PInt 30);
  ad ← py_sub (PInt 10) aq;
  age_score ← py_max (PInt 0) ad;
  t1 ← py_mul vol_score (PFloat (1 # 2));
  t2 ← py_mul liq_score (PFloat (3 # 10));
  s12 ← py_add t1 t2;
  t3 ← py_mul age_score (PFloat (1 # 5));
  risk_score ← py_add s12 t3;
  m ← py_max (PInt 0) risk_score;
  py_min (PInt 10) m.

Definition calculate_risk_score (volatility liquidity protocol_age : pyval)
  : exc pyval :=
  match risk_score_body volatility liquidity protocol_age with
  | Ret r => Ret r
  | Raise TypeError | Raise ValueError => Ret (PInt 5)
  | Raise e => Raise e
  end.

(** ** [format_message(message, max_length=4000)] *)

(** [s[:n]] on a string. *)
Definition str_slice_to (n : Z) (s : string) : string :=
  string_of_list_ascii (slice_to n (list_ascii_of_string s)).

Definition format_message (message : string) (max_length : Z) : string :=
  if Z.of_nat (String.length message) <=? max_length then message
  else (str_slice_to (max_length - 3) message ++ "...")%string.

(** ** [clean_text(text)] *)

(** What [\s] and [str.strip] take for whitespace, among the code points
    below 256: tab to carriage return, the four separators 28 to 31, the
    space, NEL and the no-break space. *)
Definition is_space (a : ascii) : bool :=
  let n := nat_of_ascii a in
  ((9 <=? n) && (n <=? 13) || (28 <=? n) && (n <=? 32)
   || (n =? 133) || (n =? 160))%nat.

Definition newline : ascii := "010"%char.

Definition is_newline (a : ascii) : bool := Ascii.eqb a newline.

(** [re.sub(r'\s+', ' ', text)]: every maximal run of whitespace becomes
    one space; [in_run] tells that the run has been replaced already. *)
Fixpoint collapse (text : string) (in_run : bool) : string :=
  match text with
  | EmptyString => EmptyString
  | String a rest =>
      if is_space a then
        if in_run then collapse rest true
        else String " " (collapse rest true)
      else String a (collapse rest false)
  end.

(** The whitespace run at the head of [text]: how many newlines it holds
    and where its last newline ends. *)
Fixpoint run_newlines (text : string) (pos count last : nat) : nat * nat :=
  match text with
  | EmptyString => (count, last)
  | String a rest =>
      if is_space a then
        if is_newline a then run_newlines rest (S pos) (S count) (S pos)
        else run_newlines rest (S pos) count last
      else (count, last)
  end.

(** A match of [\n\s*\n\s*\n+] whose first newline has just been read:
    the run that follows must hold two more newlines, and the match,
    greedy, ends with the last of them.  The result is the number of
    characters of [rest] the match takes. *)
Definition newline_match (rest : string) : option nat :=
  let '(count, last) := run_newlines rest 0 0 0 in
  if (2 <=? count)%nat then Some last else None.

(** [re.sub(r'\n\s*\n\s*\n+', '\n\n', text)]; [skip] characters are still
    part of the match replaced last. *)
Fixpoint sub_newlines (text : string) (skip : nat) : string :=
  match text with
  | EmptyString => EmptyString
  | String a rest =>
      match skip with
      | S k => sub_newlines rest k
      | O =>
          if is_newline a then
            match newline_match rest with
            | Some k => String newline (String newline (sub_newlines rest k))
            | None => String a (sub_newlines rest 0)
            end
          else String a (sub_newlines rest 0)
      end
  end.

Fixpoint lstrip (text : string) : string :=
  match text with
  | EmptyString => EmptyString
  | String a rest => if is_space a then lstrip rest else text
  end.

Fixpoint rstrip (text : string) : string :=
  match text with
  | EmptyString => EmptyString
  | String a rest =>
      match rstrip rest with
      | EmptyString => if is_space a then EmptyString else String a EmptyString
      | kept => String a kept
      end
  end.

(** [text.strip()]. *)
Definition strip (text : string) : string := rstrip (lstrip text).

Definition clean_text (text : string) : string :=
  let text := collapse text false in
  let text := sub_newlines text 0 in
  strip text.

End Helpers.
Import Helpers.

(* ================================================================== *)
(** * The records the services build and the cache that holds them *)
(* ================================================================== *)

Module Data.

(** An f-string kept as its literal prefix and the value interpolated
    after it. *)
Record fstring := { fs_prefix : string; fs_arg : pyval }.

(** One entry of the lists the yield operations return.  [yr_protocol],
    [yr_chain] and [yr_risk_score] are the keys some operations leave out. *)
Record yield_record := {
  yr_name : pyval;
  yr_protocol : option pyval;
  yr_chain : option pyval;
  yr_apy : string;
  yr_tvl : string;
  yr_risk_score : option string;
  yr_url : fstring
}.

Record price_record := { pr_price : string; pr_change_24h : string }.

Record mover := { mv_name : pyval; mv_symbol : string; mv_change_24h : string }.

Record market_record := {
  ms_sentiment : string;
  ms_avg_change_24h : string;
  ms_top_gainers : list mover;
  ms_top_losers : list mover
}.

Record token_record := {
  tk_name : pyval;
  tk_symbol : string;
  tk_sentiment : string;
  tk_price : string;
  tk_change_24h : string;
  tk_change_7d : string;
  tk_change_30d : string;
  tk_market_cap : string;
  tk_volume_24h : string
}.

(** Everything the services store in [_cache]. *)
Inductive cached : Type :=
| CYields (l : list yield_record)
| CPrice (r : price_record)
| CMarket (r : market_record)
| CToken (r : token_record).

(** [if cached_data:] an empty list is falsy, the dicts above never are. *)
Definition cached_truthy (v : cached) : bool :=
  match v with
  | CYields [] => false
  | _ => true
  end.

(** [len(v)]: the length of a list, the number of keys of a dict. *)
Definition cached_len (v : cached) : nat :=
  match v with
  | CYields l => length l
  | CPrice _ => 2
  | CMarket _ => 4
  | CToken _ => 9
  end.

(** Reading a value as the token-sentiment dict through its keys: a list
    has no string index, the other dicts lack some of the keys. *)
Definition as_token (v : cached) : exc token_record :=
  match v with
  | CToken r => Ret r
  | CYields _ => Raise TypeError
  | CPrice _ | CMarket _ => Raise KeyError
  end.

(** ** The upstream side of one call *)

Inductive response (B : Type) : Type :=
| TransportError
| Http (status : Z) (body : option B).
Arguments TransportError {B}.
Arguments Http {B} status body.

(** What one call observes: the clock when it looks the cache up, the
    upstream answer, and the clock when it stores its result. *)
Record world (B : Type) := {
  now_lookup : Q;
  upstream : response B;
  now_store : Q
}.
Arguments now_lookup {B} w.
Arguments upstream {B} w.
Arguments now_store {B} w.

(** [await response.json()]. *)
Definition json {B} (body : option B) : exc B :=
  match body with
  | Some b => Ret b
  | None => Raise JSONDecodeError
  end.

(** ** Loops that may raise *)

Fixpoint filter_exc {A} (keep : A -> exc bool) (l : list A) : exc (list A) :=
  match l with
  | [] => Ret []
  | x :: l' =>
      k ← keep x;
      r ← filter_exc keep l';
      mret (if k : bool then x :: r else r)
  end.

Fixpoint map_exc {A B} (f : A -> exc B) (l : list A) : exc (list B) :=
  match l with
  | [] => Ret []
  | x :: l' => y ← f x; r ← map_exc f l'; mret (y :: r)
  end.

(** [sum(l)]: starts from the int 0. *)
Definition py_sum (l : list pyval) : exc pyval :=
  fold_left (fun acc v => a ← acc; py_add a v) l (Ret (PInt 0)).

End Data.
Import Data.

Module Cache.

(** An entry of [_cache]: [{'data': ..., 'expires': ...}]. *)
Record entry := { data : cached; expires : Q }.

(** [cache_result(key, result, timeout)] at clock reading [now]. *)
Definition cache_result (key : string) (result : cached) (timeout now : Q)
    (c : gmap string entry) : gmap string entry :=
  <[key := {| data := result; expires := (now + timeout)%Q |}]> c.

(** [get_cached_result(key)] at clock reading [now]; [None] is Python's
    [None]. *)
Definition get_cached_result (key : string) (now : Q) (c : gmap string entry)
  : option cached * gmap string entry :=
  match c !! key with
  | Some cache_entry =>
      if Qltb now (expires cache_entry) then (Some (data cache_entry), c)
      else (None, delete key c)
  | None => (None, c)
  end.

(** The test every service makes on the value it got back:
    [if cached_data: return cached_data]. *)
Definition cache_hit (cached_data : option cached) : option cached :=
  match cached_data with
  | Some d => if cached_truthy d then Some d else None
  | None => None
  end.

End Cache.
Import Cache.

(* ================================================================== *)
(** * yield_service.py *)
(* ================================================================== *)

Module YieldService.

(** A pool object of the upstream listing; [None] is a missing key. *)
Record pool := {
  pool_name : option pyval;
  pool_project : option pyval;
  pool_chain : option pyval;
  pool_apy : option pyval;
  pool_tvlUsd : option pyval;
  pool_volatility : option pyval;
  pool_risk_score : option pyval
}.

(** The body of the listing: [data.get('data', [])]. *)
Record listing := { listing_data : option (list pool) }.

Definition pools_of (data : listing) : list pool :=
  default [] (listing_data data).

(** [lambda x: x.get('apy', 0)]. *)
Definition apy_key (x : pool) : pyval := get_or (pool_apy x) (PInt 0).

Definition tvl_of (x : pool) : pyval := get_or (pool_tvlUsd x) (PInt 0).

Definition volatility_of (x : pool) : pyval :=
  get_or (pool_volatility x) (PFloat (1 # 2)).

Definition project_url : string := "https://defillama.com/yields?project=".
Definition chain_url : string := "https://defillama.com/yields?chain=".

(** [str(chain)] inside the cache key. *)
Definition str_chain (chain : option string) : string :=
  match chain with
  | None => "None"
  | Some s => s
  end.

(** Truthiness of the [chain] argument. *)
Definition chain_given (chain : option string) : bool :=
  match chain with
  | None => false
  | Some s => negb (String.eqb s "")
  end.

(** The record the yield listings show for a pool with risk score [rs]. *)
Definition scored_record (p : pool) (rs : string) : yield_record :=
  {| yr_name := get_or (pool_name p) (PStr "Unknown");
     yr_protocol := Some (get_or (pool_project p) (PStr "Unknown"));
     yr_chain := Some (get_or (pool_chain p) (PStr "Unknown"));
     yr_apy := format_percentage (apy_key p);
     yr_tvl := format_currency (tvl_of p);
     yr_risk_score := Some (rs ++ "/10")%string;
     yr_url := {| fs_prefix := project_url;
                  fs_arg := get_or (pool_project p) (PStr "") |} |}.

Section WithConfig.

(** [Config.CACHE_TIMEOUT]; the configuration module is not part of the
    sources at hand. *)
Variable CACHE_TIMEOUT : Q.

(** ** get_top_yields *)

Definition top_yields_key (limit min_tvl : Z) (chain : option string) : string :=
  ("top_yields_" ++ str_int limit ++ "_" ++ str_int min_tvl ++ "_"
   ++ str_chain chain)%string.

(** The filter loop: [True] keeps the pool. *)
Definition top_keep (min_tvl : Z) (chain : option string) (p : pool) : exc bool :=
  low ← py_lt (tvl_of p) (PInt min_tvl);
  if low : bool then mret false
  else if chain_given chain
          && negb (py_eq (get_or (pool_chain p) PNone) (PStr (str_chain chain)))
       then mret false
       else mret true.

(** One iteration of the formatting loop. *)
Definition top_record (p : pool) : exc yield_record :=
  risk_score ← calculate_risk_score (volatility_of p) (tvl_of p) (PInt 365);
  rs ← format_spec_f false 1 risk_score;
  mret (scored_record p rs).

(** The pools the answer is made of. *)
Definition top_pools (limit min_tvl : Z) (chain : option string)
    (pools : list pool) : exc (list pool) :=
  filtered_pools ← filter_exc (top_keep min_tvl chain) pools;
  sorted_pools ← sorted_desc apy_key filtered_pools;
  mret (slice_to limit sorted_pools).

(** The [try] block. *)
Definition top_yields_try (limit min_tvl : Z) (chain : option string)
    (w : world listing) (c : gmap string entry)
  : exc (cached * gmap string entry) :=
  match upstream w with
  | TransportError => Raise ClientError
  | Http status body =>
      if status =? 200 then
        data ← json body;
        top ← top_pools limit min_tvl chain (pools_of data);
        results ← map_exc top_record top;
        mret (CYields results,
              cache_result (top_yields_key limit min_tvl chain)
                (CYields results) CACHE_TIMEOUT (now_store w) c)
      else mret (CYields [], c)
  end.

(** What runs after a cache miss: the [try] block and its [except]. *)
Definition top_yields_fetch (limit min_tvl : Z) (chain : option string)
    (w : world listing) (c : gmap string entry)
  : cached * gmap string entry :=
  match top_yields_try limit min_tvl chain w c with
  | Ret r => r
  | Raise _ => (CYields [], c)
  end.

Definition get_top_yields (limit min_tvl : Z) (chain : option string)
    (w : world listing) (c : gmap string entry)
  : cached * gmap string entry :=
  let cache_key := top_yields_key limit min_tvl chain in
  let '(cached_data, c1) := get_cached_result cache_key (now_lookup w) c in
  match cache_hit cached_data with
  | Some d => (d, c1)
  | None => top_yields_fetch limit min_tvl chain w c1
  end.

(** ** get_yield_by_protocol *)

Definition protocol_key (protocol_name : string) (limit : Z) : string :=
  ("protocol_yields_" ++ protocol_name ++ "_" ++ str_int limit)%string.

Definition protocol_keep (protocol_name : string) (p : pool) : exc bool :=
  l ← py_lower (get_or (pool_project p) (PStr ""));
  mret (String.eqb l (lower protocol_name)).

Definition protocol_record (protocol_name : string) (p : pool) : yield_record :=
  {| yr_name := get_or (pool_name p) (PStr "Unknown");
     yr_protocol := None;
     yr_chain := Some (get_or (pool_chain p) (PStr "Unknown"));
     yr_apy := format_percentage (apy_key p);
     yr_tvl := format_currency (tvl_of p);
     yr_risk_score := None;
     yr_url := {| fs_prefix := project_url; fs_arg := PStr protocol_name |} |}.

Definition protocol_pools (protocol_name : string) (limit : Z)
    (pools : list pool) : exc (list pool) :=
  kept ← filter_exc (protocol_keep protocol_name) pools;
  sorted_pools ← sorted_desc apy_key kept;
  mret (slice_to limit sorted_pools).

Definition yield_by_protocol_try (protocol_name : string) (limit : Z)
    (w : world listing) (c : gmap string entry)
  : exc (cached * gmap string entry) :=
  match upstream w with
  | TransportError => Raise ClientError
  | Http status body =>
      if status =? 200 then
        data ← json body;
        top ← protocol_pools protocol_name limit (pools_of data);
        let results := map (protocol_record protocol_name) top in
        mret (CYields results,
              cache_result (protocol_key protocol_name limit)
                (CYields results) CACHE_TIMEOUT (now_store w) c)
      else mret (CYields [], c)
  end.

Definition yield_by_protocol_fetch (protocol_name : string) (limit : Z)
    (w : world listing) (c : gmap string entry)
  : cached * gmap string entry :=
  match yield_by_protocol_try protocol_name limit w c with
  | Ret r => r
  | Raise _ => (CYields [], c)
  end.

Definition get_yield_by_protocol (protocol_name : string) (limit : Z)
    (w : world listing) (c : gmap string entry)
  : cached * gmap string entry :=
  let cache_key := protocol_key protocol_name limit in
  let '(cached_data, c1) := get_cached_result cache_key (now_lookup w) c in
  match cache_hit cached_data with
  | Some d => (d, c1)
  | None => yield_by_protocol_fetch protocol_name limit w c1
  end.

(** ** get_yield_by_chain *)

Definition chain_key (chain_name : string) (limit : Z) : string :=
  ("chain_yields_" ++ chain_name ++ "_" ++ str_int limit)%string.

Definition chain_keep (chain_name : string) (p : pool) : exc bool :=
  l ← py_lower (get_or (pool_chain p) (PStr ""));
  mret (String.eqb l (lower chain_name)).

Definition chain_record (chain_name : string) (p : pool) : yield_record :=
  {| yr_name := get_or (pool_name p) (PStr "Unknown");
     yr_protocol := Some (get_or (pool_project p) (PStr "Unknown"));
     yr_chain := None;
     yr_apy := format_percentage (apy_key p);
     yr_tvl := format_currency (tvl_of p);
     yr_risk_score := None;
     yr_url := {| fs_prefix := chain_url; fs_arg := PStr chain_name |} |}.

Definition chain_pools (chain_name : string) (limit : Z)
    (pools : list pool) : exc (list pool) :=
  kept ← filter_exc (chain_keep chain_name) pools;
  sorted_pools ← sorted_desc apy_key kept;
  mret (slice_to limit sorted_pools).

Definition yield_by_chain_try (chain_name : string) (limit : Z)
    (w : world listing) (c : gmap string entry)
  : exc (cached * gmap string entry) :=
  match upstream w with
  | TransportError => Raise ClientError
  | Http status body =>
      if status =? 200 then
        data ← json body;
        top ← chain_pools chain_name limit (pools_of data);
        let results := map (chain_record chain_name) top in
        mret (CYields results,
              cache_result (chain_key chain_name limit)
                (CYields results) CACHE_TIMEOUT (now_store w) c)
      else mret (CYields [], c)
  end.

Definition yield_by_chain_fetch (chain_name : string) (limit : Z)
    (w : world listing) (c : gmap string entry)
  : cached * gmap string entry :=
  match yield_by_chain_try chain_name limit w c with
  | Ret r => r
  | Raise _ => (CYields [], c)
  end.

Definition get_yield_by_chain (chain_name : string) (limit : Z)
    (w : world listing) (c : gmap string entry)
  : cached * gmap string entry :=
  let cache_key := chain_key chain_name limit in
  let '(cached_data, c1) := get_cached_result cache_key (now_lookup w) c in
  match cache_hit cached_data with
  | Some d => (d, c1)
  | None => yield_by_chain_fetch chain_name limit w c1
  end.

(** ** get_yield_comparison *)

Record comparison := {
  protocol1 : string;
  protocol1_avg_apy : string;
  protocol1_pools : nat;
  protocol2 : string;
  protocol2_avg_apy : string;
  protocol2_pools : nat;
  difference : string;
  winner : string
}.

(** The dict of the [try] block, or the one of its [except] clause. *)
Inductive comparison_result : Type :=
| Compared (r : comparison)
| CompareError (p1 p2 : string) (error : exn).

(** [[float(p['apy'].replace('%', '')) for p in yields]]. *)
Definition apy_values (yields : cached) : exc (list pyval) :=
  match yields with
  | CYields l => map_exc (fun p => q ← float_of_percentage (yr_apy p);
                                   mret (PFloat q)) l
  | _ => Raise TypeError
  end.

(** [sum([...]) / len(yields) if yields else 0]. *)
Definition avg_apy (yields : cached) : exc pyval :=
  if cached_truthy yields then
    vs ← apy_values yields;
    total ← py_sum vs;
    py_truediv total (PInt (Z.of_nat (cached_len yields)))
  else mret (PInt 0).

Definition comparison_try (p1 p2 : string) (yields1 yields2 : cached)
  : exc comparison :=
  avg1 ← avg_apy yields1;
  avg2 ← avg_apy yields2;
  diff ← py_sub avg1 avg2;
  gt ← py_gt avg1 avg2;
  mret {| protocol1 := p1;
          protocol1_avg_apy := format_percentage avg1;
          protocol1_pools := cached_len yields1;
          protocol2 := p2;
          protocol2_avg_apy := format_percentage avg2;
          protocol2_pools := cached_len yields2;
          difference := format_percentage diff;
          winner := if gt : bool then p1 else p2 |}.

(** The two listings are fetched one after the other, each with its own
    view of the upstream and of the clock.  The function returns a dict on
    every path; [Some] marks that it is never [None]. *)
Definition get_yield_comparison (p1 p2 : string)
    (w1 w2 : world listing) (c : gmap string entry)
  : option comparison_result * gmap string entry :=
  let '(protocol1_yields, c1) := get_yield_by_protocol p1 5 w1 c in
  let '(protocol2_yields, c2) := get_yield_by_protocol p2 5 w2 c1 in
  match comparison_try p1 p2 protocol1_yields protocol2_yields with
  | Ret r => (Some (Compared r), c2)
  | Raise e => (Some (CompareError p1 p2 e), c2)
  end.

End WithConfig.

(** ** get_yield_recommendations *)

(** [risk_params.get(key, risk_params['medium'])]: the pair
    [(min_tvl, max_volatility)]. *)
Definition risk_params (key : string) : Z * Q :=
  if String.eqb key "low" then (10000000, 3 # 10)
  else if String.eqb key "medium" then (1000000, 6 # 10)
  else if String.eqb key "high" then (100000, 1 # 1)
  else (1000000, 6 # 10).

(** [pool['risk_score'] = risk_score]. *)
Definition set_risk_score (p : pool) (risk_score : pyval) : pool :=
  {| pool_name := pool_name p;
     pool_project := pool_project p;
     pool_chain := pool_chain p;
     pool_apy := pool_apy p;
     pool_tvlUsd := pool_tvlUsd p;
     pool_volatility := pool_volatility p;
     pool_risk_score := Some risk_score |}.

(** The filter loop; a kept pool gets its [risk_score] key. *)
Fixpoint recommend_filter (params : Z * Q) (pools : list pool)
  : exc (list pool) :=
  match pools with
  | [] => Ret []
  | p :: rest =>
      low ← py_lt (tvl_of p) (PInt (fst params));
      if low : bool then recommend_filter params rest
      else
        high ← py_gt (volatility_of p) (PFloat (snd params));
        if high : bool then recommend_filter params rest
        else
          risk_score ← calculate_risk_score (volatility_of p) (tvl_of p) (PInt 365);
          r ← recommend_filter params rest;
          mret (set_risk_score p risk_score :: r)
  end.

Definition recommend_record (p : pool) : exc yield_record :=
  rs ← format_spec_f false 1 (get_or (pool_risk_score p) (PInt 5));
  mret (scored_record p rs).

Definition recommend_pools (params : Z * Q) (limit : Z) (pools : list pool)
  : exc (list pool) :=
  filtered_pools ← recommend_filter params pools;
  sorted_pools ← sorted_desc apy_key filtered_pools;
  mret (slice_to limit sorted_pools).

Definition yield_recommendations_try (params : Z * Q) (limit : Z)
    (up : response listing) : exc (list yield_record) :=
  match up with
  | TransportError => Raise ClientError
  | Http status body =>
      if status =? 200 then
        data ← json body;
        top ← recommend_pools params limit (pools_of data);
        map_exc recommend_record top
      else mret []
  end.

(** [min_tvl] is the second parameter of the signature. *)
Definition get_yield_recommendations (risk_tolerance : string) (min_tvl : Z)
    (limit : Z) (up : response listing) : list yield_record :=
  let params := risk_params (lower risk_tolerance) in
  match yield_recommendations_try params limit up with
  | Ret results => results
  | Raise _ => []
  end.

End YieldService.
Import YieldService.

(* ================================================================== *)
(** * trading_service.py *)
(* ================================================================== *)

Module TradingService.

(** ** Upstream payloads; [None] is a missing key *)

(** [data[token_id]] of the simple-price endpoint. *)
Record simple_price := {
  sp_usd : option pyval;
  sp_usd_24h_change : option pyval
}.

(** One coin of the markets listing. *)
Record coin := {
  coin_name : option pyval;
  coin_symbol : option pyval;
  coin_change_24h : option pyval   (* price_change_percentage_24h *)
}.

Record market_data := {
  md_change_24h : option pyval;    (* price_change_percentage_24h *)
  md_change_7d : option pyval;
  md_change_30d : option pyval;
  md_current_price_usd : option pyval;
  md_market_cap_usd : option pyval;
  md_total_volume_usd : option pyval
}.

Record community_data := {
  reddit_subscribers : option pyval;
  twitter_followers : option pyval
}.

Record coin_detail := {
  cd_name : option pyval;
  cd_symbol : option pyval;
  cd_market_data : option market_data;
  cd_community_data : option community_data
}.

(** [{}], the default of [data.get('market_data', {})]. *)
Definition no_market_data : market_data :=
  {| md_change_24h := None; md_change_7d := None; md_change_30d := None;
     md_current_price_usd := None; md_market_cap_usd := None;
     md_total_volume_usd := None |}.

Definition no_community_data : community_data :=
  {| reddit_subscribers := None; twitter_followers := None |}.

(** The five sentiment labels from a score and the two thresholds. *)
Definition sentiment_label (score : pyval) (strong mild : Z) : exc string :=
  a ← py_gt score (PInt strong);
  if a : bool then mret "very bullish" else
  b ← py_gt score (PInt mild);
  if b : bool then mret "bullish" else
  c ← py_lt score (PInt (- strong));
  if c : bool then mret "very bearish" else
  d ← py_lt score (PInt (- mild));
  if d : bool then mret "bearish" else mret "neutral".

(** ** get_token_price *)

Definition token_price_key (token_id : string) : string :=
  ("token_price_" ++ token_id)%string.

(** The body is the entry of [token_id], if the answer has one. *)
Definition token_price_try (token_id : string)
    (w : world (option simple_price)) (c : gmap string entry)
  : exc (option cached * gmap string entry) :=
  match upstream w with
  | TransportError => Raise ClientError
  | Http status body =>
      if status =? 200 then
        data ← json body;
        match data with
        | Some token_data =>
            let result :=
              {| pr_price := format_currency (get_or (sp_usd token_data) (PInt 0));
                 pr_change_24h :=
                   format_percentage (get_or (sp_usd_24h_change token_data) (PInt 0)) |} in
            mret (Some (CPrice result),
                  cache_result (token_price_key token_id) (CPrice result)
                    300 (now_store w) c)
        | None => mret (None, c)
        end
      else mret (None, c)
  end.

Definition token_price_fetch (token_id : string)
    (w : world (option simple_price)) (c : gmap string entry)
  : option cached * gmap string entry :=
  match token_price_try token_id w c with
  | Ret r => r
  | Raise _ => (None, c)
  end.

Definition get_token_price (token_id : string)
    (w : world (option simple_price)) (c : gmap string entry)
  : option cached * gmap string entry :=
  let '(cached_data, c1) :=
    get_cached_result (token_price_key token_id) (now_lookup w) c in
  match cache_hit cached_data with
  | Some d => (Some d, c1)
  | None => token_price_fetch token_id w c1
  end.

(** ** get_market_sentiment *)

Definition market_key : string := "market_sentiment".

Definition change_key (x : coin) : pyval := get_or (coin_change_24h x) (PInt 0).

Definition mover_of (x : coin) : exc mover :=
  symbol ← py_upper (get_or (coin_symbol x) (PStr "Unknown"));
  mret {| mv_name := get_or (coin_name x) (PStr "Unknown");
          mv_symbol := symbol;
          mv_change_24h := format_percentage (change_key x) |}.

Definition market_sentiment_try (w : world (list coin)) (c : gmap string entry)
  : exc (option cached * gmap string entry) :=
  match upstream w with
  | TransportError => Raise ClientError
  | Http status body =>
      if status =? 200 then
        data ← json body;
        total_change ← py_sum (map change_key data);
        avg_change ←
          match data with
          | [] => mret (PInt 0)
          | _ => py_truediv total_change (PInt (Z.of_nat (length data)))
          end;
        sentiment ← sentiment_label avg_change 5 2;
        sorted_by_change ← sorted_desc change_key data;
        top_gainers ← map_exc mover_of (slice_to 3 sorted_by_change);
        top_losers ← map_exc mover_of (slice_last 3 sorted_by_change);
        let result :=
          {| ms_sentiment := sentiment;
             ms_avg_change_24h := format_percentage avg_change;
             ms_top_gainers := top_gainers;
             ms_top_losers := top_losers |} in
        mret (Some (CMarket result),
              cache_result market_key (CMarket result) 1800 (now_store w) c)
      else mret (None, c)
  end.

Definition market_sentiment_fetch (w : world (list coin)) (c : gmap string entry)
  : option cached * gmap string entry :=
  match market_sentiment_try w c with
  | Ret r => r
  | Raise _ => (None, c)
  end.

Definition get_market_sentiment (w : world (list coin)) (c : gmap string entry)
  : option cached * gmap string entry :=
  let '(cached_data, c1) := get_cached_result market_key (now_lookup w) c in
  match cache_hit cached_data with
  | Some d => (Some d, c1)
  | None => market_sentiment_fetch w c1
  end.

(** ** get_token_sentiment *)

Definition token_sentiment_key (token_id : string) : string :=
  ("token_sentiment_" ++ token_id)%string.

(** The weighted score, community bonus included. *)
Definition sentiment_score (md : market_data) (cd : community_data) : exc pyval :=
  let price_change_24h := get_or (md_change_24h md) (PInt 0) in
  let price_change_7d := get_or (md_change_7d md) (PInt 0) in
  let price_change_30d := get_or (md_change_30d md) (PInt 0) in
  a ← py_mul price_change_24h (PFloat (1 # 2));
  s1 ← py_add (PInt 0) a;
  b ← py_mul price_change_7d (PFloat (3 # 10));
  s2 ← py_add s1 b;
  d ← py_mul price_change_30d (PFloat (1 # 5));
  s3 ← py_add s2 d;
  big_reddit ← py_gt (get_or (reddit_subscribers cd) (PInt 0)) (PInt 100000);
  big ← (if big_reddit : bool then mret true
         else py_gt (get_or (twitter_followers cd) (PInt 0)) (PInt 500000));
  if big : bool then py_add s3 (PInt 1) else mret s3.

Definition token_record_of (data : coin_detail) : exc token_record :=
  let md := default no_market_data (cd_market_data data) in
  let cd := default no_community_data (cd_community_data data) in
  score ← sentiment_score md cd;
  sentiment ← sentiment_label score 10 5;
  symbol ← py_upper (get_or (cd_symbol data) (PStr "Unknown"));
  mret {| tk_name := get_or (cd_name data) (PStr "Unknown");
          tk_symbol := symbol;
          tk_sentiment := sentiment;
          tk_price := format_currency (get_or (md_current_price_usd md) (PInt 0));
          tk_change_24h := format_percentage (get_or (md_change_24h md) (PInt 0));
          tk_change_7d := format_percentage (get_or (md_change_7d md) (PInt 0));
          tk_change_30d := format_percentage (get_or (md_change_30d md) (PInt 0));
          tk_market_cap := format_currency (get_or (md_market_cap_usd md) (PInt 0));
          tk_volume_24h := format_currency (get_or (md_total_volume_usd md) (PInt 0)) |}.

Definition token_sentiment_try (token_id : string)
    (w : world coin_detail) (c : gmap string entry)
  : exc (option cached * gmap string entry) :=
  match upstream w with
  | TransportError => Raise ClientError
  | Http status body =>
      if status =? 200 then
        data ← json body;
        result ← token_record_of data;
        mret (Some (CToken result),
              cache_result (token_sentiment_key token_id) (CToken result)
                1800 (now_store w) c)
      else mret (None, c)
  end.

Definition token_sentiment_fetch (token_id : string)
    (w : world coin_detail) (c : gmap string entry)
  : option cached * gmap string entry :=
  match token_sentiment_try token_id w c with
  | Ret r => r
  | Raise _ => (None, c)
  end.

Definition get_token_sentiment (token_id : string)
    (w : world coin_detail) (c : gmap string entry)
  : option cached * gmap string entry :=
  let '(cached_data, c1) :=
    get_cached_result (token_sentiment_key token_id) (now_lookup w) c in
  match cache_hit cached_data with
  | Some d => (Some d, c1)
  | None => token_sentiment_fetch token_id w c1
  end.

(** ** get_trading_signals *)

Record signal := { sg_type : string; sg_signal : string; sg_reason : string }.

Record signals_record := {
  ts_name : pyval;
  ts_symbol : string;
  ts_price : string;
  ts_signals : list signal
}.

(** Short-term signals (24h). *)
Definition short_term (change_24h : Q) (shown_24h : string) : list signal :=
  if Qltb 5 change_24h then
    [ {| sg_type := "short_term"; sg_signal := "strong_buy";
         sg_reason := ("Price up " ++ shown_24h ++ " in last 24 hours")%string |} ]
  else if Qltb 2 change_24h then
    [ {| sg_type := "short_term"; sg_signal := "buy";
         sg_reason := ("Price up " ++ shown_24h ++ " in last 24 hours")%string |} ]
  else if Qltb change_24h (-5) then
    [ {| sg_type := "short_term"; sg_signal := "strong_sell";
         sg_reason := ("Price down " ++ shown_24h ++ " in last 24 hours")%string |} ]
  else if Qltb change_24h (-2) then
    [ {| sg_type := "short_term"; sg_signal := "sell";
         sg_reason := ("Price down " ++ shown_24h ++ " in last 24 hours")%string |} ]
  else [].

(** Medium-term signals (7d vs 24h trend). *)
Definition medium_term (change_7d change_24h : Q) (shown_7d shown_24h : string)
  : list signal :=
  if Qltb 0 change_7d && Qltb change_24h 0 then
    [ {| sg_type := "medium_term"; sg_signal := "buy_dip";
         sg_reason := ("Positive 7-day trend (" ++ shown_7d
                       ++ ") with recent dip (" ++ shown_24h ++ ")")%string |} ]
  else if Qltb change_7d 0 && Qltb 0 change_24h then
    [ {| sg_type := "medium_term"; sg_signal := "sell_rally";
         sg_reason := ("Negative 7-day trend (" ++ shown_7d
                       ++ ") with recent rally (" ++ shown_24h ++ ")")%string |} ]
  else [].

(** Long-term signals (30d). *)
Definition long_term (change_30d : Q) (shown_30d : string) : list signal :=
  if Qltb 20 change_30d then
    [ {| sg_type := "long_term"; sg_signal := "take_profit";
         sg_reason := ("Price up " ++ shown_30d
                       ++ " in last 30 days, consider taking profits")%string |} ]
  else if Qltb change_30d (-20) then
    [ {| sg_type := "long_term"; sg_signal := "accumulate";
         sg_reason := ("Price down " ++ shown_30d
                       ++ " in last 30 days, potential accumulation zone")%string |} ]
  else [].

Definition neutral_signal : signal :=
  {| sg_type := "general"; sg_signal := "neutral";
     sg_reason := "No clear trading signals at this time" |}.

(** The [try] block: the three changes are read back from their formatted
    text. *)
Definition trading_signals_try (token_data : cached) : exc signals_record :=
  td ← as_token token_data;
  change_24h ← float_of_percentage (tk_change_24h td);
  change_7d ← float_of_percentage (tk_change_7d td);
  change_30d ← float_of_percentage (tk_change_30d td);
  let signals :=
    (short_term change_24h (tk_change_24h td)
     ++ medium_term change_7d change_24h (tk_change_7d td) (tk_change_24h td)
     ++ long_term change_30d (tk_change_30d td))%list in
  let signals :=
    match signals with
    | [] => [neutral_signal]
    | _ => signals
    end in
  mret {| ts_name := tk_name td;
          ts_symbol := tk_symbol td;
          ts_price := tk_price td;
          ts_signals := signals |}.

Definition get_trading_signals (token_id : string)
    (w : world coin_detail) (c : gmap string entry)
  : option signals_record * gmap string entry :=
  let '(token_data, c1) := get_token_sentiment token_id w c in
  match token_data with
  | None => (None, c1)
  | Some td =>
      if negb (cached_truthy td) then (None, c1)
      else match trading_signals_try td with
           | Ret r => (Some r, c1)
           | Raise _ => (None, c1)
           end
  end.

(** ** get_yield_entry_recommendation *)

Record recommendation := {
  rec_name : pyval;
  rec_symbol : string;
  rec_price : string;
  enter_now : bool;
  confidence : string;
  reasoning : list string
}.

(** [name in signal_types]. *)
Definition has_signal (name : string) (signals : list signal) : bool :=
  existsb (fun s => String.eqb name (sg_signal s)) signals.

Definition is_in (x : string) (l : list string) : bool :=
  existsb (String.eqb x) l.

(** The four rules, each rewriting the recommendation built so far. *)
Definition buy_rule (signals : list signal) (r : recommendation) : recommendation :=
  if has_signal "strong_buy" signals || has_signal "buy" signals
     || has_signal "buy_dip" signals
  then {| rec_name := rec_name r; rec_symbol := rec_symbol r;
          rec_price := rec_price r; enter_now := true; confidence := "medium";
          reasoning := reasoning r
                       ++ ["Positive short or medium-term signals detected"] |}
  else r.

Definition accumulate_rule (signals : list signal) (r : recommendation)
  : recommendation :=
  if has_signal "accumulate" signals
  then {| rec_name := rec_name r; rec_symbol := rec_symbol r;
          rec_price := rec_price r; enter_now := true; confidence := "high";
          reasoning := reasoning r
                       ++ ["Token is in accumulation zone, good for yield positions"] |}
  else r.

Definition sentiment_rule (sentiment : string) (r : recommendation)
  : recommendation :=
  if is_in sentiment ["bullish"; "very bullish"] then
    {| rec_name := rec_name r; rec_symbol := rec_symbol r;
       rec_price := rec_price r; enter_now := enter_now r;
       confidence := if enter_now r then "high" else confidence r;
       reasoning := reasoning r
                    ++ [("Overall sentiment is " ++ sentiment)%string] |}
  else if is_in sentiment ["bearish"; "very bearish"] then
    {| rec_name := rec_name r; rec_symbol := rec_symbol r;
       rec_price := rec_price r; enter_now := false; confidence := "high";
       reasoning := reasoning r
                    ++ [("Overall sentiment is " ++ sentiment
                         ++ ", consider waiting")%string] |}
  else r.

Definition default_rule (r : recommendation) : recommendation :=
  match reasoning r with
  | [] => {| rec_name := rec_name r; rec_symbol := rec_symbol r;
             rec_price := rec_price r; enter_now := enter_now r;
             confidence := confidence r;
             reasoning := ["No strong signals in either direction"] |}
  | _ => r
  end.

Definition entry_recommendation_try (token_data : cached)
    (trading_signals : signals_record) : exc recommendation :=
  let signals := ts_signals trading_signals in
  td ← as_token token_data;
  let r0 := {| rec_name := tk_name td; rec_symbol := tk_symbol td;
               rec_price := tk_price td; enter_now := false;
               confidence := "low"; reasoning := [] |} in
  mret (default_rule
          (sentiment_rule (tk_sentiment td)
             (accumulate_rule signals (buy_rule signals r0)))).

(** The sentiment is fetched once directly and once more inside
    [get_trading_signals]; each fetch has its own view of the upstream. *)
Definition get_yield_entry_recommendation (token_id : string)
    (w1 w2 : world coin_detail) (c : gmap string entry)
  : option recommendation * gmap string entry :=
  let '(token_data, c1) := get_token_sentiment token_id w1 c in
  let '(trading_signals, c2) := get_trading_signals token_id w2 c1 in
  match token_data, trading_signals with
  | Some td, Some ts =>
      if negb (cached_truthy td) then (None, c2)
      else match entry_recommendation_try td ts with
           | Ret r => (Some r, c2)
           | Raise _ => (None, c2)
           end
  | _, _ => (None, c2)
  end.

End TradingService.
Import TradingService.

(* ================================================================== *)
(** * The specification's own formulas *)
(* ================================================================== *)

Module Spec.

(** [clamp(lo, hi, x)]. *)
Definition clamp (lo hi x : Q) : Q := Qmin hi (Qmax lo x).

(** Section 4.2: the score from its three components. *)
Definition risk_formula (volatility liquidity protocol_age : Q) : Q :=
  let vol_component := Qmin 10 (volatility * 10) in
  let liquidity_component := Qmax 0 (10 - liquidity / 1000000) in
  let age_component := Qmax 0 (10 - protocol_age / 30) in
  clamp 0 10 ((1 # 2) * vol_component + (3 # 10) * liquidity_component
              + (1 # 5) * age_component)%Q.

(** [x] may stand before [y] in a list sorted by descending key:
    [key x < key y] is false. *)
Definition not_below {A} (key : A -> pyval) (x y : A) : Prop :=
  py_lt (key x) (key y) = Ret false.

(** Sorted by descending key. *)
Definition descending {A} (key : A -> pyval) (l : list A) : Prop :=
  StronglySorted (not_below key) l.

(** The pools of the upstream listing a call sees, none when the answer
    carries no listing. *)
Definition listed_in (up : response listing) : list pool :=
  match up with
  | Http _ (Some data) => pools_of data
  | _ => []
  end.

Definition listed (w : world listing) : list pool := listed_in (upstream w).

(** What the filter loop of the recommendations guarantees of a pool it
    kept: it is a listed pool with its risk score attached, within both
    thresholds. *)
Definition recommended (params : Z * Q) (pools : list pool) (p : pool) : Prop :=
  (exists p0 rs, In p0 pools /\ p = set_risk_score p0 rs)
  /\ (exists tvl, num_of (tvl_of p) = Some tvl /\ (inject_Z (fst params) <= tvl)%Q)
  /\ (exists vol, num_of (volatility_of p) = Some vol /\ (vol <= snd params)%Q).

(** The value a reader gets back from a number shown with two decimals:
    the number rounded to hundredths. *)
Definition shown_value (q : Q) : Q :=
  let m := round_half_even (Qabs q * inject_Z (pow10 2)) in
  let v := (inject_Z (m / 100) + (m mod 100 # 100))%Q in
  if Qltb q 0 then (- v)%Q else v.

Definition is_digit (c : ascii) : bool :=
  match c with
  | "0" | "1" | "2" | "3" | "4" | "5" | "6" | "7" | "8" | "9" => true
  | _ => false
  end%char.

Fixpoint digits_only (s : string) : bool :=
  match s with
  | EmptyString => true
  | String c r => is_digit c && digits_only r
  end.

(** [shows text q]: [text] is a number formatted as a percentage, and [q]
    is what it reads back as, the number rounded to hundredths. *)
Definition shows (text : string) (q : Q) : Prop :=
  exists v x, num_of v = Some x /\ text = format_percentage v
              /\ q = shown_value x.

(** The three changes of a token record are formatted numbers. *)
Definition well_shown (td : token_record) : Prop :=
  (exists q, shows (tk_change_24h td) q)
  /\ (exists q, shows (tk_change_7d td) q)
  /\ (exists q, shows (tk_change_30d td) q).

(** Every token record in the cache is one the service could have built. *)
Definition cache_ok (c : gmap string entry) : Prop :=
  forall key e td, c !! key = Some e -> data e = CToken td -> well_shown td.

(** Section 4.4: the rules of [trading_signals], group by group, in the
    order they are evaluated. *)
Definition short_term_rule (c24 : Q) : list string :=
  if Qlt_le_dec 5 c24 then ["strong_buy"]
  else if Qlt_le_dec 2 c24 then ["buy"]
  else if Qlt_le_dec c24 (-5) then ["strong_sell"]
  else if Qlt_le_dec c24 (-2) then ["sell"]
  else [].

Definition divergence_rule (c7 c24 : Q) : list string :=
  if Qlt_le_dec 0 c7 then
    if Qlt_le_dec c24 0 then ["buy_dip"] else []
  else if Qlt_le_dec c7 0 then
    if Qlt_le_dec 0 c24 then ["sell_rally"] else []
  else [].

Definition extremum_rule (c30 : Q) : list string :=
  if Qlt_le_dec 20 c30 then ["take_profit"]
  else if Qlt_le_dec c30 (-20) then ["accumulate"]
  else [].

Definition fired_rules (c24 c7 c30 : Q) : list string :=
  short_term_rule c24 ++ divergence_rule c7 c24 ++ extremum_rule c30.

Definition expected_signals (c24 c7 c30 : Q) : list string :=
  match fired_rules c24 c7 c30 with
  | [] => ["neutral"]
  | fired => fired
  end.

(** An upstream fetch failure: no answer, a status other than 200, or a
    body that is not JSON. *)
Definition fetch_failed {B} (up : response B) : Prop :=
  match up with
  | TransportError => True
  | Http status body => status <> 200 \/ body = None
  end.

(** A pool passes the filter of [get_top_yields]: its TVL is a number not
    below [min_tvl] and, when a chain is given, its chain is that chain. *)
Definition passes_top (min_tvl : Z) (chain : option string) (p : pool) : Prop :=
  (exists tvl, num_of (tvl_of p) = Some tvl /\ (inject_Z min_tvl <= tvl)%Q)
  /\ (forall s, chain = Some s -> s <> "" -> pool_chain p = Some (PStr s)).

(** The highest risk score a pool can get that passes the filter selected
    by a risk tolerance: 1.5 for low, 7.97 for high, 5.7 for medium and
    for every other word. *)
Definition risk_cap (key : string) : Q :=
  if String.eqb key "low" then 3 # 2
  else if String.eqb key "high" then 797 # 100
  else 57 # 10.

(** The arithmetic mean of a list of numbers, 0 for the empty list. *)
Definition sum_of (qs : list Q) : Q := fold_right Qplus 0%Q qs.

Definition mean_of (qs : list Q) : Q :=
  match qs with
  | [] => 0%Q
  | _ => (sum_of qs / inject_Z (Z.of_nat (length qs)))%Q
  end.

(** The label the five-way test gives a score [q] under the thresholds
    [strong] and [mild], case by case. *)
Definition labelled (q : Q) (strong mild : Z) (label : string) : Prop :=
  ((inject_Z strong < q)%Q -> label = "very bullish")
  /\ ((inject_Z mild < q <= inject_Z strong)%Q -> label = "bullish")
  /\ ((q <= inject_Z strong)%Q -> (q <= inject_Z mild)%Q ->
      (q < - inject_Z strong)%Q -> label = "very bearish")
  /\ ((q <= inject_Z strong)%Q -> (q <= inject_Z mild)%Q ->
      (- inject_Z strong <= q < - inject_Z mild)%Q -> label = "bearish")
  /\ ((q <= inject_Z strong)%Q -> (q <= inject_Z mild)%Q ->
      (- inject_Z strong <= q)%Q -> (- inject_Z mild <= q)%Q ->
      label = "neutral").

(** The sentiment score of a token: the three changes weighted 0.5, 0.3
    and 0.2, plus 1 for a large community. *)
Definition token_score (c24 c7 c30 reddit twitter : Q) : Q :=
  (c24 * (1 # 2) + c7 * (3 # 10) + c30 * (1 # 5)
   + (if Qltb 100000 reddit || Qltb 500000 twitter then 1 else 0))%Q.

(** Every whitespace character of [text] is a space that does not follow
    another whitespace character; [after_space] tells that the character
    before [text] is one. *)
Fixpoint spaced (text : string) (after_space : bool) : bool :=
  match text with
  | EmptyString => true
  | String a rest =>
      if is_space a then
        Ascii.eqb a " " && negb after_space && spaced rest true
      else spaced rest false
  end.

Fixpoint ends_in_space (text : string) : bool :=
  match text with
  | EmptyString => false
  | String a EmptyString => is_space a
  | String _ rest => ends_in_space rest
  end.

(** A text is tidy when its only whitespace is single spaces between two
    other characters. *)
Definition tidy (text : string) : bool :=
  spaced text true && negb (ends_in_space text).

(** The characters of a text that are not whitespace, in order. *)
Definition letters (text : string) : list ascii :=
  List.filter (fun a => negb (is_space a)) (list_ascii_of_string text).

(** Two caches agree on every key but [key]. *)
Definition same_elsewhere (key : string) (c c' : gmap string entry) : Prop :=
  forall key', key' <> key -> c' !! key' = c !! key'.

(** The call finds no live, truthy entry under [key]: it has to fetch. *)
Definition cache_miss {B} (key : string) (w : world B) (c : gmap string entry)
  : Prop :=
  cache_hit (fst (get_cached_result key (now_lookup w) c)) = None.

End Spec.
Import Spec.

(* ================================================================== *)
(** * Sample inputs *)
(* ================================================================== *)

Module Samples.

Definition aave : pool :=
  {| pool_name := Some (PStr "AAVE-USDC");
     pool_project := Some (PStr "aave");
     pool_chain := Some (PStr "Ethereum");
     pool_apy := Some (PFloat (17 # 2));
     pool_tvlUsd := Some (PInt 5000000);
     pool_volatility := None;
     pool_risk_score := None |}.

Definition compound : pool :=
  {| pool_name := Some (PStr "COMP-DAI");
     pool_project := Some (PStr "Compound");
     pool_chain := Some (PStr "Ethereum");
     pool_apy := Some (PInt 4);
     pool_tvlUsd := Some (PFloat (25000000 # 1));
     pool_volatility := Some (PFloat (2 # 10));
     pool_risk_score := None |}.

Definition two_pools : listing := {| listing_data := Some [compound; aave] |}.

Definition whale : pool :=
  {| pool_name := Some (PStr "stETH");
     pool_project := Some (PStr "lido");
     pool_chain := Some (PStr "Ethereum");
     pool_apy := Some (PFloat (31 # 10));
     pool_tvlUsd := Some (PInt 250000000);
     pool_volatility := None;
     pool_risk_score := None |}.

Definition three_pools : listing :=
  {| listing_data := Some [compound; whale; aave] |}.

(** A call at time 1000 whose upstream answers 200 with [body]. *)
Definition answering {B} (body : B) : world B :=
  {| now_lookup := 1000; upstream := Http 200 (Some body); now_store := 1001 |}.

(** A call at time 1000 whose upstream answers 503. *)
Definition failing {B} : world B :=
  {| now_lookup := 1000; upstream := Http 503 None; now_store := 1001 |}.

(** A token whose 24h/7d/30d changes are (-6, 3, 25). *)
Definition dipping_token : coin_detail :=
  {| cd_name := Some (PStr "Ethereum");
     cd_symbol := Some (PStr "eth");
     cd_market_data :=
       Some {| md_change_24h := Some (PInt (-6));
               md_change_7d := Some (PInt 3);
               md_change_30d := Some (PFloat 25);
               md_current_price_usd := Some (PFloat (24005 # 10));
               md_market_cap_usd := Some (PInt 290000000000);
               md_total_volume_usd := None |};
     cd_community_data :=
       Some {| reddit_subscribers := Some (PInt 50000);
               twitter_followers := Some (PInt 400000) |} |}.

(** A token with a bearish score (3*0.5 - 40*0.2 = -6.5) whose changes
    also raise the buy and the accumulate signals. *)
Definition sliding_token : coin_detail :=
  {| cd_name := Some (PStr "Uniswap");
     cd_symbol := Some (PStr "uni");
     cd_market_data :=
       Some {| md_change_24h := Some (PInt 3);
               md_change_7d := Some (PInt 0);
               md_change_30d := Some (PInt (-40));
               md_current_price_usd := Some (PFloat (61 # 10));
               md_market_cap_usd := None;
               md_total_volume_usd := None |};
     cd_community_data := None |}.

(** A listing whose only pool has a null APY. *)
Definition null_apy_pools : listing :=
  {| listing_data :=
       Some [ {| pool_name := Some (PStr "AAVE-USDC");
                 pool_project := Some (PStr "aave");
                 pool_chain := Some (PStr "Ethereum");
                 pool_apy := Some PNone;
                 pool_tvlUsd := Some (PInt 5000000);
                 pool_volatility := None;
                 pool_risk_score := None |} ] |}.

(** Four coins of a market listing, changes 1.5, -3, 7.25 and -0.5. *)
Definition four_coins : list coin :=
  [ {| coin_name := Some (PStr "Bitcoin"); coin_symbol := Some (PStr "btc");
       coin_change_24h := Some (PFloat (3 # 2)) |};
    {| coin_name := Some (PStr "Ethereum"); coin_symbol := Some (PStr "eth");
       coin_change_24h := Some (PInt (-3)) |};
    {| coin_name := Some (PStr "Solana"); coin_symbol := Some (PStr "sol");
       coin_change_24h := Some (PFloat (29 # 4)) |};
    {| coin_name := Some (PStr "Dogecoin"); coin_symbol := None;
       coin_change_24h := Some (PFloat (-1 # 2)) |} ].

Definition btc_price : cached :=
  CPrice {| pr_price := "$64,000.00"; pr_change_24h := "1.25%" |}.

End Samples.
Import Samples.

(* THEOREMS *)

(* ================================================================== *)
(** * Arithmetic of Python numbers *)
(* ================================================================== *)

Section PyNumbers.

Lemma Qltb_lt (x y : Q) : Qltb x y = true <-> (x < y)%Q.
Proof. unfold Qltb, Qlt. apply Z.ltb_lt. Qed.

Lemma Qltb_ge (x y : Q) : Qltb x y = false <-> (y <= x)%Q.
Proof. unfold Qltb, Qle. rewrite Z.ltb_ge. reflexivity. Qed.

#[global] Instance Qltb_proper : Proper (Qeq ==> Qeq ==> eq) Qltb.
Proof.
  intros x x' Hx y y' Hy.
  destruct (Qltb x y) eqn:E; symmetry.
  - apply Qltb_lt. rewrite <- Hx, <- Hy. now apply Qltb_lt.
  - apply Qltb_ge. rewrite <- Hx, <- Hy. now apply Qltb_ge.
Qed.

Lemma numval_eq r q q' : numval r q -> (q == q')%Q -> numval r q'.
Proof. intros (z & H & E) E'. exists z. split; [easy|]. now rewrite E. Qed.

Lemma numval_self r z : num_of r = Some z -> numval r z.
Proof. intros H. exists z. split; [easy|reflexivity]. Qed.

Lemma numval_float q : numval (PFloat q) q.
Proof. now apply numval_self. Qed.

Lemma numval_int z : numval (PInt z) (inject_Z z).
Proof. now apply numval_self. Qed.

Lemma int_of_num a x : int_of a = Some x -> num_of a = Some (inject_Z x).
Proof. destruct a as [| [] | | |]; simpl; intros [= <-]; reflexivity. Qed.

Lemma num_of_not_str a z : num_of a = Some z ->
  match a with PStr _ | PNone => False | _ => True end.
Proof. destruct a; simpl; intros; try discriminate; exact I. Qed.

Lemma py_mul_num a b x y :
  numval a x -> numval b y -> exists r, py_mul a b = Ret r /\ numval r (x * y).
Proof.
  intros (xa & Ha & Ea) (yb & Hb & Eb).
  destruct a as [| [] | za | qa | sa]; simpl in Ha; try discriminate;
  destruct b as [| [] | zb | qb | sb]; simpl in Hb; try discriminate;
  injection Ha as <-; injection Hb as <-; simpl;
  eexists; (split; [reflexivity|]);
  eexists; (split; [reflexivity|]);
  rewrite <- Ea, <- Eb; rewrite ?inject_Z_mult; simpl; try reflexivity;
  unfold Qeq; simpl; lia.
Qed.

Lemma py_add_num a b x y :
  numval a x -> numval b y -> exists r, py_add a b = Ret r /\ numval r (x + y).
Proof.
  intros (xa & Ha & Ea) (yb & Hb & Eb).
  destruct a as [| [] | za | qa | sa]; simpl in Ha; try discriminate;
  destruct b as [| [] | zb | qb | sb]; simpl in Hb; try discriminate;
  injection Ha as <-; injection Hb as <-; simpl;
  eexists; (split; [reflexivity|]);
  eexists; (split; [reflexivity|]);
  rewrite <- Ea, <- Eb; rewrite ?inject_Z_plus; simpl; try reflexivity;
  unfold Qeq; simpl; lia.
Qed.

Lemma py_sub_num a b x y :
  numval a x -> numval b y -> exists r, py_sub a b = Ret r /\ numval r (x - y).
Proof.
  intros (xa & Ha & Ea) (yb & Hb & Eb).
  destruct a as [| [] | za | qa | sa]; simpl in Ha; try discriminate;
  destruct b as [| [] | zb | qb | sb]; simpl in Hb; try discriminate;
  injection Ha as <-; injection Hb as <-; simpl;
  eexists; (split; [reflexivity|]);
  eexists; (split; [reflexivity|]);
  rewrite <- Ea, <- Eb; try reflexivity;
  unfold Qeq; simpl; lia.
Qed.

Lemma py_truediv_num a b x y :
  numval a x -> numval b y -> ~ (y == 0)%Q ->
  exists r, py_truediv a b = Ret r /\ numval r (x / y).
Proof.
  intros (xa & Ha & Ea) (yb & Hb & Eb) Hy.
  unfold py_truediv. rewrite Ha, Hb.
  destruct (Qeq_bool yb 0) eqn:E.
  - apply Qeq_bool_eq in E. rewrite Eb in E. contradiction.
  - eexists. split; [reflexivity|]. exists (xa / yb)%Q. split; [reflexivity|].
    now rewrite Ea, Eb.
Qed.

Lemma py_lt_num a b x y :
  numval a x -> numval b y -> py_lt a b = Ret (Qltb x y).
Proof.
  intros (xa & Ha & Ea) (yb & Hb & Eb).
  unfold py_lt. rewrite Ha, Hb.
  pose proof (num_of_not_str _ _ Ha). pose proof (num_of_not_str _ _ Hb).
  destruct a; try contradiction; destruct b; try contradiction;
  now rewrite Ea, Eb.
Qed.

Lemma py_min_num a b x y :
  numval a x -> numval b y -> exists r, py_min a b = Ret r /\ numval r (Qmin x y).
Proof.
  intros Ha Hb. unfold py_min. rewrite (py_lt_num b a y x Hb Ha). simpl.
  eexists. split; [reflexivity|].
  destruct (Qltb y x) eqn:E.
  - apply Qltb_lt in E. eapply numval_eq; [exact Hb|].
    symmetry. apply Q.min_r. now apply Qlt_le_weak.
  - apply Qltb_ge in E. eapply numval_eq; [exact Ha|].
    symmetry. now apply Q.min_l.
Qed.

Lemma py_max_num a b x y :
  numval a x -> numval b y -> exists r, py_max a b = Ret r /\ numval r (Qmax x y).
Proof.
  intros Ha Hb. unfold py_max, py_gt. rewrite (py_lt_num a b x y Ha Hb). simpl.
  eexists. split; [reflexivity|].
  destruct (Qltb x y) eqn:E.
  - apply Qltb_lt in E. eapply numval_eq; [exact Hb|].
    symmetry. apply Q.max_r. now apply Qlt_le_weak.
  - apply Qltb_ge in E. eapply numval_eq; [exact Ha|].
    symmetry. now apply Q.max_l.
Qed.

End PyNumbers.

(* ================================================================== *)
(** * The risk score *)
(* ================================================================== *)

Ltac exc_step H :=
  let E := fresh "E" in
  destruct H as (?r & E & ?N); rewrite E; clear E; cbn [mbind exc_bind].

Lemma risk_score_body_num volatility liquidity protocol_age v l a :
  numval volatility v -> numval liquidity l -> numval protocol_age a ->
  exists r, risk_score_body volatility liquidity protocol_age = Ret r
            /\ numval r (risk_formula v l a).
Proof.
  intros Hv Hl Ha. unfold risk_score_body.
  exc_step (py_mul_num _ _ _ _ Hv (numval_int 10)).
  exc_step (py_min_num _ _ _ _ (numval_int 10) N).
  assert (Hl' := py_truediv_num _ _ _ _ Hl (numval_int 1000000)).
  exc_step (Hl' ltac:(discriminate)).
  exc_step (py_sub_num _ _ _ _ (numval_int 10) N1).
  exc_step (py_max_num _ _ _ _ (numval_int 0) N2).
  assert (Ha' := py_truediv_num _ _ _ _ Ha (numval_int 30)).
  exc_step (Ha' ltac:(discriminate)).
  exc_step (py_sub_num _ _ _ _ (numval_int 10) N4).
  exc_step (py_max_num _ _ _ _ (numval_int 0) N5).
  exc_step (py_mul_num _ _ _ _ N0 (numval_float (1 # 2))).
  exc_step (py_mul_num _ _ _ _ N3 (numval_float (3 # 10))).
  exc_step (py_add_num _ _ _ _ N7 N8).
  exc_step (py_mul_num _ _ _ _ N6 (numval_float (1 # 5))).
  exc_step (py_add_num _ _ _ _ N9 N10).
  exc_step (py_max_num _ _ _ _ (numval_int 0) N11).
  destruct (py_min_num _ _ _ _ (numval_int 10) N12) as (res & E & N13).
  exists res. split; [exact E|].
  eapply numval_eq; [exact N13|].
  unfold risk_formula, clamp.
  apply Q.min_compat; [reflexivity|].
  apply Q.max_compat; [reflexivity|].
  change (inject_Z 10) with 10%Q. change (inject_Z 0) with 0%Q.
  change (inject_Z 1000000) with 1000000%Q. change (inject_Z 30) with 30%Q.
  ring.
Qed.

Lemma clamp_range lo hi x : (lo <= hi)%Q -> (lo <= clamp lo hi x <= hi)%Q.
Proof.
  intros H. unfold clamp. split.
  - apply Q.min_glb; [exact H|apply Q.le_max_l].
  - apply Q.le_min_l.
Qed.

Lemma num_of_none_mul10_min volatility :
  num_of volatility = None ->
  (v10 ← py_mul volatility (PInt 10); py_min (PInt 10) v10) = Raise TypeError.
Proof. destruct volatility; simpl; intros; try discriminate; reflexivity. Qed.

Lemma py_truediv_non_num a b : num_of a = None -> py_truediv a b = Raise TypeError.
Proof. intros H. unfold py_truediv. now rewrite H. Qed.


(* ================================================================== *)
(** * The cache *)
(* ================================================================== *)

Lemma get_cached_live key now c e :
  c !! key = Some e -> (now < expires e)%Q ->
  get_cached_result key now c = (Some (data e), c).
Proof.
  intros H Hlt. unfold get_cached_result. rewrite H.
  apply Qltb_lt in Hlt. now rewrite Hlt.
Qed.

Lemma get_cached_expired key now c e :
  c !! key = Some e -> (expires e <= now)%Q ->
  get_cached_result key now c = (None, delete key c).
Proof.
  intros H Hle. unfold get_cached_result. rewrite H.
  apply Qltb_ge in Hle. now rewrite Hle.
Qed.

Lemma get_cached_absent key now c :
  c !! key = None -> get_cached_result key now c = (None, c).
Proof. intros H. unfold get_cached_result. now rewrite H. Qed.

Lemma cache_result_lookup key v ttl now c :
  cache_result key v ttl now c !! key
  = Some {| data := v; expires := (now + ttl)%Q |}.
Proof. unfold cache_result. apply lookup_insert_eq. Qed.

Lemma cache_result_lookup_ne key key' v ttl now c :
  key <> key' -> cache_result key v ttl now c !! key' = c !! key'.
Proof. intros H. unfold cache_result. now apply lookup_insert_ne. Qed.

(** C7. A value put under a key is what [get] returns as long as fewer
    than [ttl] seconds have passed since the put; from then on [get]
    returns nothing and drops the entry, and a later put on the key
    stores a new entry. *)
Theorem cache_put_get_expire
    (key : string) (v : cached) (ttl t_put t_early t_late : Q)
    (v' : cached) (ttl' t_put' : Q) (c : gmap string entry) :
  (t_early - t_put < ttl)%Q ->
  (ttl <= t_late - t_put)%Q ->
  get_cached_result key t_early (cache_result key v ttl t_put c)
    = (Some v, cache_result key v ttl t_put c)
  /\ fst (get_cached_result key t_late (cache_result key v ttl t_put c)) = None
  /\ snd (get_cached_result key t_late (cache_result key v ttl t_put c)) !! key
     = None
  /\ cache_result key v' ttl' t_put'
       (snd (get_cached_result key t_late (cache_result key v ttl t_put c)))
     !! key
     = Some {| data := v'; expires := (t_put' + ttl')%Q |}.
Proof.
  intros Hearly Hlate.
  pose proof (cache_result_lookup key v ttl t_put c) as L.
  split; [|split; [|split]].
  - rewrite (get_cached_live _ _ _ _ L); [reflexivity|]. simpl. lra.
  - rewrite (get_cached_expired _ _ _ _ L); [reflexivity|]. simpl. lra.
  - rewrite (get_cached_expired _ _ _ _ L); [|simpl; lra].
    simpl. apply lookup_delete_eq.
  - apply cache_result_lookup.
Qed.

Lemma cache_put_get_expire_witness :
  (1000 - 1000 < 1)%Q /\ (1 <= 1001 - 1000)%Q
  /\ get_cached_result "token_price_bitcoin" 1000
       (cache_result "token_price_bitcoin" btc_price 1 1000 ∅)
     = (Some btc_price, cache_result "token_price_bitcoin" btc_price 1 1000 ∅)
  /\ fst (get_cached_result "token_price_bitcoin" 1001
            (cache_result "token_price_bitcoin" btc_price 1 1000 ∅)) = None.
Proof.
  assert (H1 : (1000 - 1000 < 1)%Q) by reflexivity.
  assert (H2 : (1 <= 1001 - 1000)%Q) by discriminate.
  split; [exact H1|]. split; [exact H2|].
  pose proof (cache_put_get_expire "token_price_bitcoin" btc_price 1 1000 1000
                1001 btc_price 1 1001 ∅ H1 H2) as (A & B & _).
  split; [exact A|exact B].
Defined.

(* ================================================================== *)
(** * The hit test of the services *)
(* ================================================================== *)

Lemma cache_hit_falsy key now c e :
  c !! key = Some e -> (now < expires e)%Q -> cached_truthy (data e) = false ->
  get_cached_result key now c = (Some (data e), c)
  /\ cache_hit (Some (data e)) = None.
Proof.
  intros H Hlt Hf. split.
  - now apply get_cached_live.
  - unfold cache_hit. now rewrite Hf.
Qed.

Ltac falsy_miss H Hlt Hf :=
  destruct (cache_hit_falsy _ _ _ _ H Hlt Hf) as [-> ->]; reflexivity.

(** C10. A list operation whose fetch succeeds with no pool left stores
    the empty list under its key; and every operation that consults the
    cache takes a live entry holding a falsy value for a miss: it runs
    its fetch as if the entry were not there. *)
Theorem cached_falsy_value_is_a_miss (CACHE_TIMEOUT : Q) :
  (* the empty list is stored *)
  (forall limit min_tvl chain (w : world listing) c data,
      upstream w = Http 200 (Some data) ->
      top_pools limit min_tvl chain (pools_of data) = Ret [] ->
      top_yields_fetch CACHE_TIMEOUT limit min_tvl chain w c
      = (CYields [],
         cache_result (top_yields_key limit min_tvl chain) (CYields [])
           CACHE_TIMEOUT (now_store w) c))
  /\ (forall name limit (w : world listing) c data,
      upstream w = Http 200 (Some data) ->
      protocol_pools name limit (pools_of data) = Ret [] ->
      yield_by_protocol_fetch CACHE_TIMEOUT name limit w c
      = (CYields [],
         cache_result (protocol_key name limit) (CYields [])
           CACHE_TIMEOUT (now_store w) c))
  /\ (forall name limit (w : world listing) c data,
      upstream w = Http 200 (Some data) ->
      chain_pools name limit (pools_of data) = Ret [] ->
      yield_by_chain_fetch CACHE_TIMEOUT name limit w c
      = (CYields [],
         cache_result (chain_key name limit) (CYields [])
           CACHE_TIMEOUT (now_store w) c))
  (* and is not served back *)
  /\ (forall limit min_tvl chain (w : world listing) c e,
      c !! top_yields_key limit min_tvl chain = Some e ->
      (now_lookup w < expires e)%Q -> cached_truthy (data e) = false ->
      get_top_yields CACHE_TIMEOUT limit min_tvl chain w c
      = top_yields_fetch CACHE_TIMEOUT limit min_tvl chain w c)
  /\ (forall name limit (w : world listing) c e,
      c !! protocol_key name limit = Some e ->
      (now_lookup w < expires e)%Q -> cached_truthy (data e) = false ->
      get_yield_by_protocol CACHE_TIMEOUT name limit w c
      = yield_by_protocol_fetch CACHE_TIMEOUT name limit w c)
  /\ (forall name limit (w : world listing) c e,
      c !! chain_key name limit = Some e ->
      (now_lookup w < expires e)%Q -> cached_truthy (data e) = false ->
      get_yield_by_chain CACHE_TIMEOUT name limit w c
      = yield_by_chain_fetch CACHE_TIMEOUT name limit w c)
  /\ (forall token_id (w : world (option simple_price)) c e,
      c !! token_price_key token_id = Some e ->
      (now_lookup w < expires e)%Q -> cached_truthy (data e) = false ->
      get_token_price token_id w c = token_price_fetch token_id w c)
  /\ (forall (w : world (list coin)) c e,
      c !! market_key = Some e ->
      (now_lookup w < expires e)%Q -> cached_truthy (data e) = false ->
      get_market_sentiment w c = market_sentiment_fetch w c)
  /\ (forall token_id (w : world coin_detail) c e,
      c !! token_sentiment_key token_id = Some e ->
      (now_lookup w < expires e)%Q -> cached_truthy (data e) = false ->
      get_token_sentiment token_id w c = token_sentiment_fetch token_id w c).
Proof.
  repeat split.
  - intros * Hup Hp. unfold top_yields_fetch, top_yields_try.
    rewrite Hup. simpl. now rewrite Hp.
  - intros * Hup Hp. unfold yield_by_protocol_fetch, yield_by_protocol_try.
    rewrite Hup. simpl. now rewrite Hp.
  - intros * Hup Hp. unfold yield_by_chain_fetch, yield_by_chain_try.
    rewrite Hup. simpl. now rewrite Hp.
  - intros * H Hlt Hf. unfold get_top_yields. falsy_miss H Hlt Hf.
  - intros * H Hlt Hf. unfold get_yield_by_protocol. falsy_miss H Hlt Hf.
  - intros * H Hlt Hf. unfold get_yield_by_chain. falsy_miss H Hlt Hf.
  - intros * H Hlt Hf. unfold get_token_price. falsy_miss H Hlt Hf.
  - intros * H Hlt Hf. unfold get_market_sentiment. falsy_miss H Hlt Hf.
  - intros * H Hlt Hf. unfold get_token_sentiment. falsy_miss H Hlt Hf.
Qed.

(** Two calls in a row: the first finds no pool above the TVL bar and
    stores the empty list; the second, while that entry is still live,
    asks the upstream again and returns what it lists now. *)
Lemma empty_answer_is_refetched :
  let first := get_top_yields 300 5 100000000 None (answering two_pools) ∅ in
  fst first = CYields []
  /\ fst (get_cached_result (top_yields_key 5 100000000 None) 1000 (snd first))
     = Some (CYields [])
  /\ exists rs,
       fst (get_top_yields 300 5 100000000 None (answering three_pools)
              (snd first)) = CYields rs
       /\ map yr_name rs = [PStr "stETH"].
Proof.
  vm_compute. repeat split; try reflexivity.
  eexists. split; reflexivity.
Qed.

(* ================================================================== *)
(** * The order of Python values and [sorted] *)
(* ================================================================== *)

Section StringOrder.

Lemma ascii_compare_trans_lt a b c :
  Ascii.compare a b = Lt -> Ascii.compare b c = Lt -> Ascii.compare a c = Lt.
Proof.
  unfold Ascii.compare. rewrite !N.compare_lt_iff. apply N.lt_trans.
Qed.

Lemma string_compare_refl s : String.compare s s = Eq.
Proof.
  induction s as [|a s IH]; simpl; [reflexivity|].
  unfold Ascii.compare. now rewrite N.compare_refl.
Qed.

Lemma string_compare_trans_lt s t u :
  String.compare s t = Lt -> String.compare t u = Lt -> String.compare s u = Lt.
Proof.
  revert t u. induction s as [|a s IH]; intros [|b t] [|c u]; simpl;
    try discriminate; try reflexivity.
  destruct (Ascii.compare a b) eqn:Eab; try discriminate;
  destruct (Ascii.compare b c) eqn:Ebc; try discriminate; intros H1 H2.
  - apply Ascii.compare_eq_iff in Eab, Ebc. subst.
    unfold Ascii.compare. rewrite N.compare_refl. eauto.
  - apply Ascii.compare_eq_iff in Eab. subst. now rewrite Ebc.
  - apply Ascii.compare_eq_iff in Ebc. subst. now rewrite Eab.
  - now rewrite (ascii_compare_trans_lt _ _ _ Eab Ebc).
Qed.

Lemma string_ltb_asym s t : String.ltb s t = true -> String.ltb t s = false.
Proof.
  unfold String.ltb. rewrite (String.compare_antisym t s).
  destruct (String.compare s t); simpl; congruence.
Qed.

(** "Not below" is transitive on strings. *)
Lemma string_not_ltb_trans s t u :
  String.ltb s t = false -> String.ltb t u = false -> String.ltb s u = false.
Proof.
  unfold String.ltb. intros H1 H2.
  destruct (String.compare s u) eqn:Esu; try reflexivity. exfalso.
  destruct (String.compare s t) eqn:Est; try discriminate;
  destruct (String.compare t u) eqn:Etu; try discriminate.
  - apply String.compare_eq_iff in Est, Etu. subst.
    rewrite string_compare_refl in Esu. discriminate.
  - apply String.compare_eq_iff in Est. subst. congruence.
  - apply String.compare_eq_iff in Etu. subst. congruence.
  - (* t < s, u < t, s < u *)
    rewrite String.compare_antisym in Est, Etu.
    destruct (String.compare t s) eqn:Ets; try discriminate.
    destruct (String.compare u t) eqn:Eut; try discriminate.
    pose proof (string_compare_trans_lt _ _ _ Eut Ets) as Hus.
    pose proof (string_compare_trans_lt _ _ _ Hus Esu) as Huu.
    rewrite string_compare_refl in Huu. discriminate.
Qed.

End StringOrder.

Section PyOrder.

(** Inversion of a comparison that did not raise. *)
Lemma py_lt_ret a b r :
  py_lt a b = Ret r ->
  (exists s t, a = PStr s /\ b = PStr t /\ r = String.ltb s t)
  \/ (exists x y, num_of a = Some x /\ num_of b = Some y /\ r = Qltb x y).
Proof.
  unfold py_lt.
  destruct a as [| ba | za | qa | sa]; destruct b as [| bb | zb | qb | sb];
    simpl; intros H; try discriminate; injection H as <-;
    try (right; eexists; eexists; repeat split; reflexivity).
  left. eexists; eexists; repeat split; reflexivity.
Qed.

Lemma py_lt_asym a b : py_lt a b = Ret true -> py_lt b a = Ret false.
Proof.
  intros H. destruct (py_lt_ret _ _ _ H) as [(s & t & -> & -> & E)|(x & y & Hx & Hy & E)].
  - simpl. f_equal. now apply string_ltb_asym.
  - rewrite (py_lt_num b a y x (numval_self _ _ Hy) (numval_self _ _ Hx)).
    f_equal. symmetry in E. apply Qltb_lt in E. apply Qltb_ge.
    now apply Qlt_le_weak.
Qed.

Lemma py_not_lt_trans a b c :
  py_lt a b = Ret false -> py_lt b c = Ret false -> py_lt a c = Ret false.
Proof.
  intros H1 H2.
  destruct (py_lt_ret _ _ _ H1) as [(s & t & -> & -> & E1)|(x & y & Hx & Hy & E1)];
  destruct (py_lt_ret _ _ _ H2) as [(t' & u & Et & -> & E2)|(y' & z & Hy' & Hz & E2)].
  - injection Et as <-. simpl. f_equal.
    now apply (string_not_ltb_trans s t u).
  - simpl in Hy'. discriminate.
  - subst b. simpl in Hy. discriminate.
  - rewrite Hy in Hy'. injection Hy' as <-.
    rewrite (py_lt_num a c x z (numval_self _ _ Hx) (numval_self _ _ Hz)).
    f_equal. apply Qltb_ge. symmetry in E1, E2.
    apply Qltb_ge in E1, E2. now apply Qle_trans with y.
Qed.

End PyOrder.

Section SortedFacts.
Context {A : Type} (key : A -> pyval).

Lemma insert_desc_perm x l r :
  insert_desc key x l = Ret r -> Permutation (x :: l) r.
Proof.
  revert r. induction l as [|y l IH]; simpl; intros r H.
  - injection H as <-. reflexivity.
  - destruct (py_lt (key x) (key y)) as [e|[]]; cbn [mbind exc_bind] in H;
      try discriminate.
    + destruct (insert_desc key x l) as [e|r']; cbn [mbind exc_bind] in H;
        try discriminate.
      injection H as <-. rewrite perm_swap. constructor. now apply IH.
    + injection H as <-. reflexivity.
Qed.

Lemma sorted_desc_perm l r : sorted_desc key l = Ret r -> Permutation l r.
Proof.
  revert r. induction l as [|x l IH]; simpl; intros r H.
  - injection H as <-. constructor.
  - destruct (sorted_desc key l) as [e|r']; cbn [mbind exc_bind] in H;
      try discriminate.
    etransitivity; [|eapply insert_desc_perm; exact H].
    constructor. now apply IH.
Qed.

Lemma insert_desc_sorted x l r :
  StronglySorted (not_below key) l -> insert_desc key x l = Ret r ->
  StronglySorted (not_below key) r.
Proof.
  revert r. induction l as [|y l IH]; simpl; intros r Hs H.
  - injection H as <-. repeat constructor.
  - apply StronglySorted_inv in Hs as [Hs Hy].
    destruct (py_lt (key x) (key y)) as [e|[]] eqn:E;
      cbn [mbind exc_bind] in H; try discriminate.
    + destruct (insert_desc key x l) as [e|r'] eqn:E';
        cbn [mbind exc_bind] in H; try discriminate.
      injection H as <-. constructor; [now apply IH|].
      apply (Permutation_Forall (insert_desc_perm _ _ _ E')).
      constructor; [|exact Hy]. now apply py_lt_asym.
    + injection H as <-. constructor; [now constructor|].
      constructor; [exact E|].
      eapply Forall_impl; [exact Hy|]. intros z Hz.
      unfold not_below in *. now apply py_not_lt_trans with (key y).
Qed.

Lemma sorted_desc_sorted l r :
  sorted_desc key l = Ret r -> StronglySorted (not_below key) r.
Proof.
  revert r. induction l as [|x l IH]; simpl; intros r H.
  - injection H as <-. constructor.
  - destruct (sorted_desc key l) as [e|r'] eqn:E; cbn [mbind exc_bind] in H;
      try discriminate.
    eapply insert_desc_sorted; [|exact H]. now apply IH.
Qed.

End SortedFacts.

Section Slices.
Context {A : Type}.

Lemma slice_to_firstn (n : Z) (l : list A) :
  exists k, slice_to n l = firstn k l.
Proof. unfold slice_to. destruct (0 <=? n); eexists; reflexivity. Qed.

Lemma slice_to_nil (n : Z) : slice_to n (@nil A) = [].
Proof. unfold slice_to. destruct (0 <=? n); apply List.firstn_nil. Qed.

Lemma slice_to_length (n : Z) (l : list A) :
  0 <= n -> Z.of_nat (length (slice_to n l)) <= n.
Proof.
  intros H. unfold slice_to. rewrite (proj2 (Z.leb_le 0 n) H).
  rewrite length_firstn. lia.
Qed.

Lemma slice_to_incl (n : Z) (l : list A) : incl (slice_to n l) l.
Proof.
  destruct (slice_to_firstn n l) as [k ->].
  intros x Hx. rewrite <- (firstn_skipn k l). apply in_or_app. now left.
Qed.

Lemma firstn_strongly_sorted (R : A -> A -> Prop) k (l : list A) :
  StronglySorted R l -> StronglySorted R (firstn k l).
Proof.
  revert k. induction l as [|x l IH]; intros [|k] Hs; simpl;
    try constructor.
  - apply IH. now apply StronglySorted_inv in Hs.
  - apply StronglySorted_inv in Hs as [_ Hx].
    rewrite List.Forall_forall in *. intros y Hy. apply Hx.
    rewrite <- (firstn_skipn k l). apply in_or_app. now left.
Qed.

Lemma slice_to_sorted (R : A -> A -> Prop) n (l : list A) :
  StronglySorted R l -> StronglySorted R (slice_to n l).
Proof.
  destruct (slice_to_firstn n l) as [k ->]. apply firstn_strongly_sorted.
Qed.

End Slices.

Section Loops.
Context {A B : Type}.

Lemma filter_exc_spec (keep : A -> exc bool) l r :
  filter_exc keep l = Ret r ->
  Forall (fun x => keep x = Ret true) r /\ incl r l.
Proof.
  revert r. induction l as [|x l IH]; simpl; intros r H.
  - injection H as <-. split; [constructor|easy].
  - destruct (keep x) as [e|k] eqn:E; cbn [mbind exc_bind] in H;
      try discriminate.
    destruct (filter_exc keep l) as [e|r'] eqn:E'; cbn [mbind exc_bind] in H;
      try discriminate.
    injection H as <-. destruct (IH _ eq_refl) as [IH1 IH2].
    destruct k.
    + split; [now constructor|]. intros y [->|Hy]; [now left|right; auto].
    + split; [exact IH1|]. intros y Hy. right. auto.
Qed.

Lemma map_exc_Forall2 (f : A -> exc B) l r :
  map_exc f l = Ret r -> Forall2 (fun x y => f x = Ret y) l r.
Proof.
  revert r. induction l as [|x l IH]; simpl; intros r H.
  - injection H as <-. constructor.
  - destruct (f x) as [e|y] eqn:E; cbn [mbind exc_bind] in H;
      try discriminate.
    destruct (map_exc f l) as [e|r'] eqn:E'; cbn [mbind exc_bind] in H;
      try discriminate.
    injection H as <-. constructor; auto.
Qed.

End Loops.

(* ================================================================== *)
(** * get_top_yields *)
(* ================================================================== *)

Lemma py_not_lt_int a m :
  py_lt a (PInt m) = Ret false ->
  exists x, num_of a = Some x /\ (inject_Z m <= x)%Q.
Proof.
  intros H.
  destruct (py_lt_ret _ _ _ H) as [(s & t & _ & [=] & _)|(x & y & Hx & Hy & E)].
  simpl in Hy. injection Hy as <-. exists x. split; [exact Hx|].
  symmetry in E. now apply Qltb_ge in E.
Qed.

Lemma py_eq_str a s : py_eq a (PStr s) = true -> a = PStr s.
Proof.
  destruct a as [| b | z | q | t]; simpl; try discriminate.
  intros H. apply String.eqb_eq in H. now subst.
Qed.

Lemma top_keep_true min_tvl chain p :
  top_keep min_tvl chain p = Ret true ->
  (exists tvl, num_of (tvl_of p) = Some tvl /\ (inject_Z min_tvl <= tvl)%Q)
  /\ (forall s, chain = Some s -> s <> "" -> pool_chain p = Some (PStr s)).
Proof.
  unfold top_keep. intros H.
  destruct (py_lt (tvl_of p) (PInt min_tvl)) as [e|[]] eqn:E;
    cbn [mbind exc_bind] in H; try discriminate.
  split; [now apply py_not_lt_int|].
  intros s -> Hs.
  assert (Hg : chain_given (Some s) = true).
  { simpl. apply negb_true_iff. now apply String.eqb_neq. }
  rewrite Hg in H. simpl in H.
  destruct (py_eq (get_or (pool_chain p) PNone) (PStr s)) eqn:Eq;
    simpl in H; try discriminate.
  apply py_eq_str in Eq. destruct (pool_chain p); simpl in Eq; congruence.
Qed.

Lemma top_pools_spec limit min_tvl chain pools top :
  top_pools limit min_tvl chain pools = Ret top ->
  incl top pools
  /\ Forall (fun p => top_keep min_tvl chain p = Ret true) top
  /\ descending apy_key top
  /\ (0 <= limit -> Z.of_nat (length top) <= limit).
Proof.
  unfold top_pools. intros H.
  destruct (filter_exc _ pools) as [e|filtered] eqn:Ef;
    cbn [mbind exc_bind] in H; try discriminate.
  destruct (sorted_desc apy_key filtered) as [e|sorted_pools] eqn:Es;
    cbn [mbind exc_bind] in H; try discriminate.
  injection H as <-.
  destruct (filter_exc_spec _ _ _ Ef) as [Hkeep Hincl].
  pose proof (sorted_desc_perm _ _ _ Es) as Hperm.
  assert (Hin : incl (slice_to limit sorted_pools) filtered).
  { intros x Hx. apply (Permutation_in _ (Permutation_sym Hperm)).
    now apply (slice_to_incl limit sorted_pools). }
  split; [|split; [|split]].
  - intros x Hx. auto.
  - rewrite List.Forall_forall in *. auto.
  - apply slice_to_sorted. now apply sorted_desc_sorted with filtered.
  - now apply slice_to_length.
Qed.

Lemma Forall2_length_eq {A B} (R : A -> B -> Prop) l r :
  Forall2 R l r -> length l = length r.
Proof. induction 1; simpl; congruence. Qed.

(** C1, as the code has it.  When the call reads the upstream listing
    (no live, truthy cache entry under its key) and [limit] is not
    negative, the answer has at most [limit] records; each is the record
    of a pool of the listing whose TVL is a number not below [min_tvl]
    and whose chain, when a chain is given, is exactly that chain; and
    these pools stand in descending order of APY. *)
Theorem top_yields_bounded_filtered_sorted
    (CACHE_TIMEOUT : Q) (limit min_tvl : Z) (chain : option string)
    (w : world listing) (c : gmap string entry) :
  0 <= limit ->
  cache_miss (top_yields_key limit min_tvl chain) w c ->
  exists rs top,
    fst (get_top_yields CACHE_TIMEOUT limit min_tvl chain w c) = CYields rs
    /\ Forall2 (fun p r => top_record p = Ret r) top rs
    /\ incl top (listed w)
    /\ Z.of_nat (length rs) <= limit
    /\ Forall (fun p => exists tvl, num_of (tvl_of p) = Some tvl
                                    /\ (inject_Z min_tvl <= tvl)%Q) top
    /\ (forall s, chain = Some s -> s <> "" ->
          Forall (fun p => pool_chain p = Some (PStr s)) top)
    /\ descending apy_key top.
Proof.
  intros Hlimit Hmiss. unfold cache_miss in Hmiss. unfold get_top_yields.
  destruct (get_cached_result _ (now_lookup w) c) as [cached_data c1].
  simpl in Hmiss. rewrite Hmiss.
  assert (Hnil : forall L, exists (rs : list yield_record) (top : list pool),
             CYields [] = CYields rs
             /\ Forall2 (fun p r => top_record p = Ret r) top rs
             /\ incl top L
             /\ Z.of_nat (length rs) <= limit
             /\ Forall (fun p => exists tvl, num_of (tvl_of p) = Some tvl
                                    /\ (inject_Z min_tvl <= tvl)%Q) top
             /\ (forall s, chain = Some s -> s <> "" ->
                   Forall (fun p => pool_chain p = Some (PStr s)) top)
             /\ descending apy_key top).
  { intros L. exists [], []. repeat split; try constructor; try easy. }
  unfold top_yields_fetch, top_yields_try, listed, listed_in.
  destruct (upstream w) as [|status body]; [exact (Hnil _)|].
  destruct (status =? 200); [|exact (Hnil _)].
  destruct body as [data|]; cbn [json mbind exc_bind]; [|exact (Hnil _)].
  destruct (top_pools limit min_tvl chain (pools_of data)) as [e|top] eqn:Et;
    cbn [mbind exc_bind]; [exact (Hnil _)|].
  destruct (map_exc top_record top) as [e|rs] eqn:Er;
    cbn [mbind exc_bind mret exc_ret fst]; [exact (Hnil _)|].
  clear Hnil.
  destruct (top_pools_spec _ _ _ _ _ Et) as (Hincl & Hkeep & Hdesc & Hlen).
  pose proof (map_exc_Forall2 _ _ _ Er) as HF.
  exists rs, top. split; [reflexivity|]. split; [exact HF|].
  split; [exact Hincl|]. split.
  { rewrite <- (Forall2_length_eq _ _ _ HF). now apply Hlen. }
  split; [|split; [|exact Hdesc]].
  - eapply Forall_impl; [exact Hkeep|]. intros p Hp.
    now apply top_keep_true in Hp as [Hp _].
  - intros s Hs Hne. eapply Forall_impl; [exact Hkeep|]. intros p Hp.
    apply top_keep_true in Hp as [_ Hp]. now apply Hp.
Qed.

Lemma top_yields_bounded_witness :
  0 <= 1
  /\ cache_miss (top_yields_key 1 1000000 (Some "Ethereum"))
       (answering two_pools) ∅
  /\ exists rs,
       fst (get_top_yields 300 1 1000000 (Some "Ethereum")
              (answering two_pools) ∅) = CYields rs
       /\ Z.of_nat (length rs) <= 1.
Proof.
  assert (H1 : 0 <= 1) by lia.
  assert (H2 : cache_miss (top_yields_key 1 1000000 (Some "Ethereum"))
                 (answering two_pools) ∅) by (vm_compute; reflexivity).
  split; [exact H1|]. split; [exact H2|].
  destruct (top_yields_bounded_filtered_sorted 300 1 1000000 (Some "Ethereum")
              (answering two_pools) ∅ H1 H2) as (rs & top & E & _ & _ & L & _).
  exists rs. split; [exact E|exact L].
Defined.

(** C1 as stated fails in two ways.  On a negative [limit], [[:-1]] drops
    the last pool only, so two listed pools give one record, which is
    more than -1.  And a call served from the cache answers what an
    earlier call stored: the key is the text of the arguments, so a call
    with [chain = "None"] finds what a call with no chain left there, and
    returns records of pools on another chain. *)
Lemma top_yields_claim_fails :
  (exists rs,
      fst (get_top_yields 300 (-1) 1000000 None (answering two_pools) ∅)
      = CYields rs
      /\ ~ (Z.of_nat (length rs) <= -1))
  /\ (exists rs,
      fst (get_top_yields 300 5 1000000 (Some "None") (answering two_pools)
             (snd (get_top_yields 300 5 1000000 None (answering two_pools) ∅)))
      = CYields rs
      /\ map yr_chain rs = [Some (PStr "Ethereum"); Some (PStr "Ethereum")]).
Proof.
  split.
  - eexists. split; [vm_compute; reflexivity|]. simpl. lia.
  - eexists. split; vm_compute; reflexivity.
Qed.

(** For numbers, "not below" is the order of the values. *)
Lemma not_below_numeric {A} (key : A -> pyval) x y a b :
  num_of (key x) = Some a -> num_of (key y) = Some b ->
  not_below key x y -> (b <= a)%Q.
Proof.
  intros Ha Hb H. unfold not_below in H.
  rewrite (py_lt_num _ _ a b (numval_self _ _ Ha) (numval_self _ _ Hb)) in H.
  injection H as H. now apply Qltb_ge.
Qed.

(* ================================================================== *)
(** * get_yield_recommendations *)
(* ================================================================== *)

Lemma py_not_gt_float a m :
  py_gt a (PFloat m) = Ret false ->
  exists x, num_of a = Some x /\ (x <= m)%Q.
Proof.
  unfold py_gt. intros H.
  destruct (py_lt_ret _ _ _ H) as [(s & t & [=] & _)|(x & y & Hx & Hy & E)].
  simpl in Hx. injection Hx as <-. exists y. split; [exact Hy|].
  symmetry in E. now apply Qltb_ge in E.
Qed.

Lemma recommended_mono params pools pools' p :
  incl pools pools' -> recommended params pools p -> recommended params pools' p.
Proof.
  intros Hi ((p0 & rs & Hin & E) & H2 & H3).
  split; [|split; assumption]. exists p0, rs. split; [now apply Hi|exact E].
Qed.

Lemma recommend_filter_spec params pools r :
  recommend_filter params pools = Ret r -> Forall (recommended params pools) r.
Proof.
  revert r. induction pools as [|p rest IH]; intros r H;
    cbn [recommend_filter] in H.
  - injection H as <-. constructor.
  - assert (Hrest : forall r', recommend_filter params rest = Ret r' ->
                               Forall (recommended params (p :: rest)) r').
    { intros r' Hr'. eapply Forall_impl; [exact (IH _ Hr')|].
      intros x. apply recommended_mono. intros y Hy. now right. }
    destruct (py_lt (tvl_of p) (PInt (fst params))) as [e|[]] eqn:Etvl;
      cbn [mbind exc_bind] in H; try discriminate; [now apply Hrest|].
    destruct (py_gt (volatility_of p) (PFloat (snd params))) as [e|[]] eqn:Evol;
      cbn [mbind exc_bind] in H; try discriminate; [now apply Hrest|].
    destruct (calculate_risk_score _ _ _) as [e|rs];
      cbn [mbind exc_bind] in H; try discriminate.
    destruct (recommend_filter params rest) as [e|r'];
      cbn [mbind exc_bind] in H; try discriminate.
    injection H as <-. constructor; [|now apply Hrest].
    split; [|split].
    + exists p, rs. split; [now left|reflexivity].
    + now apply py_not_lt_int.
    + now apply py_not_gt_float.
Qed.

Lemma risk_params_table key :
  (key = "low" -> risk_params key = (10000000, 3 # 10))
  /\ (key = "medium" -> risk_params key = (1000000, 6 # 10))
  /\ (key = "high" -> risk_params key = (100000, 1 # 1))
  /\ (key <> "low" -> key <> "medium" -> key <> "high" ->
      risk_params key = (1000000, 6 # 10)).
Proof.
  repeat split; try (intros ->; reflexivity).
  intros H1 H2 H3. unfold risk_params.
  apply String.eqb_neq in H1, H2, H3. now rewrite H1, H2, H3.
Qed.

(** The pools behind the answer of the recommendations. *)
Lemma recommendations_pools
    (risk_tolerance : string) (min_tvl limit : Z) (up : response listing) :
  exists sorted_pools,
    Forall2 (fun p r => recommend_record p = Ret r)
      (slice_to limit sorted_pools)
      (get_yield_recommendations risk_tolerance min_tvl limit up)
    /\ descending apy_key sorted_pools
    /\ Forall (recommended (risk_params (lower risk_tolerance)) (listed_in up))
         sorted_pools
    /\ (0 <= limit ->
        Z.of_nat (length (get_yield_recommendations risk_tolerance min_tvl
                            limit up)) <= limit).
Proof.
  unfold get_yield_recommendations, yield_recommendations_try.
  set (params := risk_params (lower risk_tolerance)).
  assert (Hnil : forall L, exists sorted_pools : list pool,
             Forall2 (fun p r => recommend_record p = Ret r)
               (slice_to limit sorted_pools) []
             /\ descending apy_key sorted_pools
             /\ Forall (recommended params L) sorted_pools
             /\ (0 <= limit -> Z.of_nat (@length yield_record []) <= limit)).
  { intros L. exists []. rewrite slice_to_nil.
    repeat split; try constructor. simpl. easy. }
  destruct up as [|status body]; [exact (Hnil _)|].
  destruct (status =? 200); [|exact (Hnil _)].
  destruct body as [data|]; cbn [json mbind exc_bind]; [|exact (Hnil _)].
  unfold recommend_pools.
  destruct (recommend_filter params (pools_of data)) as [e|filtered] eqn:Ef;
    cbn [mbind exc_bind]; [exact (Hnil _)|].
  destruct (sorted_desc apy_key filtered) as [e|sorted_pools] eqn:Es;
    cbn [mbind exc_bind mret exc_ret]; [exact (Hnil _)|].
  destruct (map_exc recommend_record (slice_to limit sorted_pools))
    as [e|rs] eqn:Er; [exact (Hnil _)|].
  clear Hnil. exists sorted_pools.
  pose proof (map_exc_Forall2 _ _ _ Er) as HF.
  split; [exact HF|]. split; [now apply sorted_desc_sorted with filtered|].
  split.
  - apply (Permutation_Forall (sorted_desc_perm _ _ _ Es)).
    now apply recommend_filter_spec.
  - intros Hl. rewrite <- (Forall2_length_eq _ _ _ HF).
    now apply slice_to_length.
Qed.


(** C9. The [min_tvl] argument of [get_yield_recommendations] has no
    influence on the result: two calls that differ only in it return the
    same list, and the TVL bound the returned pools meet is the one of
    the table, selected by [risk_tolerance]. *)
Theorem recommendations_ignore_min_tvl
    (risk_tolerance : string) (v1 v2 limit : Z) (up : response listing) :
  get_yield_recommendations risk_tolerance v1 limit up
  = get_yield_recommendations risk_tolerance v2 limit up
  /\ exists pools,
       Forall2 (fun p r => recommend_record p = Ret r) pools
         (get_yield_recommendations risk_tolerance v2 limit up)
       /\ Forall (fun p => exists tvl,
                     num_of (tvl_of p) = Some tvl
                     /\ (inject_Z (fst (risk_params (lower risk_tolerance)))
                         <= tvl)%Q) pools.
Proof.
  split; [reflexivity|].
  destruct (recommendations_pools risk_tolerance v2 limit up)
    as (sorted_pools & HF & _ & Hrec & _).
  exists (slice_to limit sorted_pools). split; [exact HF|].
  rewrite List.Forall_forall in *. intros p Hp.
  apply slice_to_incl in Hp. now destruct (Hrec p Hp) as (_ & Htvl & _).
Qed.

(** The bound of the signature is not the one applied: asked for a
    minimum TVL of 10,000,000 with a high risk tolerance, the call still
    returns the pool holding 5,000,000. *)
Lemma recommendations_below_argument :
  map yr_tvl (get_yield_recommendations "high" 10000000 5
                (Http 200 (Some two_pools)))
  = ["$5,000,000.00"; "$25,000,000.00"].
Proof. vm_compute. reflexivity. Qed.

(* ================================================================== *)
(** * Reading a formatted percentage back *)
(* ================================================================== *)

Section RoundTrip.

Lemma string_of_uint_digits u : digits_only (NilEmpty.string_of_uint u) = true.
Proof. induction u; simpl; auto. Qed.

Lemma digits_spec n :
  0 <= n ->
  exists u, digits n = NilEmpty.string_of_uint u
            /\ u <> Decimal.Nil /\ Z.of_uint u = n.
Proof.
  intros Hn. unfold digits. exists (N.to_uint (Z.to_N n)).
  assert (Hnn : N.to_uint (Z.to_N n) <> Decimal.Nil).
  { destruct (Z.to_N n); simpl; [discriminate|].
    apply DecimalPos.Unsigned.to_uint_nonnil. }
  split; [|split; [exact Hnn|]].
  - unfold NilZero.string_of_uint. now destruct (N.to_uint (Z.to_N n)).
  - unfold Z.of_uint. change (Pos.of_uint ?d) with (N.of_uint d).
    rewrite DecimalN.Unsigned.of_to. now apply Z2N.id.
Qed.

Lemma string_of_uint_nonempty u :
  u <> Decimal.Nil -> NilEmpty.string_of_uint u <> EmptyString.
Proof. destruct u; simpl; congruence. Qed.

Lemma remove_char_app c s t :
  remove_char c (s ++ t) = (remove_char c s ++ remove_char c t)%string.
Proof.
  induction s as [|a s IH]; simpl; [reflexivity|].
  destruct (Ascii.eqb a c); simpl; now rewrite IH.
Qed.

Lemma is_digit_cases c :
  is_digit c = true ->
  c <> "%"%char /\ c <> "."%char /\ c <> "-"%char /\ c <> "+"%char.
Proof.
  destruct c as [[] [] [] [] [] [] [] []]; simpl; intros H;
    try discriminate; repeat split; discriminate.
Qed.

Lemma remove_percent_digits s :
  digits_only s = true -> remove_char "%"%char s = s.
Proof.
  induction s as [|a s IH]; simpl; [reflexivity|].
  intros H. apply andb_prop in H as [Ha Hs].
  apply is_digit_cases in Ha as (Hp & _).
  apply Ascii.eqb_neq in Hp. rewrite Hp. now rewrite IH.
Qed.

Lemma split_dot_digits s t :
  digits_only s = true -> split_dot (s ++ String "."%char t) = (s, Some t).
Proof.
  induction s as [|a s IH]; simpl; [reflexivity|].
  intros H. apply andb_prop in H as [Ha Hs].
  apply is_digit_cases in Ha as (_ & Hd & _).
  apply Ascii.eqb_neq in Hd. rewrite Hd. now rewrite IH.
Qed.

(** The two digits after the point, by enumeration of the hundred cases. *)
Lemma frac_digits_2 f :
  0 <= f < 100 ->
  exists u, NilEmpty.uint_of_string (frac_digits 2 f) = Some u
            /\ Z.of_uint u = f
            /\ String.length (frac_digits 2 f) = 2%nat
            /\ digits_only (frac_digits 2 f) = true.
Proof.
  intros Hf.
  assert (H : forallb (fun n =>
              let s := frac_digits 2 (Z.of_nat n) in
              match NilEmpty.uint_of_string s with
              | Some u => (Z.of_uint u =? Z.of_nat n)
                          && (String.length s =? 2)%nat && digits_only s
              | None => false
              end) (seq 0 100) = true) by (vm_compute; reflexivity).
  rewrite forallb_forall in H. specialize (H (Z.to_nat f)).
  rewrite Z2Nat.id in H by lia.
  assert (Hin : In (Z.to_nat f) (seq 0 100)) by (apply in_seq; lia).
  specialize (H Hin). cbv zeta in H.
  destruct (NilEmpty.uint_of_string (frac_digits 2 f)) as [u|]; [|discriminate].
  apply andb_prop in H as [H H3]. apply andb_prop in H as [H1 H2].
  exists u. repeat split; auto.
  - now apply Z.eqb_eq.
  - now apply Nat.eqb_eq.
Qed.

Lemma round_half_even_nonneg x : (0 <= x)%Q -> 0 <= round_half_even x.
Proof.
  intros Hx. unfold round_half_even.
  assert (H0 : 0 <= Qfloor x).
  { change 0 with (Qfloor 0). now apply Qfloor_resp_le. }
  destruct (_ ?= _)%Q; [destruct (Z.even _)| |]; lia.
Qed.

Lemma parse_unsigned_fixed ip fp :
  0 <= ip -> 0 <= fp < 100 ->
  parse_unsigned (digits ip ++ "." ++ frac_digits 2 fp)
  = Some (inject_Z ip + (fp # 100))%Q.
Proof.
  intros Hip Hfp.
  destruct (digits_spec ip Hip) as (u & Eu & Hu & Vu).
  destruct (frac_digits_2 fp Hfp) as (v & Ev & Vv & Lv & Dv).
  unfold parse_unsigned. rewrite Eu.
  change ("." ++ frac_digits 2 fp)%string with (String "."%char (frac_digits 2 fp)).
  rewrite split_dot_digits by apply string_of_uint_digits.
  pose proof (string_of_uint_nonempty u Hu) as Hne.
  destruct (NilEmpty.string_of_uint u) as [|c r] eqn:Es; [congruence|].
  rewrite <- Es, NilEmpty.usu, Ev. cbn [mbind option_bind].
  now rewrite Vu, Vv, Lv.
Qed.

Lemma digits_head n :
  0 <= n -> exists c r, digits n = String c r /\ is_digit c = true
                        /\ digits_only r = true.
Proof.
  intros Hn. destruct (digits_spec n Hn) as (u & Eu & Hu & _).
  pose proof (string_of_uint_digits u) as Hd.
  pose proof (string_of_uint_nonempty u Hu) as Hne. rewrite <- Eu in *.
  destruct (digits n) as [|c r]; [congruence|].
  simpl in Hd. apply andb_prop in Hd as [Hc Hr]. now exists c, r.
Qed.

Lemma append_nil_r s : (s ++ "")%string = s.
Proof.
  induction s as [|a s IH]; [reflexivity|].
  change (String a (s ++ "") = String a s). now rewrite IH.
Qed.

Lemma append_cons a s t : (String a s ++ t)%string = String a (s ++ t).
Proof. reflexivity. Qed.

Lemma remove_percent_body ip fp :
  0 <= ip -> 0 <= fp < 100 ->
  remove_char "%"%char (digits ip ++ "." ++ frac_digits 2 fp)
  = (digits ip ++ "." ++ frac_digits 2 fp)%string.
Proof.
  intros Hip Hfp.
  destruct (frac_digits_2 _ Hfp) as (v & _ & _ & _ & Dv).
  destruct (digits_spec ip Hip) as (u & Eu & _ & _).
  rewrite remove_char_app, remove_percent_digits
    by (rewrite Eu; apply string_of_uint_digits).
  f_equal. change ("." ++ ?x)%string with (String "."%char x).
  cbn [remove_char Ascii.eqb Bool.eqb]. f_equal.
  now apply remove_percent_digits.
Qed.

Lemma py_float_unsigned ip fp :
  0 <= ip -> 0 <= fp < 100 ->
  py_float (digits ip ++ "." ++ frac_digits 2 fp)
  = Ret (inject_Z ip + (fp # 100))%Q.
Proof.
  intros Hip Hfp. pose proof (parse_unsigned_fixed _ _ Hip Hfp) as Hparse.
  destruct (digits_head _ Hip) as (c & r & Ed & Hc & Hr).
  unfold py_float. rewrite Ed in *. rewrite append_cons in *.
  destruct c as [[] [] [] [] [] [] [] []]; try discriminate Hc;
    now rewrite Hparse.
Qed.

Lemma py_float_negative ip fp :
  0 <= ip -> 0 <= fp < 100 ->
  py_float ("-" ++ digits ip ++ "." ++ frac_digits 2 fp)
  = Ret (- (inject_Z ip + (fp # 100)))%Q.
Proof.
  intros Hip Hfp. unfold py_float.
  change ("-" ++ ?x)%string with (String "-"%char x). cbv beta iota.
  now rewrite (parse_unsigned_fixed _ _ Hip Hfp).
Qed.

(** A number shown with two decimals and a percent sign reads back as
    that number rounded to hundredths. *)
Lemma float_of_format_fixed q :
  float_of_percentage (format_fixed false 2 q ++ "%") = Ret (shown_value q).
Proof.
  unfold float_of_percentage, format_fixed, shown_value.
  set (m := round_half_even (Qabs q * inject_Z (pow10 2))).
  assert (Hm : 0 <= m).
  { apply round_half_even_nonneg. apply Qmult_le_0_compat.
    - apply Qabs_nonneg.
    - discriminate. }
  change (pow10 2) with 100.
  assert (Hip : 0 <= m / 100) by (apply Z.div_pos; lia).
  assert (Hfp : 0 <= m mod 100 < 100) by (apply Z.mod_pos_bound; lia).
  rewrite remove_char_app. cbn [remove_char Ascii.eqb Bool.eqb].
  rewrite append_nil_r.
  destruct (Qltb q 0).
  - rewrite remove_char_app. cbn [remove_char Ascii.eqb Bool.eqb].
    rewrite (remove_percent_body _ _ Hip Hfp).
    now apply py_float_negative.
  - change ("" ++ ?x)%string with x.
    rewrite (remove_percent_body _ _ Hip Hfp).
    now apply py_float_unsigned.
Qed.

Lemma shown_value_hundredths q :
  (shown_value q ==
   (if Qltb q 0 then -1 else 1)
   * (round_half_even (Qabs q * 100) # 100))%Q.
Proof.
  unfold shown_value. change (inject_Z (pow10 2)) with 100%Q.
  set (m := round_half_even (Qabs q * 100)).
  assert (E : (inject_Z (m / 100) + (m mod 100 # 100) == m # 100)%Q).
  { unfold Qeq, Qplus, inject_Z. simpl.
    pose proof (Z.div_mod m 100 ltac:(lia)). lia. }
  destruct (Qltb q 0); rewrite E; ring.
Qed.

(** [format_percentage] on a number, and its reading back. *)
Lemma format_percentage_num v q :
  num_of v = Some q -> format_percentage v = (format_fixed false 2 q ++ "%")%string.
Proof.
  destruct v as [| [] | z | x | t]; simpl; intros [= <-]; reflexivity.
Qed.

Lemma float_of_format_percentage v q :
  num_of v = Some q ->
  float_of_percentage (format_percentage v) = Ret (shown_value q).
Proof.
  intros H. rewrite (format_percentage_num _ _ H). apply float_of_format_fixed.
Qed.

End RoundTrip.

(* ================================================================== *)
(** * get_token_sentiment and get_trading_signals *)
(* ================================================================== *)

Lemma py_mul_float_ret v q r :
  py_mul v (PFloat q) = Ret r -> exists x, num_of v = Some x.
Proof.
  destruct v as [| b | z | x | t]; simpl; intros H; try discriminate;
    eexists; reflexivity.
Qed.

Lemma shows_format v x :
  num_of v = Some x -> shows (format_percentage v) (shown_value x).
Proof. intros H. exists v, x. auto. Qed.

Lemma shows_float text q : shows text q -> float_of_percentage text = Ret q.
Proof.
  intros (v & x & Hv & -> & ->). now apply float_of_format_percentage.
Qed.

Lemma sentiment_score_numbers md cd score :
  sentiment_score md cd = Ret score ->
  (exists x, num_of (get_or (md_change_24h md) (PInt 0)) = Some x)
  /\ (exists x, num_of (get_or (md_change_7d md) (PInt 0)) = Some x)
  /\ (exists x, num_of (get_or (md_change_30d md) (PInt 0)) = Some x).
Proof.
  unfold sentiment_score. intros H.
  destruct (py_mul (get_or (md_change_24h md) (PInt 0)) _) as [e|a] eqn:E24;
    cbn [mbind exc_bind] in H; try discriminate.
  destruct (py_add (PInt 0) a) as [e|s1];
    cbn [mbind exc_bind] in H; try discriminate.
  destruct (py_mul (get_or (md_change_7d md) (PInt 0)) _) as [e|b] eqn:E7;
    cbn [mbind exc_bind] in H; try discriminate.
  destruct (py_add s1 b) as [e|s2];
    cbn [mbind exc_bind] in H; try discriminate.
  destruct (py_mul (get_or (md_change_30d md) (PInt 0)) _) as [e|d] eqn:E30;
    cbn [mbind exc_bind] in H; try discriminate.
  apply py_mul_float_ret in E24, E7, E30. auto.
Qed.

(** A record built from an upstream answer shows three numbers. *)
Lemma token_record_of_shown data td :
  token_record_of data = Ret td -> well_shown td.
Proof.
  unfold token_record_of. intros H.
  set (md := default no_market_data (cd_market_data data)) in *.
  set (cd := default no_community_data (cd_community_data data)) in *.
  destruct (sentiment_score md cd) as [e|score] eqn:Es;
    cbn [mbind exc_bind] in H; try discriminate.
  destruct (sentiment_score_numbers _ _ _ Es)
    as ((x24 & H24) & (x7 & H7) & (x30 & H30)).
  destruct (sentiment_label score 10 5) as [e|label];
    cbn [mbind exc_bind] in H; try discriminate.
  destruct (py_upper _) as [e|symbol]; cbn [mbind exc_bind] in H;
    try discriminate.
  injection H as <-. unfold well_shown. cbn.
  split; [|split]; eexists; apply shows_format; eassumption.
Qed.

Lemma cache_ok_lookup key now c d td :
  cache_ok c -> fst (get_cached_result key now c) = Some d ->
  d = CToken td -> well_shown td.
Proof.
  intros Hok Hget ->. unfold get_cached_result in Hget.
  destruct (c !! key) as [e|] eqn:E; [|discriminate].
  destruct (Qltb now (expires e)); [|discriminate].
  simpl in Hget. injection Hget as Hd. now apply (Hok key e td).
Qed.

(** Whatever the cache the services built, a token record that
    [get_token_sentiment] returns shows three numbers. *)
Lemma get_token_sentiment_shown token_id w c td :
  cache_ok c ->
  fst (get_token_sentiment token_id w c) = Some (CToken td) -> well_shown td.
Proof.
  intros Hok. unfold get_token_sentiment.
  destruct (get_cached_result _ (now_lookup w) c) as [cached_data c1] eqn:Eg.
  destruct (cache_hit cached_data) as [d|] eqn:Eh.
  - simpl. intros [= ->]. unfold cache_hit in Eh.
    destruct cached_data as [d|]; [|discriminate].
    destruct (cached_truthy d); [|discriminate]. injection Eh as ->.
    eapply cache_ok_lookup; [exact Hok| |reflexivity].
    rewrite Eg. reflexivity.
  - unfold token_sentiment_fetch, token_sentiment_try.
    destruct (upstream w) as [|status body]; [discriminate|].
    destruct (status =? 200); [|discriminate].
    destruct body as [data|]; cbn [json mbind exc_bind]; [|discriminate].
    destruct (token_record_of data) as [e|result] eqn:Er;
      cbn [mbind exc_bind mret exc_ret fst]; [discriminate|].
    intros [= <-]. now apply token_record_of_shown with data.
Qed.

Section CacheInvariant.

Variable CACHE_TIMEOUT : Q.

Lemma cache_ok_delete key c : cache_ok c -> cache_ok (delete key c).
Proof.
  intros H k e td Hk. apply lookup_delete_Some in Hk as [_ Hk].
  now apply (H k e td).
Qed.

Lemma cache_ok_store key v timeout now c :
  cache_ok c -> (forall td, v = CToken td -> well_shown td) ->
  cache_ok (cache_result key v timeout now c).
Proof.
  intros H Hv k e td Hk Hd. unfold cache_result in Hk.
  apply lookup_insert_Some in Hk as [[_ <-]|[_ Hk]].
  - now apply Hv.
  - now apply (H k e td).
Qed.

Lemma cache_ok_get key now c :
  cache_ok c -> cache_ok (snd (get_cached_result key now c)).
Proof.
  intros H. unfold get_cached_result.
  destruct (c !! key) as [e|]; [|exact H].
  destruct (Qltb now (expires e)); [exact H|now apply cache_ok_delete].
Qed.

(** The property holds of the empty cache and every operation that writes
    the cache keeps it. *)
Lemma cache_ok_token_sentiment token_id (w : world coin_detail) c :
  cache_ok c -> cache_ok (snd (get_token_sentiment token_id w c)).
Proof.
  intros H. unfold get_token_sentiment.
  pose proof (cache_ok_get (token_sentiment_key token_id) (now_lookup w) c H)
    as H1.
  destruct (get_cached_result _ (now_lookup w) c) as [cached_data c1].
  simpl in H1. destruct (cache_hit cached_data); [exact H1|].
  unfold token_sentiment_fetch, token_sentiment_try.
  destruct (upstream w) as [|status body]; [exact H1|].
  destruct (status =? 200); [|exact H1].
  destruct body as [data|]; cbn [json mbind exc_bind]; [|exact H1].
  destruct (token_record_of data) as [e|result] eqn:Er;
    cbn [mbind exc_bind mret exc_ret snd]; [exact H1|].
  apply cache_ok_store; [exact H1|]. intros td [= <-].
  now apply token_record_of_shown with data.
Qed.

Lemma cache_ok_token_price token_id (w : world (option simple_price)) c :
  cache_ok c -> cache_ok (snd (get_token_price token_id w c)).
Proof.
  intros H. unfold get_token_price.
  pose proof (cache_ok_get (token_price_key token_id) (now_lookup w) c H) as H1.
  destruct (get_cached_result _ (now_lookup w) c) as [cached_data c1].
  simpl in H1. destruct (cache_hit cached_data); [exact H1|].
  unfold token_price_fetch, token_price_try.
  destruct (upstream w) as [|status body]; [exact H1|].
  destruct (status =? 200); [|exact H1].
  destruct body as [[token_data|]|]; cbn [json mbind exc_bind mret exc_ret snd];
    try exact H1.
  apply cache_ok_store; [exact H1|]. discriminate.
Qed.

Lemma cache_ok_market_sentiment (w : world (list coin)) c :
  cache_ok c -> cache_ok (snd (get_market_sentiment w c)).
Proof.
  intros H. unfold get_market_sentiment.
  pose proof (cache_ok_get market_key (now_lookup w) c H) as H1.
  destruct (get_cached_result _ (now_lookup w) c) as [cached_data c1].
  simpl in H1. destruct (cache_hit cached_data); [exact H1|].
  unfold market_sentiment_fetch.
  destruct (market_sentiment_try w c1) as [e|[r c2]] eqn:E; [exact H1|].
  unfold market_sentiment_try in E.
  destruct (upstream w) as [|status body]; [discriminate|].
  destruct (status =? 200); [|now injection E as <- <-].
  repeat (match type of E with
          | (?m ≫= _) = _ =>
              destruct m; cbn [mbind exc_bind] in E; [discriminate|]
          end).
  injection E as <- <-. apply cache_ok_store; [exact H1|]. discriminate.
Qed.

Lemma cache_ok_top_yields limit min_tvl chain (w : world listing) c :
  cache_ok c ->
  cache_ok (snd (get_top_yields CACHE_TIMEOUT limit min_tvl chain w c)).
Proof.
  intros H. unfold get_top_yields.
  pose proof (cache_ok_get (top_yields_key limit min_tvl chain)
                (now_lookup w) c H) as H1.
  destruct (get_cached_result _ (now_lookup w) c) as [cached_data c1].
  simpl in H1. destruct (cache_hit cached_data); [exact H1|].
  unfold top_yields_fetch.
  destruct (top_yields_try _ _ _ _ w c1) as [e|[r c2]] eqn:E; [exact H1|].
  unfold top_yields_try in E.
  destruct (upstream w) as [|status body]; [discriminate|].
  destruct (status =? 200); [|now injection E as <- <-].
  repeat (match type of E with
          | (?m ≫= _) = _ =>
              destruct m; cbn [mbind exc_bind] in E; [discriminate|]
          end).
  injection E as <- <-. apply cache_ok_store; [exact H1|]. discriminate.
Qed.

Lemma cache_ok_yield_by_protocol name limit (w : world listing) c :
  cache_ok c ->
  cache_ok (snd (get_yield_by_protocol CACHE_TIMEOUT name limit w c)).
Proof.
  intros H. unfold get_yield_by_protocol.
  pose proof (cache_ok_get (protocol_key name limit) (now_lookup w) c H) as H1.
  destruct (get_cached_result _ (now_lookup w) c) as [cached_data c1].
  simpl in H1. destruct (cache_hit cached_data); [exact H1|].
  unfold yield_by_protocol_fetch.
  destruct (yield_by_protocol_try _ _ _ w c1) as [e|[r c2]] eqn:E; [exact H1|].
  unfold yield_by_protocol_try in E.
  destruct (upstream w) as [|status body]; [discriminate|].
  destruct (status =? 200); [|now injection E as <- <-].
  repeat (match type of E with
          | (?m ≫= _) = _ =>
              destruct m; cbn [mbind exc_bind] in E; [discriminate|]
          end).
  injection E as <- <-. apply cache_ok_store; [exact H1|]. discriminate.
Qed.

Lemma cache_ok_yield_by_chain name limit (w : world listing) c :
  cache_ok c ->
  cache_ok (snd (get_yield_by_chain CACHE_TIMEOUT name limit w c)).
Proof.
  intros H. unfold get_yield_by_chain.
  pose proof (cache_ok_get (chain_key name limit) (now_lookup w) c H) as H1.
  destruct (get_cached_result _ (now_lookup w) c) as [cached_data c1].
  simpl in H1. destruct (cache_hit cached_data); [exact H1|].
  unfold yield_by_chain_fetch.
  destruct (yield_by_chain_try _ _ _ w c1) as [e|[r c2]] eqn:E; [exact H1|].
  unfold yield_by_chain_try in E.
  destruct (upstream w) as [|status body]; [discriminate|].
  destruct (status =? 200); [|now injection E as <- <-].
  repeat (match type of E with
          | (?m ≫= _) = _ =>
              destruct m; cbn [mbind exc_bind] in E; [discriminate|]
          end).
  injection E as <- <-. apply cache_ok_store; [exact H1|]. discriminate.
Qed.

End CacheInvariant.

Section SignalRules.

Lemma Qltb_dec {T} x y (a b : T) :
  (if Qltb x y then a else b) = (if Qlt_le_dec x y then a else b).
Proof.
  destruct (Qlt_le_dec x y) as [H|H].
  - apply Qltb_lt in H. now rewrite H.
  - apply Qltb_ge in H. now rewrite H.
Qed.

Lemma short_term_names c24 shown :
  map sg_signal (short_term c24 shown) = short_term_rule c24.
Proof.
  unfold short_term, short_term_rule. rewrite !Qltb_dec.
  repeat destruct (Qlt_le_dec _ _); reflexivity.
Qed.

Lemma medium_term_names c7 c24 shown7 shown24 :
  map sg_signal (medium_term c7 c24 shown7 shown24) = divergence_rule c7 c24.
Proof.
  unfold medium_term, divergence_rule.
  destruct (Qlt_le_dec 0 c7) as [H|H];
    [apply Qltb_lt in H|apply Qltb_ge in H]; rewrite H; simpl.
  - destruct (Qlt_le_dec c24 0) as [H'|H'];
      [apply Qltb_lt in H'|apply Qltb_ge in H']; rewrite H'; simpl;
      [reflexivity|].
    destruct (Qlt_le_dec c7 0) as [H''|H''];
      [apply Qltb_lt in H''|apply Qltb_ge in H'']; rewrite H''; simpl;
      [|reflexivity].
    apply Qltb_lt in H, H''. lra.
  - destruct (Qlt_le_dec c7 0) as [H'|H'];
      [apply Qltb_lt in H'|apply Qltb_ge in H']; rewrite H'; simpl;
      [|reflexivity].
    destruct (Qlt_le_dec 0 c24) as [H''|H''];
      [apply Qltb_lt in H''|apply Qltb_ge in H'']; rewrite H''; reflexivity.
Qed.

Lemma long_term_names c30 shown :
  map sg_signal (long_term c30 shown) = extremum_rule c30.
Proof.
  unfold long_term, extremum_rule. rewrite !Qltb_dec.
  repeat destruct (Qlt_le_dec _ _); reflexivity.
Qed.

Lemma trading_signals_try_spec td c24 c7 c30 :
  shows (tk_change_24h td) c24 -> shows (tk_change_7d td) c7 ->
  shows (tk_change_30d td) c30 ->
  exists r, trading_signals_try (CToken td) = Ret r
    /\ map sg_signal (ts_signals r) = expected_signals c24 c7 c30
    /\ ts_signals r <> []
    /\ (fired_rules c24 c7 c30 = [] -> ts_signals r = [neutral_signal]).
Proof.
  intros H24 H7 H30. unfold trading_signals_try. cbn [as_token mbind exc_bind].
  rewrite (shows_float _ _ H24), (shows_float _ _ H7), (shows_float _ _ H30).
  cbn [mbind exc_bind mret exc_ret]. eexists. split; [reflexivity|].
  cbn [ts_signals].
  set (signals := (short_term _ _ ++ medium_term _ _ _ _ ++ long_term _ _)%list).
  assert (Hn : map sg_signal signals = fired_rules c24 c7 c30).
  { unfold signals, fired_rules. rewrite !map_app.
    now rewrite short_term_names, medium_term_names, long_term_names. }
  unfold expected_signals. rewrite <- Hn.
  destruct signals as [|s0 rest]; simpl.
  - repeat split; congruence.
  - repeat split; congruence.
Qed.

End SignalRules.

(** C4. For a token on which [token_sentiment] succeeds, with a cache the
    services built, [trading_signals] succeeds too; its signals are the
    ones the rules give on the three changes as shown (24h at 5, 2, -5,
    -2; 7d against 24h; 30d at 20 and -20), in that order; the list is
    never empty, and it is the single neutral signal when no rule fires. *)
Theorem trading_signals_follow_rules
    (token_id : string) (w : world coin_detail) (c : gmap string entry)
    (td : token_record) :
  cache_ok c ->
  fst (get_token_sentiment token_id w c) = Some (CToken td) ->
  exists c24 c7 c30 r,
    shows (tk_change_24h td) c24
    /\ shows (tk_change_7d td) c7
    /\ shows (tk_change_30d td) c30
    /\ fst (get_trading_signals token_id w c) = Some r
    /\ map sg_signal (ts_signals r) = expected_signals c24 c7 c30
    /\ ts_signals r <> []
    /\ (fired_rules c24 c7 c30 = [] -> ts_signals r = [neutral_signal]).
Proof.
  intros Hok Hsent.
  destruct (get_token_sentiment_shown _ _ _ _ Hok Hsent)
    as ((c24 & H24) & (c7 & H7) & (c30 & H30)).
  destruct (trading_signals_try_spec td c24 c7 c30 H24 H7 H30)
    as (r & Er & Hnames & Hne & Hneutral).
  exists c24, c7, c30, r. repeat (split; [assumption|]).
  split; [|repeat split; assumption].
  unfold get_trading_signals.
  destruct (get_token_sentiment token_id w c) as [token_data c1].
  simpl in Hsent. subst token_data. cbn [cached_truthy negb].
  now rewrite Er.
Qed.

Lemma cache_ok_empty : cache_ok ∅.
Proof. intros key e td H. rewrite lookup_empty in H. discriminate. Qed.

Lemma trading_signals_follow_rules_witness :
  cache_ok ∅
  /\ (exists td, fst (get_token_sentiment "ethereum" (answering dipping_token) ∅)
                 = Some (CToken td))
  /\ exists r,
       fst (get_trading_signals "ethereum" (answering dipping_token) ∅) = Some r
       /\ map sg_signal (ts_signals r) = ["strong_sell"; "buy_dip"; "take_profit"]
       /\ ts_signals r <> [].
Proof.
  assert (Hs : { td | fst (get_token_sentiment "ethereum"
                             (answering dipping_token) ∅) = Some (CToken td) })
    by (eexists; vm_compute; reflexivity).
  destruct Hs as [td Hs].
  split; [exact cache_ok_empty|]. split; [now exists td|].
  destruct (trading_signals_follow_rules "ethereum" (answering dipping_token)
              ∅ td cache_ok_empty Hs)
    as (c24 & c7 & c30 & r & _ & _ & _ & Er & _ & Hne & _).
  exists r. split; [exact Er|]. split; [|exact Hne].
  assert (Hc : { r0 | fst (get_trading_signals "ethereum"
                             (answering dipping_token) ∅) = Some r0
                      /\ map sg_signal (ts_signals r0)
                         = ["strong_sell"; "buy_dip"; "take_profit"] })
    by (eexists; split; vm_compute; reflexivity).
  destruct Hc as (r0 & Er0 & Hn0). rewrite Er in Er0.
  injection Er0 as ->. exact Hn0.
Defined.

(* ================================================================== *)
(** * get_yield_entry_recommendation *)
(* ================================================================== *)

Lemma default_rule_keeps r :
  enter_now (default_rule r) = enter_now r
  /\ confidence (default_rule r) = confidence r.
Proof. unfold default_rule. destruct (reasoning r); split; reflexivity. Qed.

Lemma sentiment_rule_bearish sentiment r :
  sentiment = "bearish" \/ sentiment = "very bearish" ->
  enter_now (sentiment_rule sentiment r) = false
  /\ confidence (sentiment_rule sentiment r) = "high"
  /\ In ("Overall sentiment is " ++ sentiment ++ ", consider waiting")%string
        (reasoning (sentiment_rule sentiment r)).
Proof.
  intros [-> | ->]; unfold sentiment_rule; cbn; repeat split;
    apply in_or_app; right; now left.
Qed.

(** C5. When [token_sentiment] and [trading_signals] both succeed and the
    sentiment label is bearish or very bearish, the recommendation has
    [enter_now = False] and [confidence = 'high'], and carries the
    "consider waiting" line, whatever signals were raised. *)
Theorem bearish_sentiment_blocks_entry
    (token_id : string) (w1 w2 : world coin_detail) (c : gmap string entry)
    (td : token_record) (ts : signals_record) :
  fst (get_token_sentiment token_id w1 c) = Some (CToken td) ->
  fst (get_trading_signals token_id w2 (snd (get_token_sentiment token_id w1 c)))
  = Some ts ->
  tk_sentiment td = "bearish" \/ tk_sentiment td = "very bearish" ->
  exists rec,
    fst (get_yield_entry_recommendation token_id w1 w2 c) = Some rec
    /\ enter_now rec = false
    /\ confidence rec = "high"
    /\ In ("Overall sentiment is " ++ tk_sentiment td ++ ", consider waiting")%string
          (reasoning rec).
Proof.
  intros Hsent Hsig Hbear. unfold get_yield_entry_recommendation.
  destruct (get_token_sentiment token_id w1 c) as [token_data c1].
  simpl in Hsent, Hsig. subst token_data.
  destruct (get_trading_signals token_id w2 c1) as [trading_signals c2].
  simpl in Hsig. subst trading_signals.
  cbn [cached_truthy negb entry_recommendation_try as_token mbind exc_bind
       mret exc_ret fst].
  eexists. split; [reflexivity|].
  destruct (default_rule_keeps
              (sentiment_rule (tk_sentiment td)
                 (accumulate_rule (ts_signals ts)
                    (buy_rule (ts_signals ts)
                       {| rec_name := tk_name td; rec_symbol := tk_symbol td;
                          rec_price := tk_price td; enter_now := false;
                          confidence := "low"; reasoning := [] |}))))
    as [-> ->].
  destruct (sentiment_rule_bearish (tk_sentiment td)
              (accumulate_rule (ts_signals ts)
                 (buy_rule (ts_signals ts)
                    {| rec_name := tk_name td; rec_symbol := tk_symbol td;
                       rec_price := tk_price td; enter_now := false;
                       confidence := "low"; reasoning := [] |})) Hbear)
    as (He & Hc & Hr).
  split; [exact He|]. split; [exact Hc|].
  unfold default_rule.
  destruct (reasoning (sentiment_rule _ _)) eqn:E; [destruct Hr|].
  cbv beta iota. now rewrite E.
Qed.

Lemma bearish_sentiment_blocks_entry_witness :
  exists td ts rec,
    fst (get_token_sentiment "uniswap" (answering sliding_token) ∅)
    = Some (CToken td)
    /\ fst (get_trading_signals "uniswap" (answering sliding_token)
              (snd (get_token_sentiment "uniswap" (answering sliding_token) ∅)))
       = Some ts
    /\ tk_sentiment td = "bearish"
    /\ map sg_signal (ts_signals ts) = ["buy"; "accumulate"]
    /\ fst (get_yield_entry_recommendation "uniswap" (answering sliding_token)
              (answering sliding_token) ∅) = Some rec
    /\ enter_now rec = false
    /\ confidence rec = "high".
Proof.
  assert (Hs : { td | fst (get_token_sentiment "uniswap"
                             (answering sliding_token) ∅) = Some (CToken td)
                      /\ tk_sentiment td = "bearish" })
    by (eexists; split; vm_compute; reflexivity).
  destruct Hs as (td & Hs & Hb).
  assert (Ht : { ts | fst (get_trading_signals "uniswap" (answering sliding_token)
                             (snd (get_token_sentiment "uniswap"
                                     (answering sliding_token) ∅))) = Some ts
                      /\ map sg_signal (ts_signals ts) = ["buy"; "accumulate"] })
    by (eexists; split; vm_compute; reflexivity).
  destruct Ht as (ts & Ht & Hn).
  destruct (bearish_sentiment_blocks_entry "uniswap" (answering sliding_token)
              (answering sliding_token) ∅ td ts Hs Ht (or_introl Hb))
    as (rec & Er & He & Hc & _).
  exists td, ts, rec. repeat split; assumption.
Defined.

(* ================================================================== *)
(** * get_yield_comparison *)
(* ================================================================== *)

Section FormatCompat.

Lemma round_half_even_compat x y : (x == y)%Q -> round_half_even x = round_half_even y.
Proof.
  intros E. unfold round_half_even. rewrite (Qfloor_comp _ _ E).
  assert (Ec : ((x - inject_Z (Qfloor y))%Q ?= 1 # 2)%Q
               = ((y - inject_Z (Qfloor y))%Q ?= 1 # 2)%Q).
  { apply Qcompare_comp; [|reflexivity]. now rewrite E. }
  now rewrite Ec.
Qed.

Lemma format_fixed_compat commas d x y :
  (x == y)%Q -> format_fixed commas d x = format_fixed commas d y.
Proof.
  intros E. unfold format_fixed.
  assert (Em : round_half_even (Qabs x * inject_Z (pow10 d))
               = round_half_even (Qabs y * inject_Z (pow10 d))).
  { apply round_half_even_compat. now rewrite E. }
  rewrite Em. now rewrite (Qltb_proper _ _ E 0%Q 0%Q ltac:(reflexivity)).
Qed.

Lemma format_percentage_numval v q :
  numval v q -> format_percentage v = format_percentage (PFloat q).
Proof.
  intros (z & Hz & E). rewrite (format_percentage_num _ _ Hz).
  rewrite (format_percentage_num (PFloat q) q eq_refl).
  f_equal. now apply format_fixed_compat.
Qed.

End FormatCompat.

Section KeyInjective.

Lemma string_length_append a b :
  String.length (a ++ b) = (String.length a + String.length b)%nat.
Proof.
  induction a as [|c a IH]; [reflexivity|].
  rewrite append_cons. simpl. now rewrite IH.
Qed.

Lemma string_append_inv_tail s a b : (a ++ s)%string = (b ++ s)%string -> a = b.
Proof.
  revert b. induction a as [|c a IH]; intros [|d b] H.
  - reflexivity.
  - apply (f_equal String.length) in H.
    rewrite !string_length_append in H. simpl in H. lia.
  - apply (f_equal String.length) in H.
    rewrite !string_length_append in H. simpl in H. lia.
  - rewrite !append_cons in H. injection H as -> H. f_equal. now apply IH.
Qed.

Lemma protocol_key_inj a b limit :
  protocol_key a limit = protocol_key b limit -> a = b.
Proof.
  unfold protocol_key. intros H.
  apply (String.app_inj "protocol_yields_") in H.
  now apply string_append_inv_tail in H.
Qed.

End KeyInjective.

Section Comparison.

Variable CACHE_TIMEOUT : Q.

(** What a fetch for protocol [name] answers depends on the upstream
    only, not on the clock or the cache. *)
Lemma protocol_fetch_answer name limit (w w' : world listing) c c' :
  upstream w = upstream w' ->
  fst (yield_by_protocol_fetch CACHE_TIMEOUT name limit w c)
  = fst (yield_by_protocol_fetch CACHE_TIMEOUT name limit w' c').
Proof.
  intros E. unfold yield_by_protocol_fetch, yield_by_protocol_try.
  rewrite <- E. destruct (upstream w) as [|status body]; [reflexivity|].
  destruct (status =? 200); [|reflexivity].
  destruct body as [data|]; cbn [json mbind exc_bind]; [|reflexivity].
  destruct (protocol_pools name limit (pools_of data)); reflexivity.
Qed.

(** The cache a fetch leaves behind: untouched, or with the answer
    stored under the key of the call. *)
Lemma protocol_fetch_cache name limit (w : world listing) c :
  snd (yield_by_protocol_fetch CACHE_TIMEOUT name limit w c) = c
  \/ snd (yield_by_protocol_fetch CACHE_TIMEOUT name limit w c)
     = cache_result (protocol_key name limit)
         (fst (yield_by_protocol_fetch CACHE_TIMEOUT name limit w c))
         CACHE_TIMEOUT (now_store w) c.
Proof.
  unfold yield_by_protocol_fetch, yield_by_protocol_try.
  destruct (upstream w) as [|status body]; [now left|].
  destruct (status =? 200); [|now left].
  destruct body as [data|]; cbn [json mbind exc_bind]; [|now left].
  destruct (protocol_pools name limit (pools_of data)); [now left|now right].
Qed.

(** A call answers what its fetch would, as soon as the entry under its
    key, if any, holds that very answer. *)
Lemma get_yield_by_protocol_answer name limit (w : world listing) c :
  (forall e, c !! protocol_key name limit = Some e ->
             data e = fst (yield_by_protocol_fetch CACHE_TIMEOUT name limit w c)) ->
  fst (get_yield_by_protocol CACHE_TIMEOUT name limit w c)
  = fst (yield_by_protocol_fetch CACHE_TIMEOUT name limit w c).
Proof.
  intros H. unfold get_yield_by_protocol, get_cached_result.
  destruct (c !! protocol_key name limit) as [e|] eqn:E; [|reflexivity].
  destruct (Qltb (now_lookup w) (expires e)).
  - unfold cache_hit. destruct (cached_truthy (data e)); [|reflexivity].
    simpl. now apply H.
  - simpl. apply protocol_fetch_answer. reflexivity.
Qed.

Lemma get_yield_by_protocol_miss name limit (w : world listing) c :
  c !! protocol_key name limit = None ->
  get_yield_by_protocol CACHE_TIMEOUT name limit w c
  = yield_by_protocol_fetch CACHE_TIMEOUT name limit w c.
Proof.
  intros H. unfold get_yield_by_protocol.
  now rewrite (get_cached_absent _ _ _ H).
Qed.

(** The two listings a comparison works on, when the cache holds nothing
    for either protocol and both fetches see the same upstream. *)
Lemma comparison_listings p1 p2 (w1 w2 : world listing) c :
  c !! protocol_key p1 5 = None -> c !! protocol_key p2 5 = None ->
  upstream w1 = upstream w2 ->
  fst (get_yield_by_protocol CACHE_TIMEOUT p1 5 w1 c)
  = fst (yield_by_protocol_fetch CACHE_TIMEOUT p1 5 w1 c)
  /\ fst (get_yield_by_protocol CACHE_TIMEOUT p2 5 w2
            (snd (get_yield_by_protocol CACHE_TIMEOUT p1 5 w1 c)))
     = fst (yield_by_protocol_fetch CACHE_TIMEOUT p2 5 w1 c).
Proof.
  intros H1 H2 Hup. rewrite (get_yield_by_protocol_miss _ _ _ _ H1).
  split; [reflexivity|].
  rewrite get_yield_by_protocol_answer.
  - apply protocol_fetch_answer. now symmetry.
  - intros e He.
    destruct (protocol_fetch_cache p1 5 w1 c) as [Ec|Ec]; rewrite Ec in He.
    + congruence.
    + destruct (decide (p1 = p2)) as [->|Hne].
      * rewrite cache_result_lookup in He. injection He as <-. simpl.
        apply protocol_fetch_answer. exact Hup.
      * rewrite cache_result_lookup_ne in He; [congruence|].
        intros Hk. apply Hne. now apply protocol_key_inj in Hk.
Qed.

Lemma avg_apy_num yields a :
  avg_apy yields = Ret a -> exists x, num_of a = Some x.
Proof.
  unfold avg_apy. destruct (cached_truthy yields).
  - destruct (apy_values yields) as [e|vs]; cbn [mbind exc_bind];
      [discriminate|].
    destruct (py_sum vs) as [e|total]; cbn [mbind exc_bind]; [discriminate|].
    unfold py_truediv. destruct (num_of total); [|discriminate].
    cbn [num_of]. destruct (Qeq_bool _ _); [discriminate|].
    intros [= <-]. eexists. reflexivity.
  - intros [= <-]. eexists. reflexivity.
Qed.

(** The dict of a comparison, from the two means. *)
Lemma comparison_try_means p1 p2 y1 y2 a1 a2 x1 x2 :
  avg_apy y1 = Ret a1 -> avg_apy y2 = Ret a2 ->
  num_of a1 = Some x1 -> num_of a2 = Some x2 ->
  exists r, comparison_try p1 p2 y1 y2 = Ret r
    /\ difference r = format_percentage (PFloat (x1 - x2))
    /\ winner r = (if Qltb x2 x1 then p1 else p2)
    /\ protocol1 r = p1 /\ protocol2 r = p2.
Proof.
  intros E1 E2 N1 N2. unfold comparison_try. rewrite E1, E2.
  cbn [mbind exc_bind].
  destruct (py_sub_num a1 a2 x1 x2 (numval_self _ _ N1) (numval_self _ _ N2))
    as (diff & -> & Hd).
  cbn [mbind exc_bind]. unfold py_gt.
  rewrite (py_lt_num a2 a1 x2 x1 (numval_self _ _ N2) (numval_self _ _ N1)).
  cbn [mbind exc_bind mret exc_ret]. eexists. split; [reflexivity|].
  cbn. repeat split. now apply format_percentage_numval.
Qed.

Lemma comparison_try_raises p1 p2 y1 y2 :
  (exists e, avg_apy y1 = Raise e) \/ (exists e, avg_apy y2 = Raise e) ->
  exists e, comparison_try p1 p2 y1 y2 = Raise e.
Proof.
  unfold comparison_try. intros [[e E]|[e E]].
  - rewrite E. eexists. reflexivity.
  - rewrite E. destruct (avg_apy y1); eexists; reflexivity.
Qed.

End Comparison.



(* ================================================================== *)
(** * Failures *)
(* ================================================================== *)

Section Failures.

Variable CACHE_TIMEOUT : Q.

Lemma fetch_failed_cases {B} (up : response B) :
  fetch_failed up ->
  up = TransportError
  \/ (exists status body, up = Http status body /\ (status =? 200) = false)
  \/ up = Http 200 None.
Proof.
  destruct up as [|status body]; [now left|]. intros [H|H].
  - right. left. exists status, body. split; [reflexivity|].
    now apply Z.eqb_neq.
  - subst body. destruct (status =? 200) eqn:E.
    + apply Z.eqb_eq in E. subst. now right; right.
    + right. left. now exists status, None.
Qed.

Ltac failed_fetch H :=
  destruct (fetch_failed_cases _ H) as [-> | [(status & body & -> & ->) | ->]];
  reflexivity.

Lemma top_yields_fetch_failed limit min_tvl chain (w : world listing) c :
  fetch_failed (upstream w) ->
  fst (top_yields_fetch CACHE_TIMEOUT limit min_tvl chain w c) = CYields [].
Proof.
  intros H. unfold top_yields_fetch, top_yields_try. failed_fetch H.
Qed.

Lemma yield_by_protocol_fetch_failed name limit (w : world listing) c :
  fetch_failed (upstream w) ->
  yield_by_protocol_fetch CACHE_TIMEOUT name limit w c = (CYields [], c).
Proof.
  intros H. unfold yield_by_protocol_fetch, yield_by_protocol_try.
  failed_fetch H.
Qed.

Lemma yield_by_chain_fetch_failed name limit (w : world listing) c :
  fetch_failed (upstream w) ->
  fst (yield_by_chain_fetch CACHE_TIMEOUT name limit w c) = CYields [].
Proof.
  intros H. unfold yield_by_chain_fetch, yield_by_chain_try. failed_fetch H.
Qed.

Lemma recommendations_fetch_failed risk_tolerance min_tvl limit up :
  fetch_failed up ->
  get_yield_recommendations risk_tolerance min_tvl limit up = [].
Proof.
  intros H. unfold get_yield_recommendations, yield_recommendations_try.
  failed_fetch H.
Qed.

Lemma token_price_fetch_failed token_id (w : world (option simple_price)) c :
  fetch_failed (upstream w) -> fst (token_price_fetch token_id w c) = None.
Proof.
  intros H. unfold token_price_fetch, token_price_try. failed_fetch H.
Qed.

Lemma market_sentiment_fetch_failed (w : world (list coin)) c :
  fetch_failed (upstream w) -> fst (market_sentiment_fetch w c) = None.
Proof.
  intros H. unfold market_sentiment_fetch, market_sentiment_try.
  failed_fetch H.
Qed.

Lemma token_sentiment_fetch_failed token_id (w : world coin_detail) c :
  fetch_failed (upstream w) -> fst (token_sentiment_fetch token_id w c) = None.
Proof.
  intros H. unfold token_sentiment_fetch, token_sentiment_try. failed_fetch H.
Qed.

(** On a miss the six cached operations are their fetch. *)
Lemma cache_miss_split {B} key (w : world B) c :
  cache_miss key w c ->
  exists cached_data c1,
    get_cached_result key (now_lookup w) c = (cached_data, c1)
    /\ cache_hit cached_data = None.
Proof.
  unfold cache_miss. intros H.
  destruct (get_cached_result key (now_lookup w) c) as [cached_data c1].
  now exists cached_data, c1.
Qed.

End Failures.

(** C6, as the code has it.  Every operation is a total function of its
    inputs: no exception leaves it.  When the upstream fetch fails or the
    [try] block raises, the list operations answer the empty list and
    [token_price], [market_sentiment], [token_sentiment],
    [trading_signals] and [yield_entry_recommendation] answer [None].
    [compare] answers a dict on every path: zero means, zero pools and
    the second protocol as winner when both fetches fail, the error dict
    when its [try] block raises. *)
Theorem failures_give_sentinels (CACHE_TIMEOUT : Q) :
  (forall limit min_tvl chain (w : world listing) c,
      cache_miss (top_yields_key limit min_tvl chain) w c ->
      fetch_failed (upstream w)
      \/ (exists e, top_yields_try CACHE_TIMEOUT limit min_tvl chain w
                      (snd (get_cached_result (top_yields_key limit min_tvl chain)
                              (now_lookup w) c)) = Raise e) ->
      fst (get_top_yields CACHE_TIMEOUT limit min_tvl chain w c) = CYields [])
  /\ (forall name limit (w : world listing) c,
      cache_miss (protocol_key name limit) w c ->
      fetch_failed (upstream w)
      \/ (exists e, yield_by_protocol_try CACHE_TIMEOUT name limit w
                      (snd (get_cached_result (protocol_key name limit)
                              (now_lookup w) c)) = Raise e) ->
      fst (get_yield_by_protocol CACHE_TIMEOUT name limit w c) = CYields [])
  /\ (forall name limit (w : world listing) c,
      cache_miss (chain_key name limit) w c ->
      fetch_failed (upstream w)
      \/ (exists e, yield_by_chain_try CACHE_TIMEOUT name limit w
                      (snd (get_cached_result (chain_key name limit)
                              (now_lookup w) c)) = Raise e) ->
      fst (get_yield_by_chain CACHE_TIMEOUT name limit w c) = CYields [])
  /\ (forall risk_tolerance min_tvl limit up,
      fetch_failed up
      \/ (exists e, yield_recommendations_try
                      (risk_params (lower risk_tolerance)) limit up = Raise e) ->
      get_yield_recommendations risk_tolerance min_tvl limit up = [])
  /\ (forall token_id (w : world (option simple_price)) c,
      cache_miss (token_price_key token_id) w c ->
      fetch_failed (upstream w)
      \/ (exists e, token_price_try token_id w
                      (snd (get_cached_result (token_price_key token_id)
                              (now_lookup w) c)) = Raise e) ->
      fst (get_token_price token_id w c) = None)
  /\ (forall (w : world (list coin)) c,
      cache_miss market_key w c ->
      fetch_failed (upstream w)
      \/ (exists e, market_sentiment_try w
                      (snd (get_cached_result market_key (now_lookup w) c))
                    = Raise e) ->
      fst (get_market_sentiment w c) = None)
  /\ (forall token_id (w : world coin_detail) c,
      cache_miss (token_sentiment_key token_id) w c ->
      fetch_failed (upstream w)
      \/ (exists e, token_sentiment_try token_id w
                      (snd (get_cached_result (token_sentiment_key token_id)
                              (now_lookup w) c)) = Raise e) ->
      fst (get_token_sentiment token_id w c) = None)
  /\ (forall token_id (w : world coin_detail) c,
      fst (get_token_sentiment token_id w c) = None
      \/ (exists td e, fst (get_token_sentiment token_id w c) = Some td
                       /\ trading_signals_try td = Raise e) ->
      fst (get_trading_signals token_id w c) = None)
  /\ (forall token_id (w1 w2 : world coin_detail) c,
      fst (get_token_sentiment token_id w1 c) = None
      \/ fst (get_trading_signals token_id w2
                (snd (get_token_sentiment token_id w1 c))) = None
      \/ (exists td ts e,
             fst (get_token_sentiment token_id w1 c) = Some td
             /\ fst (get_trading_signals token_id w2
                       (snd (get_token_sentiment token_id w1 c))) = Some ts
             /\ entry_recommendation_try td ts = Raise e) ->
      fst (get_yield_entry_recommendation token_id w1 w2 c) = None)
  /\ (forall p1 p2 (w1 w2 : world listing) c,
      exists r, fst (get_yield_comparison CACHE_TIMEOUT p1 p2 w1 w2 c) = Some r)
  /\ (forall p1 p2 (w1 w2 : world listing) c,
      c !! protocol_key p1 5 = None -> c !! protocol_key p2 5 = None ->
      fetch_failed (upstream w1) -> fetch_failed (upstream w2) ->
      fst (get_yield_comparison CACHE_TIMEOUT p1 p2 w1 w2 c)
      = Some (Compared {| protocol1 := p1; protocol1_avg_apy := "0.00%";
                          protocol1_pools := 0;
                          protocol2 := p2; protocol2_avg_apy := "0.00%";
                          protocol2_pools := 0;
                          difference := "0.00%"; winner := p2 |}))
  /\ (forall p1 p2 (w1 w2 : world listing) c e,
      comparison_try p1 p2
        (fst (get_yield_by_protocol CACHE_TIMEOUT p1 5 w1 c))
        (fst (get_yield_by_protocol CACHE_TIMEOUT p2 5 w2
                (snd (get_yield_by_protocol CACHE_TIMEOUT p1 5 w1 c))))
      = Raise e ->
      fst (get_yield_comparison CACHE_TIMEOUT p1 p2 w1 w2 c)
      = Some (CompareError p1 p2 e)).
Proof.
  repeat apply conj.
  - intros * Hmiss H. unfold get_top_yields.
    destruct (cache_miss_split _ _ _ Hmiss) as (cd & c1 & Eg & Eh).
    rewrite Eg in *. rewrite Eh. destruct H as [Hf|(e & He)].
    + now apply top_yields_fetch_failed.
    + unfold top_yields_fetch. simpl in He. now rewrite He.
  - intros * Hmiss H. unfold get_yield_by_protocol.
    destruct (cache_miss_split _ _ _ Hmiss) as (cd & c1 & Eg & Eh).
    rewrite Eg in *. rewrite Eh. destruct H as [Hf|(e & He)].
    + now rewrite yield_by_protocol_fetch_failed.
    + unfold yield_by_protocol_fetch. simpl in He. now rewrite He.
  - intros * Hmiss H. unfold get_yield_by_chain.
    destruct (cache_miss_split _ _ _ Hmiss) as (cd & c1 & Eg & Eh).
    rewrite Eg in *. rewrite Eh. destruct H as [Hf|(e & He)].
    + now apply yield_by_chain_fetch_failed.
    + unfold yield_by_chain_fetch. simpl in He. now rewrite He.
  - intros * [Hf|(e & He)].
    + now apply recommendations_fetch_failed.
    + unfold get_yield_recommendations. now rewrite He.
  - intros * Hmiss H. unfold get_token_price.
    destruct (cache_miss_split _ _ _ Hmiss) as (cd & c1 & Eg & Eh).
    rewrite Eg in *. rewrite Eh. destruct H as [Hf|(e & He)].
    + now apply token_price_fetch_failed.
    + unfold token_price_fetch. simpl in He. now rewrite He.
  - intros * Hmiss H. unfold get_market_sentiment.
    destruct (cache_miss_split _ _ _ Hmiss) as (cd & c1 & Eg & Eh).
    rewrite Eg in *. rewrite Eh. destruct H as [Hf|(e & He)].
    + now apply market_sentiment_fetch_failed.
    + unfold market_sentiment_fetch. simpl in He. now rewrite He.
  - intros * Hmiss H. unfold get_token_sentiment.
    destruct (cache_miss_split _ _ _ Hmiss) as (cd & c1 & Eg & Eh).
    rewrite Eg in *. rewrite Eh. destruct H as [Hf|(e & He)].
    + now apply token_sentiment_fetch_failed.
    + unfold token_sentiment_fetch. simpl in He. now rewrite He.
  - intros * H. unfold get_trading_signals.
    destruct (get_token_sentiment token_id w c) as [token_data c1].
    simpl in H. destruct H as [->|(td & e & -> & He)]; [reflexivity|].
    rewrite He. now destruct (negb (cached_truthy td)).
  - intros * H. unfold get_yield_entry_recommendation.
    destruct (get_token_sentiment token_id w1 c) as [token_data c1].
    simpl in H.
    destruct (get_trading_signals token_id w2 c1) as [trading_signals c2].
    simpl in H. destruct H as [->|[->|(td & ts & e & -> & -> & He)]].
    + reflexivity.
    + now destruct token_data.
    + rewrite He. now destruct (negb (cached_truthy td)).
  - intros *. unfold get_yield_comparison.
    destruct (get_yield_by_protocol CACHE_TIMEOUT p1 5 w1 c) as [y1 c1].
    destruct (get_yield_by_protocol CACHE_TIMEOUT p2 5 w2 c1) as [y2 c2].
    destruct (comparison_try p1 p2 y1 y2); eexists; reflexivity.
  - intros * H1 H2 F1 F2. unfold get_yield_comparison.
    rewrite (get_yield_by_protocol_miss _ _ _ _ _ H1).
    rewrite (yield_by_protocol_fetch_failed _ _ _ _ _ F1).
    rewrite (get_yield_by_protocol_miss _ _ _ _ _ H2).
    rewrite (yield_by_protocol_fetch_failed _ _ _ _ _ F2).
    reflexivity.
  - intros * H. unfold get_yield_comparison.
    destruct (get_yield_by_protocol CACHE_TIMEOUT p1 5 w1 c) as [y1 c1].
    cbn [fst snd] in H.
    destruct (get_yield_by_protocol CACHE_TIMEOUT p2 5 w2 c1) as [y2 c2].
    cbn [fst snd] in H. now rewrite H.
Qed.

(** C6 as stated fails for [compare]: with both fetches failing it
    answers a dict, not [None]; and when its [try] block raises (an APY
    shown as "N/A" does not read back as a number) it answers the error
    dict. *)
Lemma comparison_never_absent :
  fst (get_yield_comparison 300 "aave" "compound" failing failing ∅)
  = Some (Compared {| protocol1 := "aave"; protocol1_avg_apy := "0.00%";
                      protocol1_pools := 0;
                      protocol2 := "compound"; protocol2_avg_apy := "0.00%";
                      protocol2_pools := 0;
                      difference := "0.00%"; winner := "compound" |})
  /\ fst (get_yield_comparison 300 "aave" "compound" failing failing ∅) <> None
  /\ fst (get_yield_comparison 300 "aave" "compound"
            (answering null_apy_pools) (answering null_apy_pools) ∅)
     = Some (CompareError "aave" "compound" ValueError).
Proof.
  split; [vm_compute; reflexivity|]. split; [vm_compute; discriminate|].
  vm_compute. reflexivity.
Qed.

(* ================================================================== *)
(** * Further properties: the protocol and chain listings *)
(* ================================================================== *)

Section Listings.

Variable CACHE_TIMEOUT : Q.

Lemma protocol_keep_true name p :
  protocol_keep name p = Ret true ->
  exists s, get_or (pool_project p) (PStr "") = PStr s /\ lower s = lower name.
Proof.
  unfold protocol_keep. destruct (get_or (pool_project p) (PStr "")) as [| | | |s];
    cbn [py_lower mbind exc_bind mret exc_ret]; try discriminate.
  intros [= H]. apply String.eqb_eq in H. now exists s.
Qed.

Lemma chain_keep_true name p :
  chain_keep name p = Ret true ->
  exists s, get_or (pool_chain p) (PStr "") = PStr s /\ lower s = lower name.
Proof.
  unfold chain_keep. destruct (get_or (pool_chain p) (PStr "")) as [| | | |s];
    cbn [py_lower mbind exc_bind mret exc_ret]; try discriminate.
  intros [= H]. apply String.eqb_eq in H. now exists s.
Qed.

(** Filter, sort and cut, for any filter of the listings. *)
Lemma kept_sorted_cut (keep : pool -> exc bool) limit pools top :
  (kept ← filter_exc keep pools;
   sorted_pools ← sorted_desc apy_key kept;
   mret (slice_to limit sorted_pools)) = Ret top ->
  incl top pools
  /\ Forall (fun p => keep p = Ret true) top
  /\ descending apy_key top
  /\ (0 <= limit -> Z.of_nat (length top) <= limit).
Proof.
  intros H.
  destruct (filter_exc keep pools) as [e|filtered] eqn:Ef;
    cbn [mbind exc_bind] in H; try discriminate.
  destruct (sorted_desc apy_key filtered) as [e|sorted_pools] eqn:Es;
    cbn [mbind exc_bind] in H; try discriminate.
  injection H as <-.
  destruct (filter_exc_spec _ _ _ Ef) as [Hkeep Hincl].
  pose proof (sorted_desc_perm _ _ _ Es) as Hperm.
  assert (Hin : incl (slice_to limit sorted_pools) filtered).
  { intros x Hx. apply (Permutation_in _ (Permutation_sym Hperm)).
    now apply (slice_to_incl limit sorted_pools). }
  split; [|split; [|split]].
  - intros x Hx. auto.
  - rewrite List.Forall_forall in *. auto.
  - apply slice_to_sorted. now apply sorted_desc_sorted with filtered.
  - now apply slice_to_length.
Qed.



End Listings.



(* ================================================================== *)
(** * Further properties: the answer is the top of the listing *)
(* ================================================================== *)

Section TopOfListing.

Lemma filter_exc_complete {A} (keep : A -> exc bool) l r x :
  filter_exc keep l = Ret r -> In x l -> keep x = Ret true -> In x r.
Proof.
  revert r. induction l as [|y l IH]; simpl; intros r H Hin Hk; [easy|].
  destruct (keep y) as [e|k] eqn:E; cbn [mbind exc_bind] in H; try discriminate.
  destruct (filter_exc keep l) as [e|r'] eqn:E'; cbn [mbind exc_bind] in H;
    try discriminate.
  injection H as <-. destruct Hin as [->|Hin].
  - rewrite Hk in E. injection E as <-. now left.
  - specialize (IH _ eq_refl Hin Hk). destruct k; [now right|exact IH].
Qed.

Lemma strongly_sorted_app {A} (R : A -> A -> Prop) (a b : list A) :
  StronglySorted R (a ++ b) ->
  forall y, In y b -> Forall (fun x => R x y) a.
Proof.
  induction a as [|x a IH]; simpl; intros Hs y Hy; [constructor|].
  apply StronglySorted_inv in Hs as [Hs Hx]. constructor.
  - rewrite List.Forall_forall in Hx. apply Hx. apply in_or_app. now right.
  - now apply IH.
Qed.

Lemma slice_to_split {A} (n : Z) (l : list A) :
  0 <= n ->
  exists rest, l = (slice_to n l ++ rest)%list
               /\ (rest <> [] -> Z.of_nat (length (slice_to n l)) = n).
Proof.
  intros Hn. unfold slice_to. rewrite (proj2 (Z.leb_le 0 n) Hn).
  exists (skipn (Z.to_nat n) l). split; [now rewrite firstn_skipn|].
  intros Hne. rewrite length_firstn.
  assert (Z.to_nat n < length l)%nat.
  { destruct (Nat.lt_ge_cases (Z.to_nat n) (length l)) as [H|H]; [exact H|].
    exfalso. apply Hne. now apply skipn_all2. }
  lia.
Qed.

(** Filter, sort and cut leave out a pool that passes the filter only
    when the cut is full, and then nothing kept stands below it. *)
Lemma kept_sorted_cut_top (keep : pool -> exc bool) limit pools top :
  (kept ← filter_exc keep pools;
   sorted_pools ← sorted_desc apy_key kept;
   mret (slice_to limit sorted_pools)) = Ret top ->
  0 <= limit ->
  forall p, In p pools -> keep p = Ret true ->
    In p top
    \/ (Z.of_nat (length top) = limit
        /\ Forall (fun q => not_below apy_key q p) top).
Proof.
  intros H Hlimit p Hin Hk.
  destruct (filter_exc keep pools) as [e|filtered] eqn:Ef;
    cbn [mbind exc_bind] in H; try discriminate.
  destruct (sorted_desc apy_key filtered) as [e|sorted_pools] eqn:Es;
    cbn [mbind exc_bind] in H; try discriminate.
  injection H as <-.
  pose proof (filter_exc_complete _ _ _ _ Ef Hin Hk) as Hf.
  pose proof (Permutation_in _ (sorted_desc_perm _ _ _ Es) Hf) as Hsorted.
  pose proof (sorted_desc_sorted _ _ _ Es) as Hss.
  destruct (slice_to_split limit sorted_pools Hlimit) as (rest & E & Hfull).
  rewrite E in Hsorted, Hss. apply in_app_or in Hsorted as [Hs|Hr];
    [now left|right].
  split.
  - apply Hfull. intros ->. destruct Hr.
  - now apply (strongly_sorted_app _ _ _ Hss).
Qed.

Lemma top_keep_passes min_tvl chain p :
  top_keep min_tvl chain p = Ret true <-> passes_top min_tvl chain p.
Proof.
  split; [apply top_keep_true|].
  intros ((tvl & Htvl & Hle) & Hchain). unfold top_keep.
  rewrite (py_lt_num _ _ tvl (inject_Z min_tvl) (numval_self _ _ Htvl)
             (numval_int min_tvl)).
  apply Qltb_ge in Hle. rewrite Hle. cbn [mbind exc_bind].
  destruct chain as [s|]; [|reflexivity].
  destruct (String.eqb s "") eqn:Es; cbn [chain_given negb andb];
    rewrite Es; [reflexivity|]. cbn [negb andb].
  apply String.eqb_neq in Es. rewrite (Hchain s eq_refl Es).
  cbn [get_or str_chain py_eq]. now rewrite String.eqb_refl.
Qed.

End TopOfListing.

(** A non-empty answer of [get_top_yields] that was read from the
    listing is the top of it: a listed pool that passes the filter is
    missing from the answer only when the answer holds [limit] records,
    and then no pool of the answer has an APY below that pool's. *)
Theorem top_yields_are_the_top
    (CACHE_TIMEOUT : Q) (limit min_tvl : Z) (chain : option string)
    (w : world listing) (c : gmap string entry) (rs : list yield_record) :
  0 <= limit ->
  cache_miss (top_yields_key limit min_tvl chain) w c ->
  fst (get_top_yields CACHE_TIMEOUT limit min_tvl chain w c) = CYields rs ->
  rs <> [] ->
  exists top,
    Forall2 (fun p r => top_record p = Ret r) top rs
    /\ forall p, In p (listed w) -> passes_top min_tvl chain p ->
         In p top
         \/ (Z.of_nat (length rs) = limit
             /\ Forall (fun q => not_below apy_key q p) top).
Proof.
  intros Hlimit Hmiss. unfold get_top_yields.
  destruct (cache_miss_split _ _ _ Hmiss) as (cd & c1 & -> & ->).
  unfold top_yields_fetch, top_yields_try, listed, listed_in.
  destruct (upstream w) as [|status body]; [intros [= <-]; easy|].
  destruct (status =? 200); [|intros [= <-]; easy].
  destruct body as [data|]; cbn [json mbind exc_bind]; [|intros [= <-]; easy].
  destruct (top_pools limit min_tvl chain (pools_of data)) as [e|top] eqn:Et;
    cbn [mbind exc_bind]; [intros [= <-]; easy|].
  destruct (map_exc top_record top) as [e|rs'] eqn:Er;
    cbn [mbind exc_bind mret exc_ret fst]; [intros [= <-]; easy|].
  intros [= ->] _. pose proof (map_exc_Forall2 _ _ _ Er) as HF.
  exists top. split; [exact HF|]. intros p Hin Hp.
  rewrite <- (Forall2_length_eq _ _ _ HF).
  apply (kept_sorted_cut_top _ _ _ _ Et Hlimit p Hin).
  now apply top_keep_passes.
Qed.

Lemma top_yields_are_the_top_witness :
  exists rs top,
    fst (get_top_yields 300 2 1000000 None (answering three_pools) ∅)
    = CYields rs
    /\ rs <> []
    /\ Forall2 (fun p r => top_record p = Ret r) top rs
    /\ (In whale top
        \/ (Z.of_nat (length rs) = 2
            /\ Forall (fun q => not_below apy_key q whale) top)).
Proof.
  assert (H1 : 0 <= 2) by lia.
  assert (H2 : cache_miss (top_yields_key 2 1000000 None)
                 (answering three_pools) ∅) by (vm_compute; reflexivity).
  assert (H3 : { rs | fst (get_top_yields 300 2 1000000 None
                             (answering three_pools) ∅) = CYields rs
                      /\ rs <> [] }).
  { eexists. split; [vm_compute; reflexivity|discriminate]. }
  destruct H3 as (rs & E & Hne).
  destruct (top_yields_are_the_top 300 2 1000000 None (answering three_pools)
              ∅ rs H1 H2 E Hne) as (top & HF & Htop).
  exists rs, top. repeat split; try assumption.
  apply Htop.
  - right. now left.
  - split.
    + eexists. split; [reflexivity|]. discriminate.
    + discriminate.
Defined.

(* ================================================================== *)
(** * Further properties: what the operations do to the cache *)
(* ================================================================== *)

Section CacheUse.

Variable CACHE_TIMEOUT : Q.

Lemma same_elsewhere_refl key c : same_elsewhere key c c.
Proof. intros k _. reflexivity. Qed.

Lemma same_elsewhere_trans key c1 c2 c3 :
  same_elsewhere key c1 c2 -> same_elsewhere key c2 c3 ->
  same_elsewhere key c1 c3.
Proof. intros H1 H2 k Hk. rewrite (H2 k Hk). now apply H1. Qed.

Lemma same_elsewhere_get key now c :
  same_elsewhere key c (snd (get_cached_result key now c)).
Proof.
  unfold get_cached_result. destruct (c !! key) as [e|];
    [|apply same_elsewhere_refl].
  destruct (Qltb now (expires e)); [apply same_elsewhere_refl|].
  intros k Hk. simpl. now apply lookup_delete_ne.
Qed.

Lemma same_elsewhere_store key v timeout now c :
  same_elsewhere key c (cache_result key v timeout now c).
Proof. intros k Hk. apply cache_result_lookup_ne. congruence. Qed.

Ltac after_lookup key w c :=
  pose proof (same_elsewhere_get key (now_lookup w) c) as Hget;
  destruct (get_cached_result key (now_lookup w) c) as [cached_data c1];
  simpl in Hget; destruct (cache_hit cached_data); [exact Hget|];
  apply (same_elsewhere_trans _ _ _ _ Hget).

Ltac through_try E :=
  repeat (match type of E with
          | (?m ≫= _) = _ =>
              destruct m; cbn [mbind exc_bind] in E; [discriminate|]
          end);
  injection E as <- <-; apply same_elsewhere_store.

(** An operation reads and writes the cache under its own key only:
    every other entry is after the call what it was before. *)
Theorem operations_keep_other_entries :
  (forall limit min_tvl chain (w : world listing) c,
      same_elsewhere (top_yields_key limit min_tvl chain) c
        (snd (get_top_yields CACHE_TIMEOUT limit min_tvl chain w c)))
  /\ (forall name limit (w : world listing) c,
      same_elsewhere (protocol_key name limit) c
        (snd (get_yield_by_protocol CACHE_TIMEOUT name limit w c)))
  /\ (forall name limit (w : world listing) c,
      same_elsewhere (chain_key name limit) c
        (snd (get_yield_by_chain CACHE_TIMEOUT name limit w c)))
  /\ (forall token_id (w : world (option simple_price)) c,
      same_elsewhere (token_price_key token_id) c
        (snd (get_token_price token_id w c)))
  /\ (forall (w : world (list coin)) c,
      same_elsewhere market_key c (snd (get_market_sentiment w c)))
  /\ (forall token_id (w : world coin_detail) c,
      same_elsewhere (token_sentiment_key token_id) c
        (snd (get_token_sentiment token_id w c)))
  /\ (forall token_id (w : world coin_detail) c,
      same_elsewhere (token_sentiment_key token_id) c
        (snd (get_trading_signals token_id w c)))
  /\ (forall token_id (w1 w2 : world coin_detail) c,
      same_elsewhere (token_sentiment_key token_id) c
        (snd (get_yield_entry_recommendation token_id w1 w2 c))).
Proof.
  assert (Htoken : forall token_id (w : world coin_detail) c,
             same_elsewhere (token_sentiment_key token_id) c
               (snd (get_token_sentiment token_id w c))).
  { intros. unfold get_token_sentiment.
    after_lookup (token_sentiment_key token_id) w c.
    unfold token_sentiment_fetch.
    destruct (token_sentiment_try token_id w c1) as [e|[r c2]] eqn:E;
      [apply same_elsewhere_refl|].
    unfold token_sentiment_try in E.
    destruct (upstream w) as [|status body]; [discriminate|].
    destruct (status =? 200);
      [|injection E as <- <-; apply same_elsewhere_refl].
    through_try E. }
  assert (Hsignals : forall token_id (w : world coin_detail) c,
             same_elsewhere (token_sentiment_key token_id) c
               (snd (get_trading_signals token_id w c))).
  { intros. unfold get_trading_signals. specialize (Htoken token_id w c).
    destruct (get_token_sentiment token_id w c) as [token_data c1].
    destruct token_data as [td|]; [|exact Htoken].
    destruct (negb (cached_truthy td)); [exact Htoken|].
    destruct (trading_signals_try td); exact Htoken. }
  repeat apply conj.
  - intros. unfold get_top_yields.
    after_lookup (top_yields_key limit min_tvl chain) w c.
    unfold top_yields_fetch.
    destruct (top_yields_try _ _ _ _ w c1) as [e|[r c2]] eqn:E;
      [apply same_elsewhere_refl|].
    unfold top_yields_try in E.
    destruct (upstream w) as [|status body]; [discriminate|].
    destruct (status =? 200);
      [|injection E as <- <-; apply same_elsewhere_refl].
    through_try E.
  - intros. unfold get_yield_by_protocol.
    after_lookup (protocol_key name limit) w c.
    unfold yield_by_protocol_fetch.
    destruct (yield_by_protocol_try _ _ _ w c1) as [e|[r c2]] eqn:E;
      [apply same_elsewhere_refl|].
    unfold yield_by_protocol_try in E.
    destruct (upstream w) as [|status body]; [discriminate|].
    destruct (status =? 200);
      [|injection E as <- <-; apply same_elsewhere_refl].
    through_try E.
  - intros. unfold get_yield_by_chain.
    after_lookup (chain_key name limit) w c.
    unfold yield_by_chain_fetch.
    destruct (yield_by_chain_try _ _ _ w c1) as [e|[r c2]] eqn:E;
      [apply same_elsewhere_refl|].
    unfold yield_by_chain_try in E.
    destruct (upstream w) as [|status body]; [discriminate|].
    destruct (status =? 200);
      [|injection E as <- <-; apply same_elsewhere_refl].
    through_try E.
  - intros. unfold get_token_price.
    after_lookup (token_price_key token_id) w c.
    unfold token_price_fetch, token_price_try.
    destruct (upstream w) as [|status body]; [apply same_elsewhere_refl|].
    destruct (status =? 200); [|apply same_elsewhere_refl].
    destruct body as [[token_data|]|]; cbn [json mbind exc_bind mret exc_ret snd];
      try apply same_elsewhere_refl.
    apply same_elsewhere_store.
  - intros. unfold get_market_sentiment.
    after_lookup market_key w c.
    unfold market_sentiment_fetch.
    destruct (market_sentiment_try w c1) as [e|[r c2]] eqn:E;
      [apply same_elsewhere_refl|].
    unfold market_sentiment_try in E.
    destruct (upstream w) as [|status body]; [discriminate|].
    destruct (status =? 200);
      [|injection E as <- <-; apply same_elsewhere_refl].
    through_try E.
  - exact Htoken.
  - exact Hsignals.
  - intros. unfold get_yield_entry_recommendation.
    specialize (Htoken token_id w1 c).
    destruct (get_token_sentiment token_id w1 c) as [token_data c1].
    specialize (Hsignals token_id w2 c1).
    destruct (get_trading_signals token_id w2 c1) as [trading_signals c2].
    simpl in Htoken, Hsignals.
    assert (H : same_elsewhere (token_sentiment_key token_id) c c2)
      by now apply same_elsewhere_trans with c1.
    destruct token_data as [td|], trading_signals as [ts|]; try exact H.
    destruct (negb (cached_truthy td)); [exact H|].
    destruct (entry_recommendation_try td ts); exact H.
Qed.

(** What [get_top_yields] fetched and found not empty, it serves again
    to every call with the same arguments that looks the cache up before
    [CACHE_TIMEOUT] seconds have passed since the store, whatever the
    upstream answers then, and the cache stays as it is. *)
Theorem top_yields_served_from_cache
    (limit min_tvl : Z) (chain : option string) (w1 w2 : world listing)
    (c : gmap string entry) (rs : list yield_record) :
  cache_miss (top_yields_key limit min_tvl chain) w1 c ->
  fst (get_top_yields CACHE_TIMEOUT limit min_tvl chain w1 c) = CYields rs ->
  rs <> [] ->
  (now_lookup w2 < now_store w1 + CACHE_TIMEOUT)%Q ->
  get_top_yields CACHE_TIMEOUT limit min_tvl chain w2
    (snd (get_top_yields CACHE_TIMEOUT limit min_tvl chain w1 c))
  = (CYields rs, snd (get_top_yields CACHE_TIMEOUT limit min_tvl chain w1 c)).
Proof.
  intros Hmiss. unfold get_top_yields at 1 3 4.
  destruct (cache_miss_split _ _ _ Hmiss) as (cd & c1 & -> & ->).
  unfold top_yields_fetch, top_yields_try.
  destruct (upstream w1) as [|status body]; [intros [= <-]; easy|].
  destruct (status =? 200); [|intros [= <-]; easy].
  destruct body as [payload|]; cbn [json mbind exc_bind];
    [|intros [= <-]; easy].
  destruct (top_pools limit min_tvl chain (pools_of payload)) as [e|top];
    cbn [mbind exc_bind]; [intros [= <-]; easy|].
  destruct (map_exc top_record top) as [e|rs'];
    cbn [mbind exc_bind mret exc_ret fst snd]; [intros [= <-]; easy|].
  intros [= ->] Hne Hlt. unfold get_top_yields.
  rewrite (get_cached_live _ _ _ _ (cache_result_lookup _ _ _ _ _));
    [|exact Hlt].
  cbn [data cache_hit]. destruct rs; [easy|reflexivity].
Qed.

Lemma token_sentiment_miss_cases token_id (w : world coin_detail) c :
  cache_miss (token_sentiment_key token_id) w c ->
  fst (get_token_sentiment token_id w c) = None
  \/ exists result c1,
       get_token_sentiment token_id w c
       = (Some (CToken result),
          cache_result (token_sentiment_key token_id) (CToken result)
            1800 (now_store w) c1).
Proof.
  intros Hmiss. unfold get_token_sentiment.
  destruct (cache_miss_split _ _ _ Hmiss) as (cd & c1 & -> & ->).
  unfold token_sentiment_fetch, token_sentiment_try.
  destruct (upstream w) as [|status body]; [now left|].
  destruct (status =? 200); [|now left].
  destruct body as [payload|]; cbn [json mbind exc_bind]; [|now left].
  destruct (token_record_of payload) as [e|result];
    cbn [mbind exc_bind mret exc_ret fst snd]; [now left|].
  right. now exists result, c1.
Qed.

Lemma trading_signals_from_cache token_id (w : world coin_detail) c e :
  c !! token_sentiment_key token_id = Some e ->
  (now_lookup w < expires e)%Q ->
  cached_truthy (data e) = true ->
  get_trading_signals token_id w c
  = (match trading_signals_try (data e) with
     | Ret r => Some r
     | Raise _ => None
     end, c).
Proof.
  intros Hin Hlt Ht. unfold get_trading_signals, get_token_sentiment.
  rewrite (get_cached_live _ _ _ _ Hin Hlt). cbn [cache_hit].
  rewrite !Ht. cbn [negb]. now destruct (trading_signals_try (data e)).
Qed.

(** A recommendation rests on one snapshot of the token: when the first
    sentiment lookup misses the cache, the second one, made inside
    [get_trading_signals] within the 1800 seconds an entry lives, never
    reaches the upstream, so what the upstream would answer then has no
    influence on the recommendation. *)
Theorem entry_recommendation_uses_one_snapshot
    (token_id : string) (w1 w2 w2' : world coin_detail)
    (c : gmap string entry) :
  cache_miss (token_sentiment_key token_id) w1 c ->
  now_lookup w2' = now_lookup w2 ->
  (now_lookup w2 < now_store w1 + 1800)%Q ->
  fst (get_yield_entry_recommendation token_id w1 w2 c)
  = fst (get_yield_entry_recommendation token_id w1 w2' c).
Proof.
  intros Hmiss Hsame Hlt. unfold get_yield_entry_recommendation.
  destruct (token_sentiment_miss_cases _ _ _ Hmiss)
    as [Hnone|(result & c1 & ->)].
  - destruct (get_token_sentiment token_id w1 c) as [token_data c1].
    simpl in Hnone. subst token_data.
    destruct (get_trading_signals token_id w2 c1) as [s1 c2].
    destruct (get_trading_signals token_id w2' c1) as [s2 c2'].
    now destruct s1, s2.
  - pose proof (cache_result_lookup (token_sentiment_key token_id)
                  (CToken result) 1800 (now_store w1) c1) as Hin.
    rewrite (trading_signals_from_cache token_id w2 _ _ Hin Hlt eq_refl).
    rewrite <- Hsame in Hlt.
    rewrite (trading_signals_from_cache token_id w2' _ _ Hin Hlt eq_refl).
    reflexivity.
Qed.

End CacheUse.

Lemma top_yields_served_from_cache_witness :
  exists rs,
    rs <> []
    /\ get_top_yields 300 2 1000000 None failing
         (snd (get_top_yields 300 2 1000000 None (answering three_pools) ∅))
       = (CYields rs,
          snd (get_top_yields 300 2 1000000 None (answering three_pools) ∅)).
Proof.
  assert (H1 : cache_miss (top_yields_key 2 1000000 None)
                 (answering three_pools) ∅) by (vm_compute; reflexivity).
  assert (H2 : { rs | fst (get_top_yields 300 2 1000000 None
                             (answering three_pools) ∅) = CYields rs
                      /\ rs <> [] }).
  { eexists. split; [vm_compute; reflexivity|discriminate]. }
  destruct H2 as (rs & E & Hne).
  assert (H3 : (now_lookup (@failing listing)
                < now_store (answering three_pools) + 300)%Q)
    by (vm_compute; reflexivity).
  exists rs. split; [exact Hne|].
  exact (top_yields_served_from_cache 300 2 1000000 None
           (answering three_pools) failing ∅ rs H1 E Hne H3).
Defined.

Lemma entry_recommendation_uses_one_snapshot_witness :
  fst (get_yield_entry_recommendation "ethereum" (answering dipping_token)
         failing ∅)
  = fst (get_yield_entry_recommendation "ethereum" (answering dipping_token)
           (answering sliding_token) ∅).
Proof.
  apply entry_recommendation_uses_one_snapshot.
  - vm_compute; reflexivity.
  - reflexivity.
  - vm_compute; reflexivity.
Defined.

(* ================================================================== *)
(** * Further properties: numbers shown and read back *)
(* ================================================================== *)

Section ReadBack.

Lemma round_half_even_close x :
  (Qabs (inject_Z (round_half_even x) - x) <= 1 # 2)%Q.
Proof.
  pose proof (Qfloor_le x) as Hlo. pose proof (Qlt_floor x) as Hhi.
  rewrite inject_Z_plus in Hhi. change (inject_Z 1) with 1%Q in Hhi.
  apply Qabs_Qle_condition. unfold round_half_even.
  destruct (Qcompare_spec (x - inject_Z (Qfloor x)) (1 # 2)) as [E|E|E].
  - destruct (Z.even (Qfloor x)).
    + split; lra.
    + rewrite inject_Z_plus. change (inject_Z 1) with 1%Q. split; lra.
  - split; lra.
  - rewrite inject_Z_plus. change (inject_Z 1) with 1%Q. split; lra.
Qed.

Lemma shown_value_close q : (Qabs (shown_value q - q) <= 1 # 200)%Q.
Proof.
  rewrite shown_value_hundredths.
  pose proof (round_half_even_close (Qabs q * 100)) as H.
  apply Qabs_Qle_condition in H. apply Qabs_Qle_condition.
  set (m := round_half_even (Qabs q * 100)) in *.
  rewrite (Qmake_Qdiv m 100). change (inject_Z (Z.pos 100)) with 100%Q.
  assert (Hq : (Qabs q == if Qltb q 0 then - q else q)%Q).
  { destruct (Qltb q 0) eqn:E.
    - apply Qltb_lt in E. apply Qabs_neg. lra.
    - apply Qltb_ge in E. now apply Qabs_pos. }
  clearbody m. set (k := inject_Z m) in *. clearbody k.
  set (a := Qabs q) in *. clearbody a. destruct H as [H1 H2].
  unfold Qdiv. change (/ 100)%Q with (1 # 100)%Q.
  destruct (Qltb q 0); split; lra.
Qed.



End ReadBack.

(* ================================================================== *)
(** * Further properties: the signals and the decision drawn from them *)
(* ================================================================== *)

Section SignalShape.

Lemma trading_signals_try_names token_data r :
  trading_signals_try token_data = Ret r ->
  exists c24 c7 c30,
    map sg_signal (ts_signals r) = expected_signals c24 c7 c30.
Proof.
  unfold trading_signals_try. intros H.
  destruct (as_token token_data) as [e|td]; cbn [mbind exc_bind] in H;
    [discriminate|].
  destruct (float_of_percentage (tk_change_24h td)) as [e|c24];
    cbn [mbind exc_bind] in H; [discriminate|].
  destruct (float_of_percentage (tk_change_7d td)) as [e|c7];
    cbn [mbind exc_bind] in H; [discriminate|].
  destruct (float_of_percentage (tk_change_30d td)) as [e|c30];
    cbn [mbind exc_bind mret exc_ret] in H; [discriminate|].
  injection H as <-. exists c24, c7, c30. cbn [ts_signals].
  set (signals := (short_term _ _ ++ medium_term _ _ _ _ ++ long_term _ _)%list).
  assert (Hn : map sg_signal signals = fired_rules c24 c7 c30).
  { unfold signals, fired_rules. rewrite !map_app.
    now rewrite short_term_names, medium_term_names, long_term_names. }
  unfold expected_signals. rewrite <- Hn. now destruct signals.
Qed.

Lemma get_trading_signals_try token_id (w : world coin_detail) c r :
  fst (get_trading_signals token_id w c) = Some r ->
  exists token_data, trading_signals_try token_data = Ret r.
Proof.
  unfold get_trading_signals.
  destruct (get_token_sentiment token_id w c) as [[token_data|] c1];
    [|discriminate].
  destruct (negb (cached_truthy token_data)); [discriminate|].
  destruct (trading_signals_try token_data) as [e|r0] eqn:E; [discriminate|].
  intros [= ->]. now exists token_data.
Qed.

Ltac settle_names :=
  cbn [In app length];
  repeat split; try lia;
  try (repeat (apply List.NoDup_cons || apply List.NoDup_nil);
       cbn [In]; intuition discriminate);
  intuition (try discriminate; try congruence).

Lemma expected_signals_shape c24 c7 c30 :
  let names := expected_signals c24 c7 c30 in
  (length names <= 3)%nat
  /\ List.NoDup names
  /\ (In "neutral" names -> names = ["neutral"])
  /\ (In "buy_dip" names -> ~ In "buy" names /\ ~ In "strong_buy" names)
  /\ (In "sell_rally" names -> ~ In "sell" names /\ ~ In "strong_sell" names).
Proof.
  unfold expected_signals, fired_rules, short_term_rule, divergence_rule,
    extremum_rule.
  repeat (destruct (Qlt_le_dec _ _)); try lra; settle_names.
Qed.

(** Whatever [get_trading_signals] returns, its list holds at most three
    signals, no signal twice, the neutral signal only when it is alone,
    and no contradiction between the 24h signal and the 7d one: a
    [buy_dip] never comes with [buy] or [strong_buy], a [sell_rally]
    never with [sell] or [strong_sell]. *)
Theorem trading_signals_are_consistent
    (token_id : string) (w : world coin_detail) (c : gmap string entry)
    (r : signals_record) :
  fst (get_trading_signals token_id w c) = Some r ->
  let names := map sg_signal (ts_signals r) in
  (length (ts_signals r) <= 3)%nat
  /\ List.NoDup names
  /\ (In "neutral" names -> names = ["neutral"])
  /\ (In "buy_dip" names -> ~ In "buy" names /\ ~ In "strong_buy" names)
  /\ (In "sell_rally" names -> ~ In "sell" names /\ ~ In "strong_sell" names).
Proof.
  intros H. destruct (get_trading_signals_try _ _ _ _ H) as (token_data & E).
  destruct (trading_signals_try_names _ _ E) as (c24 & c7 & c30 & Hn).
  cbv zeta. rewrite <- (length_map sg_signal), Hn.
  apply expected_signals_shape.
Qed.

Lemma trading_signals_are_consistent_witness :
  exists r,
    fst (get_trading_signals "ethereum" (answering dipping_token) ∅) = Some r
    /\ (length (ts_signals r) <= 3)%nat
    /\ (In "buy_dip" (map sg_signal (ts_signals r)) ->
        ~ In "buy" (map sg_signal (ts_signals r))
        /\ ~ In "strong_buy" (map sg_signal (ts_signals r))).
Proof.
  assert (H : { r | fst (get_trading_signals "ethereum"
                           (answering dipping_token) ∅) = Some r })
    by (eexists; vm_compute; reflexivity).
  destruct H as [r H]. exists r. split; [exact H|].
  destruct (trading_signals_are_consistent "ethereum"
              (answering dipping_token) ∅ r H) as (H1 & _ & _ & H4 & _).
  split; [exact H1|exact H4].
Defined.

End SignalShape.

Section Decision.

Lemma bullish_not_bearish sentiment :
  is_in sentiment ["bullish"; "very bullish"] = true ->
  is_in sentiment ["bearish"; "very bearish"] = false.
Proof.
  cbn [is_in existsb]. rewrite !orb_false_r. intros H.
  apply orb_true_iff in H. destruct H as [H|H]; apply String.eqb_eq in H;
    subst sentiment; reflexivity.
Qed.

Lemma buy_rule_fields signals r :
  let buy := has_signal "strong_buy" signals || has_signal "buy" signals
             || has_signal "buy_dip" signals in
  enter_now (buy_rule signals r) = buy || enter_now r
  /\ confidence (buy_rule signals r) = (if buy then "medium" else confidence r)
  /\ reasoning (buy_rule signals r)
     = (reasoning r
        ++ if buy then ["Positive short or medium-term signals detected"]
           else [])%list.
Proof.
  unfold buy_rule. cbv zeta.
  destruct (has_signal "strong_buy" signals || has_signal "buy" signals
            || has_signal "buy_dip" signals); cbn [enter_now confidence reasoning orb];
    repeat split; now rewrite ?app_nil_r.
Qed.

Lemma accumulate_rule_fields signals r :
  let acc := has_signal "accumulate" signals in
  enter_now (accumulate_rule signals r) = acc || enter_now r
  /\ confidence (accumulate_rule signals r)
     = (if acc then "high" else confidence r)
  /\ reasoning (accumulate_rule signals r)
     = (reasoning r
        ++ if acc
           then ["Token is in accumulation zone, good for yield positions"]
           else [])%list.
Proof.
  unfold accumulate_rule. cbv zeta.
  destruct (has_signal "accumulate" signals);
    cbn [enter_now confidence reasoning orb];
    repeat split; now rewrite ?app_nil_r.
Qed.

Lemma sentiment_rule_fields sentiment r :
  let bullish := is_in sentiment ["bullish"; "very bullish"] in
  let bearish := is_in sentiment ["bearish"; "very bearish"] in
  enter_now (sentiment_rule sentiment r)
  = (if bullish then enter_now r else if bearish then false else enter_now r)
  /\ confidence (sentiment_rule sentiment r)
     = (if bullish then (if enter_now r then "high" else confidence r)
        else if bearish then "high" else confidence r)
  /\ length (reasoning (sentiment_rule sentiment r))
     = (length (reasoning r)
        + if bullish || bearish then 1 else 0)%nat.
Proof.
  unfold sentiment_rule. cbv zeta.
  destruct (is_in sentiment ["bullish"; "very bullish"]);
    [|destruct (is_in sentiment ["bearish"; "very bearish"])];
    cbn [enter_now confidence reasoning orb];
    rewrite ?length_app; cbn [length]; repeat split; lia.
Qed.

Lemma default_rule_fields r :
  enter_now (default_rule r) = enter_now r
  /\ confidence (default_rule r) = confidence r
  /\ length (reasoning (default_rule r)) = Nat.max 1 (length (reasoning r)).
Proof.
  unfold default_rule. destruct (reasoning r) as [|x l] eqn:E;
    cbn [enter_now confidence reasoning]; rewrite ?E; repeat split.
Qed.

Lemma get_entry_recommendation_try token_id (w1 w2 : world coin_detail) c r :
  fst (get_yield_entry_recommendation token_id w1 w2 c) = Some r ->
  exists token_data ts,
    fst (get_token_sentiment token_id w1 c) = Some token_data
    /\ fst (get_trading_signals token_id w2
              (snd (get_token_sentiment token_id w1 c))) = Some ts
    /\ entry_recommendation_try token_data ts = Ret r.
Proof.
  unfold get_yield_entry_recommendation.
  destruct (get_token_sentiment token_id w1 c) as [token_data c1].
  cbn [fst snd].
  destruct (get_trading_signals token_id w2 c1) as [trading_signals c2].
  cbn [fst snd].
  destruct token_data as [td|], trading_signals as [ts|]; try discriminate.
  destruct (negb (cached_truthy td)); [discriminate|].
  destruct (entry_recommendation_try td ts) as [e|r0] eqn:E; [discriminate|].
  intros [= ->]. now exists td, ts.
Qed.

(** The four rules of [get_yield_entry_recommendation], applied one
    after the other, amount to one table.  With [buy] for one of
    [strong_buy], [buy], [buy_dip] among the signals and [acc] for
    [accumulate]: the recommendation is to enter exactly when [buy] or
    [acc] holds and the sentiment is not (very) bearish; the confidence
    is high under a bearish sentiment, under [acc], and under [buy] with a
    bullish sentiment, medium under [buy] alone, low otherwise; and there
    is always at least one reason, at most three. *)
Theorem entry_recommendation_table
    (token_id : string) (w1 w2 : world coin_detail) (c : gmap string entry)
    (r : recommendation) :
  fst (get_yield_entry_recommendation token_id w1 w2 c) = Some r ->
  exists td ts,
    fst (get_token_sentiment token_id w1 c) = Some (CToken td)
    /\ fst (get_trading_signals token_id w2
              (snd (get_token_sentiment token_id w1 c))) = Some ts
    /\ let buy := has_signal "strong_buy" (ts_signals ts)
                  || has_signal "buy" (ts_signals ts)
                  || has_signal "buy_dip" (ts_signals ts) in
       let acc := has_signal "accumulate" (ts_signals ts) in
       let bullish := is_in (tk_sentiment td) ["bullish"; "very bullish"] in
       let bearish := is_in (tk_sentiment td) ["bearish"; "very bearish"] in
       enter_now r = (buy || acc) && negb bearish
       /\ confidence r
          = (if bearish then "high"
             else if acc then "high"
             else if buy then (if bullish then "high" else "medium")
             else "low")
       /\ reasoning r <> []
       /\ (length (reasoning r) <= 3)%nat.
Proof.
  intros H.
  destruct (get_entry_recommendation_try _ _ _ _ _ H)
    as (token_data & ts & H1 & H2 & E).
  unfold entry_recommendation_try in E.
  destruct token_data as [l|pr|m|td]; cbn [as_token mbind exc_bind] in E;
    try discriminate.
  exists td, ts. split; [exact H1|]. split; [exact H2|].
  cbn [mret exc_ret] in E. injection E as <-.
  match goal with |- context [buy_rule _ ?x] => set (r0 := x) end.
  set (r1 := buy_rule (ts_signals ts) r0).
  set (r2 := accumulate_rule (ts_signals ts) r1).
  set (r3 := sentiment_rule (tk_sentiment td) r2).
  destruct (default_rule_fields r3) as (E4 & C4 & L4).
  destruct (sentiment_rule_fields (tk_sentiment td) r2) as (E3 & C3 & L3).
  destruct (accumulate_rule_fields (ts_signals ts) r1) as (E2 & C2 & L2).
  destruct (buy_rule_fields (ts_signals ts) r0) as (E1 & C1 & L1).
  fold r1 in E1, C1, L1, E2, C2, L2. fold r2 in E2, C2, L2, E3, C3, L3.
  fold r3 in E3, C3, L3.
  apply (f_equal (@length string)) in L1, L2. rewrite length_app in L1, L2.
  pose proof (bullish_not_bearish (tk_sentiment td)) as Hb.
  cbv zeta.
  set (buy := has_signal "strong_buy" (ts_signals ts)
              || has_signal "buy" (ts_signals ts)
              || has_signal "buy_dip" (ts_signals ts)) in *.
  set (acc := has_signal "accumulate" (ts_signals ts)) in *.
  set (bullish := is_in (tk_sentiment td) ["bullish"; "very bullish"]) in *.
  set (bearish := is_in (tk_sentiment td) ["bearish"; "very bearish"]) in *.
  assert (Hlen : (1 <= length (reasoning (default_rule r3)) <= 3)%nat).
  { rewrite L4, L3, L2, L1. change (length (reasoning r0)) with 0%nat.
    destruct bullish; [rewrite (Hb eq_refl)|]; destruct bearish, buy, acc;
      cbn [length orb]; lia. }
  rewrite E4, C4, E3, C3, E2, C2, E1, C1.
  change (enter_now r0) with false. change (confidence r0) with "low".
  split; [|split; [|split; [|apply Hlen]]].
  - clear -Hb. clearbody buy acc bullish bearish.
    destruct bullish; [rewrite (Hb eq_refl)|]; now destruct bearish, buy, acc.
  - clear -Hb. clearbody buy acc bullish bearish.
    destruct bullish; [rewrite (Hb eq_refl)|]; now destruct bearish, buy, acc.
  - intros Heq. rewrite Heq in Hlen. cbn [length] in Hlen. lia.
Qed.

Lemma entry_recommendation_table_witness :
  exists r,
    fst (get_yield_entry_recommendation "uniswap" (answering sliding_token)
           (answering sliding_token) ∅) = Some r
    /\ enter_now r = false /\ confidence r = "high" /\ reasoning r <> [].
Proof.
  assert (H : { r | fst (get_yield_entry_recommendation "uniswap"
                           (answering sliding_token)
                           (answering sliding_token) ∅) = Some r
                    /\ enter_now r = false /\ confidence r = "high" })
    by (eexists; split; [|split]; vm_compute; reflexivity).
  destruct H as (r & H & He & Hc). exists r. split; [exact H|].
  destruct (entry_recommendation_table "uniswap" (answering sliding_token)
              (answering sliding_token) ∅ r H)
    as (td & ts & _ & _ & _ & _ & Hr & _).
  repeat split; assumption.
Defined.

End Decision.

(* ================================================================== *)
(** * Further properties: the risk score *)
(* ================================================================== *)

Section RiskScore.

Lemma risk_formula_mono v v' l l' a a' :
  (v <= v')%Q -> (l' <= l)%Q -> (a' <= a)%Q ->
  (risk_formula v l a <= risk_formula v' l' a')%Q.
Proof.
  intros Hv Hl Ha. unfold risk_formula, clamp.
  apply Q.min_le_compat_l, Q.max_le_compat_l.
  assert (H1 : (Qmin 10 (v * 10) <= Qmin 10 (v' * 10))%Q)
    by (apply Q.min_le_compat_l; lra).
  assert (H2 : (Qmax 0 (10 - l / 1000000) <= Qmax 0 (10 - l' / 1000000))%Q).
  { apply Q.max_le_compat_l. unfold Qdiv.
    change (/ 1000000)%Q with (1 # 1000000)%Q. lra. }
  assert (H3 : (Qmax 0 (10 - a / 30) <= Qmax 0 (10 - a' / 30))%Q).
  { apply Q.max_le_compat_l. unfold Qdiv. change (/ 30)%Q with (1 # 30)%Q. lra. }
  set (x := Qmin 10 (v * 10)) in *. set (x' := Qmin 10 (v' * 10)) in *.
  set (y := Qmax 0 (10 - l / 1000000)) in *.
  set (y' := Qmax 0 (10 - l' / 1000000)) in *.
  set (z := Qmax 0 (10 - a / 30)) in *. set (z' := Qmax 0 (10 - a' / 30)) in *.
  clearbody x x' y y' z z'. lra.
Qed.

Lemma calculate_risk_score_num volatility liquidity protocol_age v l a :
  numval volatility v -> numval liquidity l -> numval protocol_age a ->
  exists r, calculate_risk_score volatility liquidity protocol_age = Ret r
            /\ numval r (risk_formula v l a).
Proof.
  intros Hv Hl Ha.
  destruct (risk_score_body_num _ _ _ _ _ _ Hv Hl Ha) as (r & E & N).
  exists r. split; [|exact N]. unfold calculate_risk_score. now rewrite E.
Qed.



(** The bound the filter of the recommendations puts on a risk score,
    from the two thresholds it applies. *)
Lemma risk_formula_capped (min_tvl : Z) (max_volatility v t : Q) :
  (v <= max_volatility)%Q -> (inject_Z min_tvl <= t)%Q ->
  (risk_formula v t (inject_Z 365)
   <= Qmax 0 (5 * max_volatility
              + (3 # 10) * Qmax 0 (10 - inject_Z min_tvl / 1000000)))%Q.
Proof.
  intros Hv Ht. unfold risk_formula, clamp.
  eapply Qle_trans; [apply Q.le_min_r|]. apply Q.max_le_compat_l.
  assert (H1 : (Qmin 10 (v * 10) <= v * 10)%Q) by apply Q.le_min_r.
  assert (H2 : (Qmax 0 (10 - t / 1000000)
                <= Qmax 0 (10 - inject_Z min_tvl / 1000000))%Q).
  { apply Q.max_le_compat_l. unfold Qdiv.
    change (/ 1000000)%Q with (1 # 1000000)%Q. lra. }
  assert (H3 : (Qmax 0 (10 - inject_Z 365 / 30) == 0)%Q) by reflexivity.
  rewrite H3.
  set (x := Qmin 10 (v * 10)) in *. set (y := Qmax 0 (10 - t / 1000000)) in *.
  set (y' := Qmax 0 (10 - inject_Z min_tvl / 1000000)) in *.
  clearbody x y y'. lra.
Qed.

Lemma risk_cap_table key :
  (Qmax 0 (5 * snd (risk_params key)
           + (3 # 10) * Qmax 0 (10 - inject_Z (fst (risk_params key)) / 1000000))
   == risk_cap key)%Q.
Proof.
  unfold risk_params, risk_cap.
  destruct (String.eqb key "low"); [reflexivity|].
  destruct (String.eqb key "medium") eqn:Em;
    destruct (String.eqb key "high") eqn:Eh; try reflexivity.
  apply String.eqb_eq in Em, Eh. congruence.
Qed.

Lemma recommend_filter_scored params pools r :
  recommend_filter params pools = Ret r ->
  Forall (fun p => exists rs q,
              pool_risk_score p = Some rs /\ num_of rs = Some q
              /\ (0 <= q)%Q
              /\ (q <= Qmax 0 (5 * snd params
                               + (3 # 10)
                                 * Qmax 0 (10 - inject_Z (fst params) / 1000000)))%Q)
    r.
Proof.
  revert r. induction pools as [|p rest IH]; intros r H;
    cbn [recommend_filter] in H.
  - injection H as <-. constructor.
  - destruct (py_lt (tvl_of p) (PInt (fst params))) as [e|[]] eqn:Etvl;
      cbn [mbind exc_bind] in H; try discriminate; [now apply IH|].
    destruct (py_gt (volatility_of p) (PFloat (snd params))) as [e|[]] eqn:Evol;
      cbn [mbind exc_bind] in H; try discriminate; [now apply IH|].
    destruct (py_not_lt_int _ _ Etvl) as (t & Ht & Lt).
    destruct (py_not_gt_float _ _ Evol) as (v & Hv & Lv).
    destruct (calculate_risk_score_num _ _ _ _ _ _ (numval_self _ _ Hv)
                (numval_self _ _ Ht) (numval_int 365))
      as (rs & E & q & Hq & Eq).
    rewrite E in H. cbn [mbind exc_bind] in H.
    destruct (recommend_filter params rest) as [e|r'];
      cbn [mbind exc_bind mret exc_ret] in H; try discriminate.
    injection H as <-. constructor; [|now apply IH].
    exists rs, q. split; [reflexivity|]. split; [exact Hq|].
    rewrite Eq. split.
    + unfold risk_formula. apply clamp_range. discriminate.
    + now apply risk_formula_capped.
Qed.

Lemma recommendations_kept (P : pool -> Prop)
    (risk_tolerance : string) (min_tvl limit : Z) (up : response listing) :
  (forall pools r,
      recommend_filter (risk_params (lower risk_tolerance)) pools = Ret r ->
      Forall P r) ->
  exists pools,
    Forall2 (fun p r => recommend_record p = Ret r) pools
      (get_yield_recommendations risk_tolerance min_tvl limit up)
    /\ Forall P pools.
Proof.
  intros HP. unfold get_yield_recommendations, yield_recommendations_try.
  set (params := risk_params (lower risk_tolerance)) in *.
  assert (Hnil : exists pools : list pool,
             Forall2 (fun p r => recommend_record p = Ret r) pools []
             /\ Forall P pools) by (exists []; split; constructor).
  destruct up as [|status body]; [exact Hnil|].
  destruct (status =? 200); [|exact Hnil].
  destruct body as [payload|]; cbn [json mbind exc_bind]; [|exact Hnil].
  unfold recommend_pools.
  destruct (recommend_filter params (pools_of payload)) as [e|filtered] eqn:Ef;
    cbn [mbind exc_bind]; [exact Hnil|].
  destruct (sorted_desc apy_key filtered) as [e|sorted_pools] eqn:Es;
    cbn [mbind exc_bind mret exc_ret]; [exact Hnil|].
  destruct (map_exc recommend_record (slice_to limit sorted_pools))
    as [e|rs] eqn:Er; [exact Hnil|].
  exists (slice_to limit sorted_pools).
  split; [exact (map_exc_Forall2 _ _ _ Er)|].
  pose proof (Permutation_Forall (sorted_desc_perm _ _ _ Es) (HP _ _ Ef)) as HF.
  rewrite List.Forall_forall in *. intros p Hp. apply HF.
  now apply slice_to_incl in Hp.
Qed.


End RiskScore.

(* ================================================================== *)
(** * Further properties: the market's movers *)
(* ================================================================== *)

Section Movers.

Lemma slice_last_split {A} (n : nat) (l : list A) :
  l = (firstn (length l - n) l ++ slice_last n l)%list.
Proof. unfold slice_last. now rewrite firstn_skipn. Qed.

Lemma slice_last_length {A} (n : nat) (l : list A) :
  length (slice_last n l) = Nat.min n (length l).
Proof. unfold slice_last. rewrite length_skipn. lia. Qed.

Lemma skipn_strongly_sorted {A} (R : A -> A -> Prop) k (l : list A) :
  StronglySorted R l -> StronglySorted R (skipn k l).
Proof.
  revert k. induction l as [|x l IH]; intros [|k] Hs; simpl; try assumption.
  apply IH. now apply StronglySorted_inv in Hs.
Qed.

Lemma firstn_incl_firstn {A} (j k : nat) (l : list A) :
  (j <= k)%nat -> incl (firstn j l) (firstn k l).
Proof.
  intros Hjk x Hx. replace j with (Nat.min j k) in Hx by lia.
  rewrite <- firstn_firstn in Hx.
  rewrite <- (firstn_skipn j (firstn k l)). apply in_or_app. now left.
Qed.

Lemma market_sentiment_fetched (w : world (list coin)) c m :
  cache_miss market_key w c ->
  fst (get_market_sentiment w c) = Some (CMarket m) ->
  exists payload sorted_by_change,
    upstream w = Http 200 (Some payload)
    /\ sorted_desc change_key payload = Ret sorted_by_change
    /\ map_exc mover_of (slice_to 3 sorted_by_change) = Ret (ms_top_gainers m)
    /\ map_exc mover_of (slice_last 3 sorted_by_change)
       = Ret (ms_top_losers m).
Proof.
  intros Hmiss H. unfold get_market_sentiment in H.
  destruct (cache_miss_split _ _ _ Hmiss) as (cd & c1 & E0 & E1).
  rewrite E0, E1 in H. unfold market_sentiment_fetch in H.
  destruct (market_sentiment_try w c1) as [e|[r c2]] eqn:E; [discriminate|].
  cbn [fst] in H. subst r. unfold market_sentiment_try in E.
  destruct (upstream w) as [|status body]; [discriminate|].
  destruct (status =? 200) eqn:Est; [|discriminate].
  apply Z.eqb_eq in Est. subst status.
  destruct body as [payload|]; cbn [json mbind exc_bind] in E; [|discriminate].
  destruct (py_sum (map change_key payload)) as [e|total_change];
    cbn [mbind exc_bind] in E; [discriminate|].
  match type of E with (?a ≫= _) = _ =>
    destruct a as [e|avg_change]; cbn [mbind exc_bind] in E; [discriminate|]
  end.
  destruct (sentiment_label avg_change 5 2) as [e|sentiment];
    cbn [mbind exc_bind] in E; [discriminate|].
  destruct (sorted_desc change_key payload) as [e|sorted_by_change] eqn:Es;
    cbn [mbind exc_bind] in E; [discriminate|].
  destruct (map_exc mover_of (slice_to 3 sorted_by_change)) as [e|gainers] eqn:Eg;
    cbn [mbind exc_bind] in E; [discriminate|].
  destruct (map_exc mover_of (slice_last 3 sorted_by_change)) as [e|losers] eqn:El;
    cbn [mbind exc_bind mret exc_ret] in E; [discriminate|].
  injection E as E _. subst m. now exists payload, sorted_by_change.
Qed.


End Movers.


(* ================================================================== *)
(** * Further properties: the sentiment labels *)
(* ================================================================== *)

Section Labels.

Lemma sentiment_label_num score q strong mild :
  numval score q ->
  exists label, sentiment_label score strong mild = Ret label
                /\ labelled q strong mild label.
Proof.
  intros Hq. unfold sentiment_label, py_gt.
  rewrite (py_lt_num _ _ _ _ (numval_int strong) Hq),
    (py_lt_num _ _ _ _ (numval_int mild) Hq),
    (py_lt_num _ _ _ _ Hq (numval_int (- strong))),
    (py_lt_num _ _ _ _ Hq (numval_int (- mild))).
  cbn [mbind exc_bind].
  destruct (Qltb (inject_Z strong) q) eqn:E1;
    [apply Qltb_lt in E1|apply Qltb_ge in E1].
  { eexists. split; [reflexivity|]. unfold labelled. repeat split; intros; lra. }
  cbn [mbind exc_bind].
  destruct (Qltb (inject_Z mild) q) eqn:E2;
    [apply Qltb_lt in E2|apply Qltb_ge in E2].
  { eexists. split; [reflexivity|]. unfold labelled. repeat split; intros; lra. }
  cbn [mbind exc_bind].
  destruct (Qltb q (inject_Z (- strong))) eqn:E3;
    [apply Qltb_lt in E3|apply Qltb_ge in E3]; rewrite inject_Z_opp in E3.
  { eexists. split; [reflexivity|]. unfold labelled. repeat split; intros; lra. }
  cbn [mbind exc_bind].
  destruct (Qltb q (inject_Z (- mild))) eqn:E4;
    [apply Qltb_lt in E4|apply Qltb_ge in E4]; rewrite inject_Z_opp in E4;
    (eexists; split; [reflexivity|]; unfold labelled; repeat split; intros; lra).
Qed.

Lemma py_sum_from acc a vs qs :
  numval acc a -> Forall2 numval vs qs ->
  exists r,
    fold_left (fun acc v => a ← acc; py_add a v) vs (Ret acc) = Ret r
    /\ numval r (a + sum_of qs).
Proof.
  intros Ha HF. revert acc a Ha.
  induction HF as [|v q vs qs Hv HF IH]; intros acc a Ha.
  - exists acc. split; [reflexivity|]. eapply numval_eq; [exact Ha|].
    simpl. lra.
  - cbn [fold_left mbind exc_bind].
    destruct (py_add_num acc v a q Ha Hv) as (r1 & -> & H1).
    destruct (IH r1 _ H1) as (r & E & Hr). exists r. split; [exact E|].
    eapply numval_eq; [exact Hr|]. simpl. lra.
Qed.

Lemma py_sum_num vs qs :
  Forall2 numval vs qs ->
  exists r, py_sum vs = Ret r /\ numval r (sum_of qs).
Proof.
  intros HF. destruct (py_sum_from (PInt 0) 0 vs qs (numval_int 0) HF)
    as (r & E & Hr).
  exists r. split; [exact E|]. eapply numval_eq; [exact Hr|]. lra.
Qed.

Lemma insert_desc_numeric {A} (key : A -> pyval) x l :
  is_numeric (key x) = true -> Forall (fun y => is_numeric (key y) = true) l ->
  exists r, insert_desc key x l = Ret r.
Proof.
  intros Hx Hl. induction Hl as [|y l Hy Hl IH]; simpl; [now eexists|].
  unfold is_numeric in Hx, Hy.
  destruct (num_of (key x)) as [qx|] eqn:Ex; [|discriminate].
  destruct (num_of (key y)) as [qy|] eqn:Ey; [|discriminate].
  rewrite (py_lt_num _ _ _ _ (numval_self _ _ Ex) (numval_self _ _ Ey)).
  cbn [mbind exc_bind]. destruct (Qltb qx qy); [|now eexists].
  destruct IH as [r ->]. now eexists.
Qed.

Lemma sorted_desc_numeric {A} (key : A -> pyval) l :
  Forall (fun y => is_numeric (key y) = true) l ->
  exists r, sorted_desc key l = Ret r.
Proof.
  induction 1 as [|x l Hx Hl IH]; simpl; [now eexists|].
  destruct IH as [r E]. rewrite E. cbn [mbind exc_bind].
  apply insert_desc_numeric; [exact Hx|].
  exact (Permutation_Forall (sorted_desc_perm _ _ _ E) Hl).
Qed.

Lemma map_exc_total {A B} (f : A -> exc B) l :
  Forall (fun x => exists y, f x = Ret y) l -> exists r, map_exc f l = Ret r.
Proof.
  induction 1 as [|x l [y Hy] Hl [r IH]]; simpl; [now eexists|].
  rewrite Hy, IH. now eexists.
Qed.

Lemma mean_of_num total qs :
  numval total (sum_of qs) ->
  exists avg,
    match qs with
    | [] => mret (PInt 0)
    | _ => py_truediv total (PInt (Z.of_nat (length qs)))
    end = Ret avg
    /\ numval avg (mean_of qs).
Proof.
  intros Ht. destruct qs as [|q qs].
  - exists (PInt 0). split; [reflexivity|]. apply numval_int.
  - apply (py_truediv_num _ _ _ _ Ht (numval_int _)).
    unfold Qeq. simpl. lia.
Qed.


End Labels.


Section TokenLabel.

Lemma sentiment_score_num md cd c24 c7 c30 reddit twitter :
  num_of (get_or (md_change_24h md) (PInt 0)) = Some c24 ->
  num_of (get_or (md_change_7d md) (PInt 0)) = Some c7 ->
  num_of (get_or (md_change_30d md) (PInt 0)) = Some c30 ->
  num_of (get_or (reddit_subscribers cd) (PInt 0)) = Some reddit ->
  num_of (get_or (twitter_followers cd) (PInt 0)) = Some twitter ->
  exists score, sentiment_score md cd = Ret score
                /\ numval score (token_score c24 c7 c30 reddit twitter).
Proof.
  intros H24 H7 H30 Hr Ht. unfold sentiment_score, token_score.
  apply numval_self in H24, H7, H30, Hr, Ht.
  exc_step (py_mul_num _ _ _ _ H24 (numval_float (1 # 2))).
  exc_step (py_add_num _ _ _ _ (numval_int 0) N).
  exc_step (py_mul_num _ _ _ _ H7 (numval_float (3 # 10))).
  exc_step (py_add_num _ _ _ _ N0 N1).
  exc_step (py_mul_num _ _ _ _ H30 (numval_float (1 # 5))).
  exc_step (py_add_num _ _ _ _ N2 N3).
  unfold py_gt.
  rewrite (py_lt_num _ _ _ _ (numval_int 100000) Hr),
    (py_lt_num _ _ _ _ (numval_int 500000) Ht).
  change (inject_Z 100000) with 100000%Q. change (inject_Z 500000) with 500000%Q.
  cbn [mbind exc_bind].
  destruct (Qltb 100000 reddit); cbn [mbind exc_bind mret exc_ret orb];
    [|destruct (Qltb 500000 twitter); cbn [mbind exc_bind mret exc_ret]].
  - destruct (py_add_num _ _ _ _ N4 (numval_int 1)) as (total & -> & Hr').
    exists total. split; [reflexivity|]. eapply numval_eq; [exact Hr'|].
    change (inject_Z 0) with 0%Q. change (inject_Z 1) with 1%Q. lra.
  - destruct (py_add_num _ _ _ _ N4 (numval_int 1)) as (total & -> & Hr').
    exists total. split; [reflexivity|]. eapply numval_eq; [exact Hr'|].
    change (inject_Z 0) with 0%Q. change (inject_Z 1) with 1%Q. lra.
  - eexists. split; [reflexivity|]. eapply numval_eq; [exact N4|].
    change (inject_Z 0) with 0%Q. lra.
Qed.


End TokenLabel.


(* ================================================================== *)
(** * Further properties: answers past their lifetime *)
(* ================================================================== *)

Section Stale.

Variable CACHE_TIMEOUT : Q.

Lemma top_yields_stored limit min_tvl chain (w : world listing) c rs :
  cache_miss (top_yields_key limit min_tvl chain) w c ->
  fst (get_top_yields CACHE_TIMEOUT limit min_tvl chain w c) = CYields rs ->
  rs <> [] ->
  snd (get_top_yields CACHE_TIMEOUT limit min_tvl chain w c)
    !! top_yields_key limit min_tvl chain
  = Some {| data := CYields rs; expires := (now_store w + CACHE_TIMEOUT)%Q |}.
Proof.
  intros Hmiss. unfold get_top_yields.
  destruct (cache_miss_split _ _ _ Hmiss) as (cd & c1 & -> & ->).
  unfold top_yields_fetch, top_yields_try.
  destruct (upstream w) as [|status body]; [intros [= <-]; easy|].
  destruct (status =? 200); [|intros [= <-]; easy].
  destruct body as [payload|]; cbn [json mbind exc_bind];
    [|intros [= <-]; easy].
  destruct (top_pools limit min_tvl chain (pools_of payload)) as [e|top];
    cbn [mbind exc_bind]; [intros [= <-]; easy|].
  destruct (map_exc top_record top) as [e|rs'];
    cbn [mbind exc_bind mret exc_ret fst snd]; [intros [= <-]; easy|].
  intros [= ->] _. apply cache_result_lookup.
Qed.

Lemma top_yields_fetch_failed_cache limit min_tvl chain (w : world listing) c :
  fetch_failed (upstream w) ->
  top_yields_fetch CACHE_TIMEOUT limit min_tvl chain w c = (CYields [], c).
Proof.
  intros H. unfold top_yields_fetch, top_yields_try.
  destruct (fetch_failed_cases _ H) as [-> | [(status & body & -> & ->) | ->]];
    reflexivity.
Qed.

(** An answer is not served past its lifetime: when [CACHE_TIMEOUT]
    seconds or more have passed since [get_top_yields] stored it and the
    upstream fails, the call answers the empty list, not the stored one,
    and the entry is gone from the cache. *)
Theorem top_yields_stale_answer_is_dropped
    (limit min_tvl : Z) (chain : option string) (w1 w2 : world listing)
    (c : gmap string entry) (rs : list yield_record) :
  cache_miss (top_yields_key limit min_tvl chain) w1 c ->
  fst (get_top_yields CACHE_TIMEOUT limit min_tvl chain w1 c) = CYields rs ->
  rs <> [] ->
  (now_store w1 + CACHE_TIMEOUT <= now_lookup w2)%Q ->
  fetch_failed (upstream w2) ->
  fst (get_top_yields CACHE_TIMEOUT limit min_tvl chain w2
         (snd (get_top_yields CACHE_TIMEOUT limit min_tvl chain w1 c)))
  = CYields []
  /\ snd (get_top_yields CACHE_TIMEOUT limit min_tvl chain w2
            (snd (get_top_yields CACHE_TIMEOUT limit min_tvl chain w1 c)))
       !! top_yields_key limit min_tvl chain
     = None.
Proof.
  intros Hmiss Hrs Hne Hlate Hfail.
  pose proof (top_yields_stored _ _ _ _ _ _ Hmiss Hrs Hne) as Hin.
  set (c' := snd (get_top_yields CACHE_TIMEOUT limit min_tvl chain w1 c)) in *.
  unfold get_top_yields.
  rewrite (get_cached_expired _ _ _ _ Hin Hlate). cbn [cache_hit].
  rewrite (top_yields_fetch_failed_cache _ _ _ _ _ Hfail). cbn [fst snd].
  split; [reflexivity|apply lookup_delete_eq].
Qed.

End Stale.

Lemma top_yields_stale_answer_is_dropped_witness :
  fst (get_top_yields 300 2 1000000 None
         {| now_lookup := 1301; upstream := Http 503 None; now_store := 1302 |}
         (snd (get_top_yields 300 2 1000000 None (answering three_pools) ∅)))
  = CYields [].
Proof.
  assert (H1 : cache_miss (top_yields_key 2 1000000 None)
                 (answering three_pools) ∅) by (vm_compute; reflexivity).
  assert (H2 : { rs | fst (get_top_yields 300 2 1000000 None
                             (answering three_pools) ∅) = CYields rs
                      /\ rs <> [] }).
  { eexists. split; [vm_compute; reflexivity|discriminate]. }
  destruct H2 as (rs & E & Hne).
  refine (proj1 (top_yields_stale_answer_is_dropped 300 2 1000000 None
                   (answering three_pools)
                   {| now_lookup := 1301; upstream := Http 503 None;
                      now_store := 1302 |} ∅ rs H1 E Hne _ _)).
  - vm_compute; discriminate.
  - left. discriminate.
Defined.

(* ================================================================== *)
(** * Further properties: messages cut to a length *)
(* ================================================================== *)

Section Messages.

Lemma length_string_of_list_ascii l :
  String.length (string_of_list_ascii l) = length l.
Proof. induction l as [|a l IH]; simpl; congruence. Qed.

Lemma length_list_ascii_of_string s :
  length (list_ascii_of_string s) = String.length s.
Proof. induction s as [|a s IH]; simpl; congruence. Qed.

Lemma string_of_list_ascii_app l1 l2 :
  string_of_list_ascii (l1 ++ l2)
  = (string_of_list_ascii l1 ++ string_of_list_ascii l2)%string.
Proof.
  induction l1 as [|a l1 IH]; [reflexivity|].
  cbn [app string_of_list_ascii]. rewrite append_cons. now rewrite IH.
Qed.

Lemma str_slice_to_split n s :
  exists back, s = (str_slice_to n s ++ back)%string.
Proof.
  unfold str_slice_to.
  destruct (slice_to_firstn n (list_ascii_of_string s)) as [k ->].
  exists (string_of_list_ascii (skipn k (list_ascii_of_string s))).
  rewrite <- string_of_list_ascii_app, firstn_skipn.
  symmetry. apply string_of_list_ascii_of_string.
Qed.

Lemma str_slice_to_length n s :
  0 <= n <= Z.of_nat (String.length s) ->
  Z.of_nat (String.length (str_slice_to n s)) = n.
Proof.
  intros Hn. unfold str_slice_to, slice_to.
  rewrite (proj2 (Z.leb_le 0 n) (proj1 Hn)).
  rewrite length_string_of_list_ascii, length_firstn,
    length_list_ascii_of_string.
  lia.
Qed.

(** With a limit of three or more, [format_message] returns a message of
    at most [max_length] characters: the message itself when it fits, its
    first [max_length - 3] characters followed by three dots when it does
    not.  Formatting a formatted message changes nothing. *)
Theorem format_message_fits (message : string) (max_length : Z) :
  3 <= max_length ->
  Z.of_nat (String.length (format_message message max_length))
  = Z.min (Z.of_nat (String.length message)) max_length
  /\ (Z.of_nat (String.length message) <= max_length ->
      format_message message max_length = message)
  /\ (max_length < Z.of_nat (String.length message) ->
      exists front back,
        message = (front ++ back)%string
        /\ Z.of_nat (String.length front) = max_length - 3
        /\ format_message message max_length = (front ++ "...")%string)
  /\ format_message (format_message message max_length) max_length
     = format_message message max_length.
Proof.
  intros Hmax.
  assert (Hlen : Z.of_nat (String.length (format_message message max_length))
                 = Z.min (Z.of_nat (String.length message)) max_length).
  { unfold format_message.
    destruct (Z.leb_spec (Z.of_nat (String.length message)) max_length) as [H|H].
    - lia.
    - rewrite string_length_append, Nat2Z.inj_add, str_slice_to_length by lia.
      simpl. lia. }
  split; [exact Hlen|]. split; [|split].
  - intros H. unfold format_message.
    now rewrite (proj2 (Z.leb_le _ _) H).
  - intros H. unfold format_message.
    rewrite (proj2 (Z.leb_gt _ _) H).
    destruct (str_slice_to_split (max_length - 3) message) as [back E].
    exists (str_slice_to (max_length - 3) message), back.
    split; [exact E|]. split; [apply str_slice_to_length; lia|reflexivity].
  - unfold format_message at 1.
    rewrite (proj2 (Z.leb_le _ _)); [reflexivity|]. rewrite Hlen. lia.
Qed.

Lemma format_message_fits_witness :
  Z.of_nat (String.length (format_message "the quick brown fox" 10)) = 10
  /\ format_message (format_message "the quick brown fox" 10) 10
     = format_message "the quick brown fox" 10.
Proof.
  assert (H : 3 <= 10) by lia.
  destruct (format_message_fits "the quick brown fox" 10 H) as (H1 & _ & _ & H4).
  split; [exact H1|exact H4].
Defined.

(** Below three the cut counts from the end and the bound is lost. *)
Example format_message_below_three :
  format_message "abcdef" 1 = "abcd...".
Proof. reflexivity. Qed.

End Messages.

(* ================================================================== *)
(** * Further properties: cleaned text *)
(* ================================================================== *)

Section CleanText.

Lemma newline_is_space : is_space newline = true.
Proof. reflexivity. Qed.

Lemma is_newline_eq a : is_newline a = true -> a = newline.
Proof. unfold is_newline. apply Ascii.eqb_eq. Qed.

Lemma collapse_spaced text in_run : spaced (collapse text in_run) in_run = true.
Proof.
  revert in_run. induction text as [|a rest IH]; intros in_run; [reflexivity|].
  cbn [collapse]. destruct (is_space a) eqn:Ea.
  - destruct in_run; [apply IH|]. cbn [spaced].
    change (is_space " ") with true. cbv iota.
    change (Ascii.eqb " " " ") with true. cbn [andb negb]. apply IH.
  - cbn [spaced]. rewrite Ea. apply IH.
Qed.

Lemma spaced_weaken text : spaced text true = true -> spaced text false = true.
Proof.
  destruct text as [|a rest]; [reflexivity|]. cbn [spaced].
  destruct (is_space a); [|easy]. rewrite andb_false_r. discriminate.
Qed.

Lemma spaced_no_newline text after_space :
  spaced text after_space = true -> sub_newlines text 0 = text.
Proof.
  revert after_space. induction text as [|a rest IH]; intros after_space H;
    [reflexivity|].
  cbn [spaced] in H. cbn [sub_newlines].
  destruct (is_newline a) eqn:En.
  - apply is_newline_eq in En. subst a. rewrite newline_is_space in H.
    discriminate.
  - f_equal. destruct (is_space a).
    + apply andb_true_iff in H. eapply IH. exact (proj2 H).
    + eapply IH. exact H.
Qed.

Lemma collapse_fixed text in_run :
  spaced text in_run = true -> collapse text in_run = text.
Proof.
  revert in_run. induction text as [|a rest IH]; intros in_run H;
    [reflexivity|].
  cbn [spaced] in H. cbn [collapse]. destruct (is_space a).
  - apply andb_true_iff in H. destruct H as [H Hrest].
    apply andb_true_iff in H. destruct H as [Ha Hrun].
    apply Ascii.eqb_eq in Ha. subst a.
    destruct in_run; [discriminate|]. now rewrite (IH _ Hrest).
  - now rewrite (IH _ H).
Qed.

Lemma lstrip_spaced text after_space :
  spaced text after_space = true -> spaced (lstrip text) true = true.
Proof.
  revert after_space. induction text as [|a rest IH]; intros after_space H;
    [reflexivity|].
  cbn [lstrip]. destruct (is_space a) eqn:Ea.
  - cbn [spaced] in H. rewrite Ea in H. apply andb_true_iff in H.
    eapply IH. exact (proj2 H).
  - cbn [spaced] in *. now rewrite Ea in *.
Qed.

Lemma rstrip_cons a rest :
  rstrip (String a rest)
  = match rstrip rest with
    | EmptyString => if is_space a then EmptyString else String a EmptyString
    | kept => String a kept
    end.
Proof. reflexivity. Qed.

Lemma rstrip_spaced text after_space :
  spaced text after_space = true -> spaced (rstrip text) after_space = true.
Proof.
  revert after_space. induction text as [|a rest IH]; intros after_space H;
    [reflexivity|].
  rewrite rstrip_cons. cbn [spaced] in H.
  destruct (is_space a) eqn:Ea.
  - apply andb_true_iff in H. destruct H as [H Hrest].
    specialize (IH _ Hrest). destruct (rstrip rest) as [|b kept];
      [reflexivity|].
    cbn [spaced]. rewrite Ea. cbn [spaced] in IH. now rewrite H.
  - specialize (IH _ H). destruct (rstrip rest) as [|b kept].
    + cbn [spaced]. now rewrite Ea.
    + cbn [spaced]. rewrite Ea. exact IH.
Qed.

Lemma rstrip_no_trailing text : ends_in_space (rstrip text) = false.
Proof.
  induction text as [|a rest IH]; [reflexivity|]. rewrite rstrip_cons.
  destruct (rstrip rest) as [|b kept].
  - destruct (is_space a) eqn:Ea; [reflexivity|]. cbn [ends_in_space].
    exact Ea.
  - exact IH.
Qed.

Lemma lstrip_fixed text : spaced text true = true -> lstrip text = text.
Proof.
  destruct text as [|a rest]; [reflexivity|]. cbn [spaced lstrip].
  destruct (is_space a); [|reflexivity]. rewrite andb_false_r. discriminate.
Qed.

Lemma rstrip_fixed text : ends_in_space text = false -> rstrip text = text.
Proof.
  induction text as [|a rest IH]; [reflexivity|]. intros H.
  rewrite rstrip_cons. destruct rest as [|b rest'].
  - cbn [rstrip]. cbn [ends_in_space] in H. now rewrite H.
  - rewrite IH by exact H. reflexivity.
Qed.

Lemma letters_cons a rest :
  letters (String a rest)
  = if is_space a then letters rest else a :: letters rest.
Proof.
  unfold letters. cbn [list_ascii_of_string List.filter].
  now destruct (is_space a).
Qed.

Lemma collapse_letters text in_run :
  letters (collapse text in_run) = letters text.
Proof.
  revert in_run. induction text as [|a rest IH]; intros in_run; [reflexivity|].
  cbn [collapse]. rewrite (letters_cons a rest). destruct (is_space a) eqn:Ea.
  - destruct in_run; [apply IH|]. rewrite letters_cons.
    change (is_space " ") with true. apply IH.
  - rewrite letters_cons, Ea. now rewrite IH.
Qed.

Lemma lstrip_letters text : letters (lstrip text) = letters text.
Proof.
  induction text as [|a rest IH]; [reflexivity|]. cbn [lstrip].
  destruct (is_space a) eqn:Ea; [|reflexivity].
  now rewrite letters_cons, Ea.
Qed.

Lemma rstrip_letters text : letters (rstrip text) = letters text.
Proof.
  induction text as [|a rest IH]; [reflexivity|]. rewrite rstrip_cons.
  rewrite (letters_cons a rest), <- IH.
  destruct (rstrip rest) as [|b kept].
  - destruct (is_space a) eqn:Ea; [reflexivity|]. now rewrite letters_cons, Ea.
  - now rewrite letters_cons.
Qed.

(** [clean_text] returns a tidy text: its only whitespace is single
    spaces, each between two other characters, so it holds no newline
    at all.  The second substitution never finds a match, the first one
    having left no newline; the characters that are not whitespace come
    out unchanged and in order; and cleaning a cleaned text changes
    nothing. *)
Theorem clean_text_is_tidy (text : string) :
  tidy (clean_text text) = true
  /\ sub_newlines (collapse text false) 0 = collapse text false
  /\ letters (clean_text text) = letters text
  /\ clean_text (clean_text text) = clean_text text.
Proof.
  pose proof (collapse_spaced text false) as Hc.
  pose proof (spaced_no_newline _ _ Hc) as Hsub.
  assert (Hclean : clean_text text = strip (collapse text false)).
  { unfold clean_text. cbv zeta. now rewrite Hsub. }
  assert (Hs : spaced (clean_text text) true = true).
  { rewrite Hclean. unfold strip. apply rstrip_spaced.
    eapply lstrip_spaced. exact Hc. }
  assert (He : ends_in_space (clean_text text) = false).
  { rewrite Hclean. unfold strip. apply rstrip_no_trailing. }
  split; [|split; [exact Hsub|split]].
  - unfold tidy. now rewrite Hs, He.
  - rewrite Hclean. unfold strip.
    now rewrite rstrip_letters, lstrip_letters, collapse_letters.
  - set (r := clean_text text) in *. unfold clean_text at 1. cbv zeta.
    rewrite (collapse_fixed r false (spaced_weaken _ Hs)).
    rewrite (spaced_no_newline _ _ Hs). unfold strip.
    rewrite (lstrip_fixed _ Hs). now apply rstrip_fixed.
Qed.

End CleanText.
